(** * Slide editor: document store, template population and local persistence

    A shallow embedding of the TypeScript sources
    - [src/types/index.ts]               (the data model),
    - [src/hooks/useSlideStore.tsx]      (the document store),
    - [src/utils/presentationStorage.ts] (the persisted presentation),
    - [utils/savedSlidesUtils.ts]        (the persisted saved slides),
    - [utils/templateUtils.ts]           (the template population engine),
    with the properties of the specification stated and settled on it.

    Conventions of the embedding.
    - Objects whose TypeScript type is declared ([Slide], [SlideElement], ...)
      are records; a field declared optional is an [option]; whatever a
      run-time object carries beyond its declared fields sits in [extra].
    - Values the code inspects dynamically ([typeof], [Array.isArray],
      truthiness) are terms of [value].
    - A JavaScript number is a [number]: an integer-valued double or one of
      the three non-finite values.  Fractions are not represented.  Sums,
      differences and products are rounded as on doubles: exact up to 2^53
      in magnitude, to the nearest double beyond.
    - A JavaScript string is a [string].
    - [console] output and toast notifications are not modelled: an operation
      reports an error in the model exactly when it throws. *)

From Stdlib Require Import ZArith Lia Ascii String.
From stdpp Require Import base tactics option list strings gmap pretty sorting.

Local Open Scope string_scope.
Local Open Scope list_scope.
Local Open Scope Z_scope.
#[local] Set Warnings "-register-all".

(** ** JavaScript numbers *)

Inductive number : Type :=
| NaN
| NegInfinity
| Finite (z : Z)
| Infinity.

#[global] Instance number_eq_dec : EqDecision number.
Proof. solve_decision. Defined.

(** The integer nearest to [num / den] for a positive [den]; of the two
    nearest to a half it is the even one. *)
Definition round_half_even (num den : Z) : Z :=
  let q := num / den in
  let r := num mod den in
  if 2 * r <? den then q
  else if den <? 2 * r then q + 1
  else if Z.even q then q
  else q + 1.

(** The double nearest to the integer [z]: what an operation on doubles
    returns when its exact result is [z].  A double has 53 significant bits:
    below 2^53 in magnitude every integer is a double; from there on the
    doubles are the multiples of the power of two 52 places below the
    leading bit, the nearest one is taken, a tie goes to the even
    significand, and what rounds to 2^1024 or beyond is an infinity. *)
Definition round_to_double (z : Z) : number :=
  let a := Z.abs z in
  if a <? 2 ^ 53 then Finite z
  else
    let unit := 2 ^ (Z.log2 a - 52) in
    let m := round_half_even a unit * unit in
    if 2 ^ 1024 <=? m then (if 0 <? z then Infinity else NegInfinity)
    else Finite (Z.sgn z * m).

(** [a + b] *)
Definition number_add (a b : number) : number :=
  match a, b with
  | NaN, _ | _, NaN => NaN
  | Infinity, NegInfinity | NegInfinity, Infinity => NaN
  | Infinity, _ | _, Infinity => Infinity
  | NegInfinity, _ | _, NegInfinity => NegInfinity
  | Finite x, Finite y => round_to_double (x + y)
  end.

(** [a - b] *)
Definition number_sub (a b : number) : number :=
  match a, b with
  | NaN, _ | _, NaN => NaN
  | Infinity, Infinity | NegInfinity, NegInfinity => NaN
  | Infinity, _ | _, NegInfinity => Infinity
  | NegInfinity, _ | _, Infinity => NegInfinity
  | Finite x, Finite y => round_to_double (x - y)
  end.

(** [a < b]; every comparison with [NaN] is false. *)
Definition number_ltb (a b : number) : bool :=
  match a, b with
  | NaN, _ | _, NaN => false
  | _, NegInfinity => false
  | NegInfinity, _ => true
  | Infinity, _ => false
  | _, Infinity => true
  | Finite x, Finite y => x <? y
  end.

(** [a > b] *)
Definition number_gtb (a b : number) : bool := number_ltb b a.

(** The numbers that are falsy are 0 and [NaN]. *)
Definition number_truthy (n : number) : bool :=
  match n with
  | NaN | Finite 0 => false
  | _ => true
  end.

Definition number_max (a b : number) : number :=
  match a, b with
  | NaN, _ | _, NaN => NaN
  | _, _ => if number_ltb a b then b else a
  end.

Definition number_min (a b : number) : number :=
  match a, b with
  | NaN, _ | _, NaN => NaN
  | _, _ => if number_ltb b a then b else a
  end.

(** [Math.max(...args)]: [-Infinity] without arguments. *)
Definition Math_max (args : list number) : number :=
  foldr number_max NegInfinity args.

(** [Math.min(...args)]: [Infinity] without arguments. *)
Definition Math_min (args : list number) : number :=
  foldr number_min Infinity args.

Definition is_finite (n : number) : bool :=
  match n with Finite _ => true | _ => false end.

(** ** Dynamically inspected values *)

Inductive value : Type :=
| VUndefined
| VNull
| VBoolean (b : bool)
| VNumber (n : number)
| VString (s : string)
| VArray (items : list value)
| VObject (props : list (string * value)).

(** Truthiness, as used by [&&], [||], [!] and [if]. *)
Definition truthy (v : value) : bool :=
  match v with
  | VUndefined | VNull => false
  | VBoolean b => b
  | VNumber n => number_truthy n
  | VString s => negb (String.eqb s "")
  | VArray _ | VObject _ => true
  end.

Definition typeof (v : value) : string :=
  match v with
  | VUndefined => "undefined"
  | VNull | VArray _ | VObject _ => "object"
  | VBoolean _ => "boolean"
  | VNumber _ => "number"
  | VString _ => "string"
  end.

Definition Array_isArray (v : value) : bool :=
  match v with VArray _ => true | _ => false end.

(** First binding of [key] in a property list. *)
Fixpoint lookup_prop {A} (key : string) (props : list (string * A)) : option A :=
  match props with
  | [] => None
  | (k, v) :: rest => if String.eqb k key then Some v else lookup_prop key rest
  end.

(** [v.key] for a named property.  Reading a property of [undefined] or
    [null] throws a TypeError ([None]); a property that is not there reads
    as [undefined].  Arrays and primitives have no named data property the
    sources read this way. *)
Definition get (v : value) (key : string) : option value :=
  match v with
  | VUndefined | VNull => None
  | VObject props => Some (default VUndefined (lookup_prop key props))
  | _ => Some VUndefined
  end.

(** [v === s] for a string [s]. *)
Definition is_string (v : value) (s : string) : bool :=
  match v with VString s' => String.eqb s' s | _ => false end.

(** [{ ...props, key: v }] *)
Fixpoint set_prop {A} (key : string) (v : A) (props : list (string * A))
  : list (string * A) :=
  match props with
  | [] => [(key, v)]
  | (k, v') :: rest =>
      if String.eqb k key then (key, v) :: rest
      else (k, v') :: set_prop key v rest
  end.

(** [{ ...target, ...source }] *)
Definition assign {A} (target source : list (string * A)) : list (string * A) :=
  foldl (λ acc p, set_prop p.1 p.2 acc) target source.

(** ** JSON documents and stored text *)

Inductive json : Type :=
| JNull
| JBoolean (b : bool)
| JNumber (z : Z)
| JString (s : string)
| JArray (items : list json)
| JObject (members : list (string * json)).

(** [JSON.parse] on the text of a document.  The members of an object are
    defined one after the other: a name that repeats keeps the place of its
    first member and the value of its last. *)
Fixpoint JSON_parse_document (j : json) : value :=
  match j with
  | JNull => VNull
  | JBoolean b => VBoolean b
  | JNumber z => VNumber (Finite z)
  | JString s => VString s
  | JArray items => VArray (map JSON_parse_document items)
  | JObject members =>
      VObject (assign [] (map (λ m, (m.1, JSON_parse_document m.2)) members))
  end.

(** [JSON.stringify]: the document whose text it returns, [None] where it
    returns [undefined].  A non-finite number becomes [null]; inside an
    array [undefined] becomes [null]; a property whose value is [undefined]
    is left out. *)
Fixpoint JSON_stringify (v : value) : option json :=
  match v with
  | VUndefined => None
  | VNull => Some JNull
  | VBoolean b => Some (JBoolean b)
  | VNumber (Finite z) => Some (JNumber z)
  | VNumber _ => Some JNull
  | VString s => Some (JString s)
  | VArray items =>
      Some (JArray (map (λ item, default JNull (JSON_stringify item)) items))
  | VObject props =>
      Some (JObject
              (omap (λ p, match JSON_stringify p.2 with
                          | Some j => Some (p.1, j)
                          | None => None
                          end) props))
  end.

(** What a storage slot holds: the text of a JSON document, or some other
    string. *)
Inductive stored : Type :=
| document (j : json)
| other_text (s : string).

(** A string is falsy exactly when it is empty; the text of a document
    never is. *)
Definition stored_truthy (t : stored) : bool :=
  match t with
  | document _ => true
  | other_text s => negb (String.eqb s "")
  end.

(** [JSON.parse(t)]; [None] is a SyntaxError. *)
Definition JSON_parse (t : stored) : option value :=
  match t with
  | document j => Some (JSON_parse_document j)
  | other_text _ => None
  end.

(** [localStorage] *)
Abbreviation Storage := (gmap string stored).

(** The string a template literal or [setItem] makes of the result of
    [JSON.stringify]. *)
Definition stored_of_stringified (r : option json) : stored :=
  match r with
  | Some j => document j
  | None => other_text "undefined"
  end.

(** ** Property lists *)

(** The property [key] when the optional field holds something. *)
Definition field {A} (key : string) (enc : A → value) (o : option A)
  : list (string * value) :=
  match o with
  | Some a => [(key, enc a)]
  | None => []
  end.

Definition as_string (v : value) : option string :=
  match v with VString s => Some s | _ => None end.

Definition as_number (v : value) : option number :=
  match v with VNumber n => Some n | _ => None end.

(** Reads a required field of the declared type. *)
Definition required {A} (key : string) (dec : value → option A)
    (props : list (string * value)) : option A :=
  lookup_prop key props ≫= dec.

(** Reads an optional field: absent and [undefined] are the same. *)
Definition optional {A} (key : string) (dec : value → option A)
    (props : list (string * value)) : option (option A) :=
  match lookup_prop key props with
  | None | Some VUndefined => Some None
  | Some v => Some <$> dec v
  end.

(** Is [key] one of the declared field names? *)
Definition declares (declared : list string) (key : string) : bool :=
  existsb (String.eqb key) declared.

Definition undeclared (declared : list string) (props : list (string * value))
  : list (string * value) :=
  List.filter (λ p, negb (declares declared p.1)) props.

(** ** The data model ([src/types/index.ts]) *)

Module TextAlign.
Inductive t : Type := left | center | right.

Definition to_string (a : t) : string :=
  match a with left => "left" | center => "center" | right => "right" end.

Definition of_value (v : value) : option t :=
  match v with
  | VString s =>
      if String.eqb s "left" then Some left
      else if String.eqb s "center" then Some center
      else if String.eqb s "right" then Some right
      else None
  | _ => None
  end.
End TextAlign.

Module Style.
Record t : Type := mk {
  backgroundColor : option string;
  color : option string;
  fontSize : option number;
  fontWeight : option string;
  fontStyle : option string;
  textDecoration : option string;
  textAlign : option TextAlign.t;
  borderRadius : option (number + string);
}.

Definition borderRadius_to_value (r : number + string) : value :=
  match r with inl n => VNumber n | inr s => VString s end.

Definition borderRadius_of_value (v : value) : option (number + string) :=
  match v with
  | VNumber n => Some (inl n)
  | VString s => Some (inr s)
  | _ => None
  end.

Definition props (s : t) : list (string * value) :=
  field "backgroundColor" VString (backgroundColor s)
  ++ field "color" VString (color s)
  ++ field "fontSize" VNumber (fontSize s)
  ++ field "fontWeight" VString (fontWeight s)
  ++ field "fontStyle" VString (fontStyle s)
  ++ field "textDecoration" VString (textDecoration s)
  ++ field "textAlign" (λ a, VString (TextAlign.to_string a)) (textAlign s)
  ++ field "borderRadius" borderRadius_to_value (borderRadius s).

(** The object as it sits in memory. *)
Definition to_value (s : t) : value := VObject (props s).

Definition of_value (v : value) : option t :=
  match v with
  | VObject props =>
      bg ← optional "backgroundColor" as_string props;
      c ← optional "color" as_string props;
      fs ← optional "fontSize" as_number props;
      fw ← optional "fontWeight" as_string props;
      fst ← optional "fontStyle" as_string props;
      td ← optional "textDecoration" as_string props;
      ta ← optional "textAlign" TextAlign.of_value props;
      br ← optional "borderRadius" borderRadius_of_value props;
      Some (mk bg c fs fw fst td ta br)
  | _ => None
  end.

(** Every number in the style is finite. *)
Definition finite (s : t) : bool :=
  from_option is_finite true (fontSize s)
  && match borderRadius s with Some (inl n) => is_finite n | _ => true end.
End Style.

Inductive ElementType : Type := text | image | shape.

#[global] Instance ElementType_eq_dec : EqDecision ElementType.
Proof. solve_decision. Defined.

Definition ElementType_to_string (ty : ElementType) : string :=
  match ty with text => "text" | image => "image" | shape => "shape" end.

Definition ElementType_of_value (v : value) : option ElementType :=
  match v with
  | VString s =>
      if String.eqb s "text" then Some text
      else if String.eqb s "image" then Some image
      else if String.eqb s "shape" then Some shape
      else None
  | _ => None
  end.

Module SlideElement.
Record t : Type := mk {
  id : string;
  type : ElementType;
  x : number;
  y : number;
  width : number;
  height : number;
  content : option string;
  style : option Style.t;
  zIndex : option number;
  extra : list (string * value);
}.

Definition declared : list string :=
  ["id"; "type"; "x"; "y"; "width"; "height"; "content"; "style"; "zIndex"].

(** [{ ...element, id: newId }] *)
Definition with_id (element : t) (newId : string) : t :=
  mk newId (type element) (x element) (y element) (width element)
     (height element) (content element) (style element) (zIndex element)
     (extra element).

(** [{ ...element, content: c }] *)
Definition with_content (element : t) (c : option string) : t :=
  mk (id element) (type element) (x element) (y element) (width element)
     (height element) c (style element) (zIndex element) (extra element).

(** [{ ...element, zIndex: z }] *)
Definition with_zIndex (element : t) (z : number) : t :=
  mk (id element) (type element) (x element) (y element) (width element)
     (height element) (content element) (style element) (Some z)
     (extra element).

(** The properties of the object as it sits in memory; a declared key
    hides an undeclared property of the same name. *)
Definition props (e : t) : list (string * value) :=
  [("id", VString (id e));
   ("type", VString (ElementType_to_string (type e)));
   ("x", VNumber (x e));
   ("y", VNumber (y e));
   ("width", VNumber (width e));
   ("height", VNumber (height e))]
  ++ field "content" VString (content e)
  ++ field "style" Style.to_value (style e)
  ++ field "zIndex" VNumber (zIndex e)
  ++ undeclared declared (extra e).

Definition to_value (e : t) : value := VObject (props e).

(** Reading a run-time value at the declared type. *)
Definition of_value (v : value) : option t :=
  match v with
  | VObject props =>
      i ← required "id" as_string props;
      ty ← required "type" ElementType_of_value props;
      x ← required "x" as_number props;
      y ← required "y" as_number props;
      w ← required "width" as_number props;
      h ← required "height" as_number props;
      c ← optional "content" as_string props;
      s ← optional "style" Style.of_value props;
      z ← optional "zIndex" as_number props;
      Some (mk i ty x y w h c s z (undeclared declared props))
  | _ => None
  end.

(** Every number in the element is finite. *)
Definition finite (e : t) : bool :=
  is_finite (x e) && is_finite (y e) && is_finite (width e)
  && is_finite (height e)
  && from_option Style.finite true (style e)
  && from_option is_finite true (zIndex e).
End SlideElement.

Module Slide.
Record t : Type := mk {
  id : string;
  elements : list SlideElement.t;
  backgroundColor : option string;
  extra : list (string * value);
}.

Definition declared : list string := ["id"; "elements"; "backgroundColor"].

(** [{ ...slide, elements: es }] *)
Definition with_elements (slide : t) (es : list SlideElement.t) : t :=
  mk (id slide) es (backgroundColor slide) (extra slide).

(** [{ ...slide, id: newId, elements: es }] *)
Definition with_id_elements (slide : t) (newId : string)
    (es : list SlideElement.t) : t :=
  mk newId es (backgroundColor slide) (extra slide).

Definition props (s : t) : list (string * value) :=
  [("id", VString (id s));
   ("elements", VArray (map SlideElement.to_value (elements s)))]
  ++ field "backgroundColor" VString (backgroundColor s)
  ++ undeclared declared (extra s).

Definition to_value (s : t) : value := VObject (props s).

Definition elements_of_value (v : value) : option (list SlideElement.t) :=
  match v with
  | VArray items => mapM SlideElement.of_value items
  | _ => None
  end.

Definition of_value (v : value) : option t :=
  match v with
  | VObject props =>
      i ← required "id" as_string props;
      es ← required "elements" elements_of_value props;
      bg ← optional "backgroundColor" as_string props;
      Some (mk i es bg (undeclared declared props))
  | _ => None
  end.

Definition finite (s : t) : bool :=
  forallb SlideElement.finite (elements s).
End Slide.

(** ** The environment: storage, clock and random source *)

Inductive error : Type :=
| TypeError
| SyntaxError
| Error (message : string).

Inductive result (A : Type) : Type :=
| Returned (a : A)
| Thrown (e : error).
Arguments Returned {A} a.
Arguments Thrown {A} e.

(** [clock n] is what the [n]-th coming call of [Date.now()] returns and
    [entropy n] what the [n]-th coming call of [Math.random()] prints as. *)
Record World : Type := mkWorld {
  localStorage : Storage;
  clock : nat → Z;
  entropy : nat → string;
}.

Definition M (A : Type) : Type := World → result A * World.

#[global] Instance M_ret : MRet M := λ A a w, (Returned a, w).

#[global] Instance M_bind : MBind M := λ A B f c w,
  match c w with
  | (Returned a, w') => f a w'
  | (Thrown e, w') => (Thrown e, w')
  end.

Definition throw {A} (e : error) : M A := λ w, (Thrown e, w).

(** [try { body } catch (error) { handler }] *)
Definition try_catch {A} (body : M A) (handler : error → M A) : M A := λ w,
  match body w with
  | (Returned a, w') => (Returned a, w')
  | (Thrown e, w') => handler e w'
  end.

(** Lifts a partial builtin: [None] throws [e]. *)
Definition or_throw {A} (e : error) (o : option A) : M A :=
  match o with
  | Some a => mret a
  | None => throw e
  end.

Definition getItem (key : string) : M (option stored) := λ w,
  (Returned (localStorage w !! key), w).

Definition setItem (key : string) (t : stored) : M unit := λ w,
  (Returned (), mkWorld (<[key := t]> (localStorage w)) (clock w) (entropy w)).

Definition Date_now : M Z := λ w,
  (Returned (clock w 0%nat),
   mkWorld (localStorage w) (λ n, clock w (S n)) (entropy w)).

Definition Math_random : M string := λ w,
  (Returned (entropy w 0%nat),
   mkWorld (localStorage w) (clock w) (λ n, entropy w (S n))).

(** ** The persisted presentation ([src/utils/presentationStorage.ts]) *)

Definition PRESENTATION_STORAGE_KEY : string := "slide-editor-presentation".

(** The shape check [slide && typeof slide === 'object' && slide.id &&
    Array.isArray(slide.elements)], which [sanitizeSlidesForStorage] and
    [addSlide] both write out. *)
Definition slide_shaped (slide : value) : bool :=
  truthy slide
  && String.eqb (typeof slide) "object"
  && from_option truthy false (get slide "id")
  && from_option Array_isArray false (get slide "elements").

Definition sanitizeSlidesForStorage (slides : list Slide.t) : list Slide.t :=
  let validSlides :=
    List.filter (λ slide, slide_shaped (Slide.to_value slide)) slides in
  map (λ slide,
         Slide.mk
           (Slide.id slide)
           (map (λ element,
                   SlideElement.mk
                     (SlideElement.id element)
                     (SlideElement.type element)
                     (SlideElement.x element)
                     (SlideElement.y element)
                     (SlideElement.width element)
                     (SlideElement.height element)
                     (SlideElement.content element)
                     (SlideElement.style element)
                     (SlideElement.zIndex element)
                     [])
                (Slide.elements slide))
           (Slide.backgroundColor slide)
           [])
      validSlides.

Definition savePresentation (slides : list Slide.t) : M unit :=
  try_catch
    (let cleanSlides := sanitizeSlidesForStorage slides in
     let testStringify :=
       JSON_stringify (VArray (map Slide.to_value cleanSlides)) in
     setItem PRESENTATION_STORAGE_KEY (stored_of_stringified testStringify))
    (λ error, mret ()).

Definition isValidSlide (slide : value) : bool :=
  truthy slide
  && from_option (λ i, String.eqb (typeof i) "string") false (get slide "id")
  && from_option Array_isArray false (get slide "elements").

(** Returns the parsed array as it is; [None] is [null]. *)
Definition loadPresentation : M (option (list value)) :=
  try_catch
    (saved ← getItem PRESENTATION_STORAGE_KEY;
     match saved with
     | None => mret None
     | Some saved =>
         if negb (stored_truthy saved) then mret None
         else
           slides ← or_throw SyntaxError (JSON_parse saved);
           match slides with
           | VArray slides =>
               if negb (forallb isValidSlide slides) then mret None
               else mret (Some slides)
           | _ => mret None
           end
     end)
    (λ error, mret None).

Definition clearPresentation : M unit :=
  try_catch
    (λ w, (Returned (),
           mkWorld (delete PRESENTATION_STORAGE_KEY (localStorage w))
                   (clock w) (entropy w)))
    (λ error, mret ()).

(** ** The document store ([src/hooks/useSlideStore.tsx]) *)

(** The four [useState] cells of the hook. *)
Record State : Type := mkState {
  slides : list Slide.t;
  currentSlideId : option string;
  selectedElementId : option string;
  isLoaded : bool;
}.

Definition initialState : State :=
  mkState [Slide.mk "slide-1" [] (Some "#ffffff") []] (Some "slide-1") None false.

Definition autoSave (isLoaded : bool) (newSlides : list Slide.t) : M unit :=
  if isLoaded then try_catch (savePresentation newSlides) (λ error, mret ())
  else mret ().

(** [{ id: `slide-${Date.now()}`, elements: [], backgroundColor: "#ffffff" }] *)
Definition emptySlide : M Slide.t :=
  now ← Date_now;
  mret (Slide.mk ("slide-" +:+ pretty now) [] (Some "#ffffff") []).

(** The condition under which [addSlide] logs the template as invalid and
    returns. *)
Definition invalid_template (template : value) : bool :=
  truthy template
  && (negb (String.eqb (typeof template) "object")
      || negb (from_option truthy false (get template "id"))
      || negb (from_option Array_isArray false (get template "elements"))).

(** [template] is the argument as it arrives at run time ([VUndefined] when
    the call passes none).  The result is [None] when a value that is not a
    [Slide] by its declared type passes the check: the store would then hold
    an object this model has no record for. *)
Definition addSlide (template : value) (st : State) : M (option State) :=
  if invalid_template template then mret (Some st)
  else
    newSlide ← (if truthy template then mret (Slide.of_value template)
                else fresh ← emptySlide; mret (Some fresh));
    match newSlide with
    | None => mret None
    | Some newSlide =>
        let validSlides :=
          List.filter (λ slide, slide_shaped (Slide.to_value slide)) (slides st) in
        let newSlides := validSlides ++ [newSlide] in
        autoSave (isLoaded st) newSlides;;
        mret (Some (mkState newSlides (Some (Slide.id newSlide)) None
                            (isLoaded st)))
    end.

Definition deleteSlide (slideId : string) (st : State) : M State :=
  let filtered := filter (λ slide, Slide.id slide ≠ slideId) (slides st) in
  match filtered with
  | [] =>
      newSlide ← emptySlide;
      let newSlides := [newSlide] in
      autoSave (isLoaded st) newSlides;;
      mret (mkState newSlides (Some (Slide.id newSlide)) None (isLoaded st))
  | first :: _ =>
      let current :=
        if decide (Some slideId = currentSlideId st) then Some (Slide.id first)
        else currentSlideId st in
      autoSave (isLoaded st) filtered;;
      mret (mkState filtered current None (isLoaded st))
  end.

(** [{ ...element, id: `element-${Date.now()}-${Math.random()}` }] *)
Definition reidentified (element : SlideElement.t) : M SlideElement.t :=
  now ← Date_now;
  r ← Math_random;
  mret (SlideElement.with_id element ("element-" +:+ pretty now +:+ "-" +:+ r)).

Definition duplicateSlide (slideId : string) (st : State) : M State :=
  let prev := slides st in
  match list_find (λ slide, Slide.id slide = slideId) prev with
  | None => mret st
  | Some (slideIndex, originalSlide) =>
      now ← Date_now;
      es ← mapM reidentified (Slide.elements originalSlide);
      let duplicatedSlide :=
        Slide.mk ("slide-" +:+ pretty now) es
                 (Slide.backgroundColor originalSlide) [] in
      let newSlides :=
        take (S slideIndex) prev ++ duplicatedSlide :: drop (S slideIndex) prev in
      autoSave (isLoaded st) newSlides;;
      mret (mkState newSlides (currentSlideId st) (selectedElementId st)
                    (isLoaded st))
  end.

(** Indices inside the sequence; [None] when [dragIndex] is outside, where
    the source inserts [undefined] among the slides. *)
Definition reorderSlides (dragIndex hoverIndex : nat) (st : State)
  : M (option State) :=
  let prev := slides st in
  match prev !! dragIndex with
  | None => mret None
  | Some draggedSlide =>
      let removed := delete dragIndex prev in
      let newSlides :=
        take hoverIndex removed ++ draggedSlide :: drop hoverIndex removed in
      autoSave (isLoaded st) newSlides;;
      mret (Some (mkState newSlides (currentSlideId st) (selectedElementId st)
                          (isLoaded st)))
  end.

Definition setCurrentSlide (slideId : string) (st : State) : M State :=
  mret (mkState (slides st) (Some slideId) None (isLoaded st)).

Definition addElement (slideId : string) (element : SlideElement.t) (st : State)
  : M State :=
  let newSlides :=
    map (λ slide,
           if decide (Slide.id slide = slideId)
           then Slide.with_elements slide (Slide.elements slide ++ [element])
           else slide)
        (slides st) in
  autoSave (isLoaded st) newSlides;;
  mret (mkState newSlides (currentSlideId st) (Some (SlideElement.id element))
                (isLoaded st)).

(** [Partial<SlideElement>]: the keys an update provides. *)
Module Updates.
Record t : Type := mk {
  id : option string;
  type : option ElementType;
  x : option number;
  y : option number;
  width : option number;
  height : option number;
  content : option (option string);
  style : option (option Style.t);
  zIndex : option (option number);
  extra : list (string * value);
}.

(** [{ ...element, ...updates }] *)
Definition merge (element : SlideElement.t) (updates : t) : SlideElement.t :=
  SlideElement.mk
    (default (SlideElement.id element) (id updates))
    (default (SlideElement.type element) (type updates))
    (default (SlideElement.x element) (x updates))
    (default (SlideElement.y element) (y updates))
    (default (SlideElement.width element) (width updates))
    (default (SlideElement.height element) (height updates))
    (default (SlideElement.content element) (content updates))
    (default (SlideElement.style element) (style updates))
    (default (SlideElement.zIndex element) (zIndex updates))
    (assign (SlideElement.extra element) (extra updates)).
End Updates.

Definition updateElement (slideId elementId : string) (updates : Updates.t)
    (st : State) : M State :=
  let newSlides :=
    map (λ slide,
           if decide (Slide.id slide = slideId)
           then Slide.with_elements slide
                  (map (λ element,
                          if decide (SlideElement.id element = elementId)
                          then Updates.merge element updates
                          else element)
                       (Slide.elements slide))
           else slide)
        (slides st) in
  autoSave (isLoaded st) newSlides;;
  mret (mkState newSlides (currentSlideId st) (selectedElementId st)
                (isLoaded st)).

Definition deleteElement (slideId elementId : string) (st : State) : M State :=
  let newSlides :=
    map (λ slide,
           if decide (Slide.id slide = slideId)
           then Slide.with_elements slide
                  (filter (λ element, SlideElement.id element ≠ elementId)
                          (Slide.elements slide))
           else slide)
        (slides st) in
  autoSave (isLoaded st) newSlides;;
  mret (mkState newSlides (currentSlideId st) None (isLoaded st)).

Definition setSelectedElement (elementId : option string) (st : State) : M State :=
  mret (mkState (slides st) (currentSlideId st) elementId (isLoaded st)).

(** [el.zIndex || 0] *)
Definition zIndex_or_0 (el : SlideElement.t) : number :=
  match SlideElement.zIndex el with
  | Some z => if number_truthy z then z else Finite 0
  | None => Finite 0
  end.

Definition bringToFront_slide (slideId elementId : string) (slide : Slide.t)
  : Slide.t :=
  if decide (Slide.id slide ≠ slideId) then slide
  else
    let maxZIndex := Math_max (map zIndex_or_0 (Slide.elements slide)) in
    Slide.with_elements slide
      (map (λ element,
              if decide (SlideElement.id element = elementId)
              then SlideElement.with_zIndex element
                     (number_add maxZIndex (Finite 1))
              else element)
           (Slide.elements slide)).

Definition bringToFront (slideId elementId : string) (st : State) : M State :=
  let newSlides := map (bringToFront_slide slideId elementId) (slides st) in
  autoSave (isLoaded st) newSlides;;
  mret (mkState newSlides (currentSlideId st) (selectedElementId st)
                (isLoaded st)).

Definition sendToBack_slide (slideId elementId : string) (slide : Slide.t)
  : Slide.t :=
  if decide (Slide.id slide ≠ slideId) then slide
  else
    let minZIndex := Math_min (map zIndex_or_0 (Slide.elements slide)) in
    Slide.with_elements slide
      (map (λ element,
              if decide (SlideElement.id element = elementId)
              then SlideElement.with_zIndex element
                     (number_sub minZIndex (Finite 1))
              else element)
           (Slide.elements slide)).

Definition sendToBack (slideId elementId : string) (st : State) : M State :=
  let newSlides := map (sendToBack_slide slideId elementId) (slides st) in
  autoSave (isLoaded st) newSlides;;
  mret (mkState newSlides (currentSlideId st) (selectedElementId st)
                (isLoaded st)).

(** ** Saved slides ([utils/savedSlidesUtils.ts]) *)

Definition SAVED_SLIDES_KEY : string := "slide-editor-saved-slides".

Definition double_quote : string := String "034"%char "".

(** [items.find(pred)]; [None] when [pred] throws a TypeError. *)
Fixpoint Array_find (pred : value → option bool) (items : list value)
  : option value :=
  match items with
  | [] => Some VUndefined
  | item :: rest =>
      match pred item with
      | None => None
      | Some true => Some item
      | Some false => Array_find pred rest
      end
  end.

(** [items.filter(pred)]; [None] when [pred] throws a TypeError. *)
Fixpoint Array_filter (pred : value → option bool) (items : list value)
  : option (list value) :=
  match items with
  | [] => Some []
  | item :: rest =>
      match pred item with
      | None => None
      | Some keep =>
          kept ← Array_filter pred rest;
          Some (if keep then item :: kept else kept)
      end
  end.

Definition getSavedSlides : M value :=
  try_catch
    (saved ← getItem SAVED_SLIDES_KEY;
     match saved with
     | Some saved =>
         if stored_truthy saved then or_throw SyntaxError (JSON_parse saved)
         else mret (VArray [])
     | None => mret (VArray [])
     end)
    (λ error, mret (VArray [])).

Module SavedSlide.
(** [createdAt] is the time value of the [Date]. *)
Record t : Type := mk {
  id : string;
  name : string;
  slide : Slide.t;
  createdAt : Z;
  thumbnail : option string;
}.
End SavedSlide.

Section SavedSlides.
(** [Date.prototype.toISOString], through which [JSON.stringify] writes a
    [Date]. *)
Variable toISOString : Z → string.

(** The saved slide is only ever serialised: its [Date] is represented by
    the string [toJSON] yields. *)
Definition SavedSlide_to_value (s : SavedSlide.t) : value :=
  VObject ([("id", VString (SavedSlide.id s));
            ("name", VString (SavedSlide.name s));
            ("slide", Slide.to_value (SavedSlide.slide s));
            ("createdAt", VString (toISOString (SavedSlide.createdAt s)))]
           ++ field "thumbnail" VString (SavedSlide.thumbnail s)).

(** The object literal that [saveSlideToStorage] builds, its clock and
    random reads in evaluation order. *)
Definition newSavedSlide (slide : Slide.t) (name : string) : M SavedSlide.t :=
  savedNow ← Date_now;
  slideNow ← Date_now;
  es ← mapM reidentified (Slide.elements slide);
  createdAt ← Date_now;
  mret (SavedSlide.mk
          ("saved-" +:+ pretty savedNow)
          name
          (Slide.with_id_elements slide ("slide-" +:+ pretty slideNow) es)
          createdAt
          None).

Definition saveSlideToStorage (slide : Slide.t) (name : string) : M unit :=
  try_catch
    (savedSlides ← getSavedSlides;
     match savedSlides with
     | VArray savedSlides =>
         existingSlide ←
           or_throw TypeError
             (Array_find (λ saved, n ← get saved "name"; Some (is_string n name))
                         savedSlides);
         if truthy existingSlide then
           throw (Error ("A slide with the name " +:+ double_quote +:+ name
                         +:+ double_quote +:+ " already exists"))
         else
           savedSlide ← newSavedSlide slide name;
           let savedSlides := savedSlides ++ [SavedSlide_to_value savedSlide] in
           setItem SAVED_SLIDES_KEY
                   (stored_of_stringified (JSON_stringify (VArray savedSlides)))
     | _ => throw TypeError
     end)
    (λ error, throw error).

Definition deleteSavedSlide (id : string) : M unit :=
  try_catch
    (savedSlides ← getSavedSlides;
     match savedSlides with
     | VArray savedSlides =>
         filtered ←
           or_throw TypeError
             (Array_filter (λ saved, i ← get saved "id";
                                     Some (negb (is_string i id)))
                           savedSlides);
         setItem SAVED_SLIDES_KEY
                 (stored_of_stringified (JSON_stringify (VArray filtered)))
     | _ => throw TypeError
     end)
    (λ error, throw error).
End SavedSlides.

(** ** Template population ([utils/templateUtils.ts]) *)

Module Agent.
Record t : Type := mk {
  name : string;
  phone : string;
  email : string;
}.
End Agent.

Module RealEstateData.
Record t : Type := mk {
  address : string;
  price : string;
  bedrooms : number;
  bathrooms : number;
  sqft : number;
  yearBuilt : number;
  propertyType : string;
  description : string;
  agent : Agent.t;
  images : list string;
}.
End RealEstateData.

(** The sample record of [src/data/mockData.ts]. *)
Definition mockRealEstateData : RealEstateData.t :=
  RealEstateData.mk
    "1234 Oak Street, Beverly Hills, CA 90210"
    "$2,500,000"
    (Finite 4) (Finite 3) (Finite 3200) (Finite 2018)
    "Single Family Home"
    "Stunning modern home with open floor plan, high ceilings, and premium finishes throughout. Features a gourmet kitchen with stainless steel appliances, master suite with walk-in closet, and beautiful outdoor living space."
    (Agent.mk "Sarah Johnson" "(310) 555-0123" "sarah.johnson@realestate.com")
    ["https://images.unsplash.com/photo-1564013799919-ab600027ffc6?w=800&h=600&fit=crop";
     "https://images.unsplash.com/photo-1570129477492-45c003edd2be?w=800&h=600&fit=crop";
     "https://images.unsplash.com/photo-1568605114967-8130f3a36994?w=800&h=600&fit=crop"].

(** [n.toString()] *)
Definition number_toString (n : number) : string :=
  match n with
  | NaN => "NaN"
  | NegInfinity => "-Infinity"
  | Finite z => pretty z
  | Infinity => "Infinity"
  end.

(** [s.startsWith(sub)] *)
Fixpoint starts_with (sub s : string) : bool :=
  match sub with
  | EmptyString => true
  | String a sub' =>
      match s with
      | EmptyString => false
      | String b s' => Ascii.eqb a b && starts_with sub' s'
      end
  end.

(** [s.includes(sub)] *)
Fixpoint includes (sub s : string) : bool :=
  starts_with sub s
  || match s with
     | EmptyString => false
     | String _ s' => includes sub s'
     end.

(** [s.substring(n)] *)
Fixpoint string_drop (n : nat) (s : string) : string :=
  match n, s with
  | O, _ => s
  | S n', String _ s' => string_drop n' s'
  | S _, EmptyString => EmptyString
  end.

(** [s.substring(0, n)] *)
Fixpoint string_take (n : nat) (s : string) : string :=
  match n, s with
  | S n', String c s' => String c (string_take n' s')
  | _, _ => EmptyString
  end.

(** *** The regular expressions the engine builds *)

(** The patterns of the source are sequences of one-character atoms. *)
Inductive atom : Type :=
| Literal (c : ascii)
| AnyChar.

(** [new RegExp(source)] for a source in which [.] is the only character
    with a syntactic meaning, as in each placeholder of [replacements]:
    without the [u] flag the braces stand for themselves. *)
Fixpoint RegExp (source : string) : list atom :=
  match source with
  | EmptyString => []
  | String c rest =>
      (if Ascii.eqb c "." then AnyChar else Literal c) :: RegExp rest
  end.

(** [.] matches every character but a line terminator. *)
Definition atom_matches (a : atom) (c : ascii) : bool :=
  match a with
  | Literal c' => Ascii.eqb c' c
  | AnyChar => negb (Ascii.eqb c "010" || Ascii.eqb c "013")
  end.

(** Does the pattern match at the start of [s]? *)
Fixpoint matches_at (pattern : list atom) (s : string) : bool :=
  match pattern, s with
  | [], _ => true
  | a :: pattern', String c s' => atom_matches a c && matches_at pattern' s'
  | _ :: _, EmptyString => false
  end.

(** The replacement text of one match (GetSubstitution for a pattern with no
    capture group): [$$] is a dollar sign, [$&] the match, [$`] what
    precedes it, [$'] what follows it; everything else stands for itself. *)
Fixpoint substitution (replacement matched before after : string) : string :=
  match replacement with
  | EmptyString => EmptyString
  | String c rest =>
      if Ascii.eqb c "$" then
        match rest with
        | EmptyString => String c EmptyString
        | String d rest' =>
            if Ascii.eqb d "$" then
              String "$" (substitution rest' matched before after)
            else if Ascii.eqb d "&" then
              matched +:+ substitution rest' matched before after
            else if Ascii.eqb d "`" then
              before +:+ substitution rest' matched before after
            else if Ascii.eqb d "'" then
              after +:+ substitution rest' matched before after
            else String c (substitution rest matched before after)
        end
      else String c (substitution rest matched before after)
  end.

(** [s.replace(new RegExp(source, "g"), replacement)] for a non-empty
    pattern: matches are sought from left to right and do not overlap.
    [skip] counts the characters of the last match still to be passed over
    and [before] is the part of the subject already passed. *)
Fixpoint replace_from (pattern : list atom) (replacement : string)
    (skip : nat) (before s : string) : string :=
  match s with
  | EmptyString => EmptyString
  | String c s' =>
      match skip with
      | S skip' =>
          replace_from pattern replacement skip' (before +:+ String c "") s'
      | O =>
          if matches_at pattern s then
            let n := length pattern in
            substitution replacement (string_take n s) before (string_drop n s)
            +:+ replace_from pattern replacement (Nat.pred n)
                             (before +:+ String c "") s'
          else
            String c (replace_from pattern replacement O
                                   (before +:+ String c "") s')
      end
  end.

Definition replace_all (pattern : list atom) (replacement s : string) : string :=
  replace_from pattern replacement O "" s.

(** [\d] *)
Definition is_digit (c : ascii) : bool :=
  (48 <=? nat_of_ascii c)%nat && (nat_of_ascii c <=? 57)%nat.

(** The longest run of digits at the start of [s]. *)
Fixpoint leading_digits (s : string) : string :=
  match s with
  | String c s' => if is_digit c then String c (leading_digits s') else EmptyString
  | EmptyString => EmptyString
  end.

(** [/{{images\[(\d+)\]}}/] at the start of [s]: the captured digits. *)
Definition image_match_at (s : string) : option string :=
  if starts_with "{{images[" s then
    let rest := string_drop 9 s in
    let digits := leading_digits rest in
    if negb (String.eqb digits "")
       && starts_with "]}}" (string_drop (String.length digits) rest)
    then Some digits
    else None
  else None.

(** [s.match(/{{images\[(\d+)\]}}/)]: the group captured by the leftmost
    match. *)
Fixpoint image_match (s : string) : option string :=
  match image_match_at s with
  | Some digits => Some digits
  | None =>
      match s with
      | EmptyString => None
      | String _ s' => image_match s'
      end
  end.

(** [parseInt(digits)] on a string of decimal digits. *)
Definition parseInt (digits : string) : nat :=
  foldl (λ acc c, (10 * acc + (nat_of_ascii c - 48))%nat) O
        (list_ascii_of_string digits).

Section Template.
(** [Number.prototype.toLocaleString] in the locale of the runtime. *)
Variable toLocaleString : number → string.

Definition replacements (data : RealEstateData.t) : list (string * string) :=
  [("{{address}}", RealEstateData.address data);
   ("{{price}}", RealEstateData.price data);
   ("{{bedrooms}}", number_toString (RealEstateData.bedrooms data));
   ("{{bathrooms}}", number_toString (RealEstateData.bathrooms data));
   ("{{sqft}}", toLocaleString (RealEstateData.sqft data));
   ("{{yearBuilt}}", number_toString (RealEstateData.yearBuilt data));
   ("{{propertyType}}", RealEstateData.propertyType data);
   ("{{description}}", RealEstateData.description data);
   ("{{agent.name}}", Agent.name (RealEstateData.agent data));
   ("{{agent.phone}}", Agent.phone (RealEstateData.agent data));
   ("{{agent.email}}", Agent.email (RealEstateData.agent data))].

(** The image branch of the element callback. *)
Definition populate_image (data : RealEstateData.t) (content : string) : string :=
  match image_match content with
  | Some digits =>
      let imageIndex := parseInt digits in
      match RealEstateData.images data !! imageIndex with
      | Some url => if negb (String.eqb url "") then url else content
      | None => content
      end
  | None => content
  end.

(** The text branch: [Object.entries(replacements).forEach(...)]. *)
Definition populate_text (data : RealEstateData.t) (content : string) : string :=
  foldl (λ populatedContent '(placeholder, value),
           replace_all (RegExp placeholder) value populatedContent)
        content (replacements data).

Definition populate_element (data : RealEstateData.t)
    (element : SlideElement.t) : SlideElement.t :=
  match SlideElement.content element with
  | None => element
  | Some content =>
      if String.eqb content "" then element
      else
        let populatedContent :=
          if bool_decide (SlideElement.type element = image)
             && includes "{{images[" content
          then populate_image data content
          else populate_text data content in
        SlideElement.with_content element (Some populatedContent)
  end.

Definition populateTemplate (slide : Slide.t) (data : RealEstateData.t)
  : Slide.t :=
  let populatedElements := map (populate_element data) (Slide.elements slide) in
  Slide.with_elements slide populatedElements.
End Template.

(** ** The load effect of the store ([src/hooks/useSlideStore.tsx]) *)

(** The effect that runs once on mount.  The loaded array is read at the
    declared type; the result is [None] when an entry that passed
    [isValidSlide] is not a [Slide] by its declared type. *)
Definition loadOnMount (st : State) : M (option State) :=
  savedSlides ← loadPresentation;
  match savedSlides with
  | Some (first :: rest) =>
      match mapM Slide.of_value (first :: rest) with
      | Some typed =>
          mret (Some (mkState typed (Slide.id <$> head typed)
                              (selectedElementId st) true))
      | None => mret None
      end
  | _ =>
      mret (Some (mkState (slides st) (currentSlideId st)
                          (selectedElementId st) true))
  end.

(** ** More of the saved slides ([utils/savedSlidesUtils.ts]) *)

(** [items.some(pred)]; [None] when [pred] throws a TypeError. *)
Fixpoint Array_some (pred : value → option bool) (items : list value)
  : option bool :=
  match items with
  | [] => Some false
  | item :: rest =>
      match pred item with
      | None => None
      | Some true => Some true
      | Some false => Array_some pred rest
      end
  end.

Definition isSlideSaved (slideId : string) : M bool :=
  savedSlides ← getSavedSlides;
  match savedSlides with
  | VArray savedSlides =>
      or_throw TypeError
        (Array_some (λ saved, s ← get saved "slide";
                              i ← get s "id";
                              Some (is_string i slideId))
                    savedSlides)
  | _ => throw TypeError
  end.

(** ** Populating the current slide ([src/App.tsx]) *)

(** [items.forEach(item => f(item))] for an [f] that updates the store. *)
Fixpoint forEach {A} (f : A → State → M State) (items : list A) (st : State)
  : M State :=
  match items with
  | [] => mret st
  | item :: rest => st' ← f item st; forEach f rest st'
  end.

(** [{ content: element.content }] *)
Definition content_update (element : SlideElement.t) : Updates.t :=
  Updates.mk None None None None None None
             (Some (SlideElement.content element)) None None [].

(** [handlePopulateTemplate]: nothing happens without a current slide (an
    empty id is falsy); otherwise every element of the populated slide is
    written back through [updateElement]. *)
Definition handlePopulateTemplate (toLocaleString : number → string)
    (st : State) : M State :=
  match currentSlideId st with
  | None => mret st
  | Some currentSlideId =>
      if String.eqb currentSlideId "" then mret st
      else
        match List.find (λ slide, String.eqb (Slide.id slide) currentSlideId)
                        (slides st) with
        | None => mret st
        | Some currentSlide =>
            let populatedSlide :=
              populateTemplate toLocaleString currentSlide mockRealEstateData in
            forEach (λ element,
                       updateElement currentSlideId (SlideElement.id element)
                                     (content_update element))
                    (Slide.elements populatedSlide) st
        end
  end.

(** ** Grid snapping ([utils/gridUtils.ts]) *)

(** [a * b] *)
Definition number_mul (a b : number) : number :=
  match a, b with
  | NaN, _ | _, NaN => NaN
  | Finite x, Finite y => round_to_double (x * y)
  | Finite x, Infinity | Infinity, Finite x =>
      if x =? 0 then NaN else if 0 <? x then Infinity else NegInfinity
  | Finite x, NegInfinity | NegInfinity, Finite x =>
      if x =? 0 then NaN else if 0 <? x then NegInfinity else Infinity
  | Infinity, Infinity | NegInfinity, NegInfinity => Infinity
  | Infinity, NegInfinity | NegInfinity, Infinity => NegInfinity
  end.

(** The exponent of the quotient of two positive integers: the [e] with
    [2^e ≤ a / b < 2^(e+1)]. *)
Definition quotient_exponent (a b : Z) : Z :=
  let e := Z.log2 a - Z.log2 b in
  if (if 0 <=? e then a <? b * 2 ^ e else a * 2 ^ (- e) <? b)
  then e - 1
  else e.

(** [Math.round(a / b)].  The quotient of two doubles is the double nearest
    to the exact quotient [q]: with [e] the exponent of [q] and [t = 52 - e],
    it is [n / 2^t] for the integer [n] nearest to [q * 2^t], a tie going to
    the even one.  [Math.round] gives the integer nearest to that double, a
    half going up: the floor of [n / 2^t + 1/2].  (Where the quotient is
    below the normal range a double has fewer bits; it rounds to 0 either
    way.)  Dividing by zero gives an infinity, or [NaN] for [0 / 0]. *)
Definition Math_round_quotient (a b : number) : number :=
  match a, b with
  | NaN, _ | _, NaN => NaN
  | Finite x, Finite y =>
      if y =? 0 then
        if x =? 0 then NaN else if 0 <? x then Infinity else NegInfinity
      else if x =? 0 then Finite 0
      else
        let t := 52 - quotient_exponent (Z.abs x) (Z.abs y) in
        let n :=
          if 0 <=? t
          then round_half_even (Z.sgn y * x * 2 ^ t) (Z.abs y)
          else round_half_even (Z.sgn y * x) (Z.abs y * 2 ^ (- t)) in
        Finite (if 0 <? t then (n + 2 ^ (t - 1)) / 2 ^ t else n * 2 ^ (- t))
  | Finite _, Infinity | Finite _, NegInfinity => Finite 0
  | Infinity, Finite y => if 0 <=? y then Infinity else NegInfinity
  | NegInfinity, Finite y => if 0 <=? y then NegInfinity else Infinity
  | _, _ => NaN
  end.

Definition snapToGrid (position gridSize : number) : number :=
  number_mul (Math_round_quotient position gridSize) gridSize.

Definition snapPositionToGrid (x y gridSize : number) : number * number :=
  (snapToGrid x gridSize, snapToGrid y gridSize).

(** ** The paint order ([src/components/slides/Canvas.tsx]) *)

(** One step of a stable sort: [x] goes before the first element that the
    comparator puts after it. *)
Fixpoint sort_insert {A} (compare : A → A → number) (x : A) (sorted : list A)
  : list A :=
  match sorted with
  | [] => [x]
  | y :: rest =>
      if number_gtb (compare y x) (Finite 0) then x :: y :: rest
      else y :: sort_insert compare x rest
  end.

(** [[...items].sort(compare)]: the sort is stable, and for a comparator
    that orders the items consistently its result is the one computed here
    by insertion, item after item. *)
Definition Array_sort {A} (compare : A → A → number) (items : list A) : list A :=
  foldl (λ sorted x, sort_insert compare x sorted) [] items.

(** [(a, b) => (a.zIndex || 0) - (b.zIndex || 0)] *)
Definition by_zIndex (a b : SlideElement.t) : number :=
  number_sub (zIndex_or_0 a) (zIndex_or_0 b).

Definition sortedElements (slide : Slide.t) : list SlideElement.t :=
  Array_sort by_zIndex (Slide.elements slide).

(** ** Notions of the specification *)

(** A template is given when the argument is not falsy. *)
Definition template_given (template : value) : Prop := truthy template = true.

(** The template has no usable [id]: the property is absent, or falsy. *)
Definition lacks_id (template : value) : Prop :=
  ∀ i, get template "id" = Some i → truthy i = false.

(** The template has no [elements] property holding an array. *)
Definition lacks_elements_array (template : value) : Prop :=
  ∀ items, get template "elements" ≠ Some (VArray items).

(** The [zIndex] of the element is an integer when it has one. *)
Definition integer_zIndex (el : SlideElement.t) : Prop :=
  match SlideElement.zIndex el with
  | Some (Finite _) | None => True
  | Some _ => False
  end.

(** The stacking order of an element, an absent [zIndex] counting as 0. *)
Definition stacking_order (el : SlideElement.t) : number :=
  default (Finite 0) (SlideElement.zIndex el).

(** [bringToFront], [sendToBack] and [bringToFront] again on one element,
    nothing else in between. *)
Definition front_back_front (slideId elementId : string) (st : State) : M State :=
  st1 ← bringToFront slideId elementId st;
  st2 ← sendToBack slideId elementId st1;
  bringToFront slideId elementId st2.

(** The ids of the elements, slide by slide, in sequence order. *)
Definition element_ids (st : State) : list (list string) :=
  map (λ slide, map SlideElement.id (Slide.elements slide)) (slides st).

(** Stripping: the element with nothing but its declared fields. *)
Definition reduced_element (e : SlideElement.t) : SlideElement.t :=
  SlideElement.mk (SlideElement.id e) (SlideElement.type e) (SlideElement.x e)
    (SlideElement.y e) (SlideElement.width e) (SlideElement.height e)
    (SlideElement.content e) (SlideElement.style e) (SlideElement.zIndex e) [].

(** Stripping: the slide with nothing but its declared fields, its elements
    stripped. *)
Definition reduced (s : Slide.t) : Slide.t :=
  Slide.mk (Slide.id s) (map reduced_element (Slide.elements s))
           (Slide.backgroundColor s) [].

(** The properties with a key of the fixed field set. *)
Definition only_declared (declared : list string) (props : list (string * value))
  : list (string * value) :=
  List.filter (λ p, declares declared p.1) props.

(** Saving the slides and then loading the presentation. *)
Definition save_then_load (slides : list Slide.t) : M (option (list value)) :=
  savePresentation slides;; loadPresentation.

(** The value no part of which JSON leaves out or rewrites: it holds no
    [undefined], no number that is not finite and no object with a key that
    repeats. *)
Fixpoint json_clean (v : value) : bool :=
  match v with
  | VUndefined => false
  | VNumber n => is_finite n
  | VArray items => forallb json_clean items
  | VObject props =>
      forallb (λ p, json_clean p.2) props && bool_decide (NoDup (map fst props))
  | _ => true
  end.

(** The member of an object of a document that [JSON.parse] reads under
    [key]: the last one of that name. *)
Definition member (key : string) (members : list (string * json))
  : option json :=
  lookup_prop key (reverse members).





(** The saved-slide list in storage: the stored array, or no entries when
    nothing was stored yet. *)
Definition saved_slides_stored (w : World) (docs : list json) : Prop :=
  localStorage w !! SAVED_SLIDES_KEY = Some (document (JArray docs))
  ∨ (localStorage w !! SAVED_SLIDES_KEY = None ∧ docs = []).

(** A non-empty string of decimal digits. *)
Definition decimal_literal (digits : string) : Prop :=
  digits ≠ "" ∧ Forall (λ c, is_digit c = true) (list_ascii_of_string digits).

(** The character does not occur in the string. *)
Definition without (c : ascii) (s : string) : Prop :=
  Forall (λ c', c' ≠ c) (list_ascii_of_string s).

(** The placeholder [{{images[N]}}] for the literal [digits]. *)
Definition image_placeholder (digits : string) : string :=
  "{{images[" +:+ digits +:+ "]}}".

(** The copy [reidentified] makes of an element when it is the [i]-th
    coming read of the clock and of the random source in [w]. *)
Definition reidentified_at (w : World) (i : nat) (element : SlideElement.t)
  : SlideElement.t :=
  SlideElement.with_id element
    ("element-" +:+ pretty (clock w i) +:+ "-" +:+ entropy w i).

(** The operations the hook returns, as one type. *)
Inductive operation : Type :=
| AddSlide (template : value)
| DeleteSlide (slideId : string)
| DuplicateSlide (slideId : string)
| ReorderSlides (dragIndex hoverIndex : nat)
| SetCurrentSlide (slideId : string)
| AddElement (slideId : string) (element : SlideElement.t)
| UpdateElement (slideId elementId : string) (updates : Updates.t)
| DeleteElement (slideId elementId : string)
| SetSelectedElement (elementId : option string)
| BringToFront (slideId elementId : string)
| SendToBack (slideId elementId : string).

(** Lifts an operation that always has a next state. *)
Definition always (c : M State) : M (option State) := st' ← c; mret (Some st').

Definition perform (op : operation) (st : State) : M (option State) :=
  match op with
  | AddSlide template => addSlide template st
  | DeleteSlide slideId => always (deleteSlide slideId st)
  | DuplicateSlide slideId => always (duplicateSlide slideId st)
  | ReorderSlides dragIndex hoverIndex => reorderSlides dragIndex hoverIndex st
  | SetCurrentSlide slideId => always (setCurrentSlide slideId st)
  | AddElement slideId element => always (addElement slideId element st)
  | UpdateElement slideId elementId updates =>
      always (updateElement slideId elementId updates st)
  | DeleteElement slideId elementId =>
      always (deleteElement slideId elementId st)
  | SetSelectedElement elementId => always (setSelectedElement elementId st)
  | BringToFront slideId elementId => always (bringToFront slideId elementId st)
  | SendToBack slideId elementId => always (sendToBack slideId elementId st)
  end.

(** What [savePresentation] stores for a slide sequence. *)
Definition persisted (slides : list Slide.t) : stored :=
  stored_of_stringified
    (JSON_stringify
       (VArray (map Slide.to_value (sanitizeSlidesForStorage slides)))).

(** The stored presentation is the one of the state. *)
Definition presentation_saved (st : State) (w : World) : Prop :=
  localStorage w !! PRESENTATION_STORAGE_KEY = Some (persisted (slides st)).

(** A stored entry that is an object with a string [id] and an array
    [elements]. *)
Definition slide_entry (entry : json) : Prop :=
  ∃ members i items,
    entry = JObject members
    ∧ member "id" members = Some (JString i)
    ∧ member "elements" members = Some (JArray items).


(** The id of the slide inside an entry of the stored saved-slide list. *)
Definition saved_slide_id (entry : json) : option string :=
  match entry with
  | JObject members =>
      match member "slide" members with
      | Some (JObject slide) =>
          match member "id" slide with
          | Some (JString i) => Some i
          | _ => None
          end
      | _ => None
      end
  | _ => None
  end.

(** The element differs from [original] in its id at most. *)
Definition copy_of (original copy : SlideElement.t) : Prop :=
  copy = SlideElement.with_id original (SlideElement.id copy).

(** The stacking order as an integer (0 where it is not one). *)
Definition order_of (el : SlideElement.t) : Z :=
  match stacking_order el with
  | Finite z => z
  | _ => 0
  end.

(** The paint order is ascending in the stacking order. *)
Definition ascending (els : list SlideElement.t) : Prop :=
  StronglySorted (λ a b, order_of a ≤ order_of b) els.


(** A stored entry whose [slide] property can be read and is not [null]:
    what [saved.slide.id] needs in order not to throw. *)
Definition holds_slide (entry : json) : Prop :=
  ∃ members j,
    entry = JObject members
    ∧ member "slide" members = Some j
    ∧ j ≠ JNull.


(** Does the replacement text hold one of the patterns [$$], [$&], [$`],
    [$'] that [replace] expands? *)
Fixpoint dollar_pattern (s : string) : bool :=
  match s with
  | EmptyString => false
  | String c rest =>
      (Ascii.eqb c "$"
       && match rest with
          | String d _ =>
              Ascii.eqb d "$" || Ascii.eqb d "&" || Ascii.eqb d "`"
              || Ascii.eqb d "'"
          | EmptyString => false
          end)
      || dollar_pattern rest
  end.

(** Could the pattern match a string that begins with [s]?  It can unless a
    character of [s] fails its atom. *)
Fixpoint could_match (pattern : list atom) (s : string) : bool :=
  match pattern, s with
  | a :: pattern', String c s' => atom_matches a c && could_match pattern' s'
  | _, _ => true
  end.

(** No match of the pattern can begin inside [s], whatever follows [s]. *)
Fixpoint clear_of (pattern : list atom) (s : string) : bool :=
  match s with
  | EmptyString => true
  | String _ s' => negb (could_match pattern s) && clear_of pattern s'
  end.

(** What [updateElement] makes of a slide when [handlePopulateTemplate]
    writes the content of [element] back. *)
Definition write_back (slideId : string) (element : SlideElement.t)
    (slide : Slide.t) : Slide.t :=
  if decide (Slide.id slide = slideId)
  then Slide.with_elements slide
         (map (λ el, if decide (SlideElement.id el = SlideElement.id element)
                     then Updates.merge el (content_update element)
                     else el)
              (Slide.elements slide))
  else slide.

(** The [zIndex] of the element, when it has one, is an integer from [lo] to
    [hi]; without one the element counts as 0. *)
Definition zIndex_between (lo hi : Z) (el : SlideElement.t) : Prop :=
  match SlideElement.zIndex el with
  | Some (Finite z) => lo ≤ z ≤ hi
  | None => lo ≤ 0 ≤ hi
  | Some _ => False
  end.

(** [Number.MAX_SAFE_INTEGER]: up to it in magnitude, an integer and its
    two neighbours are doubles. *)
Definition MAX_SAFE_INTEGER : Z := 2 ^ 53 - 1.

(** The [zIndex] of the element is a safe integer when it has one. *)
Definition safe_zIndex (el : SlideElement.t) : Prop :=
  zIndex_between (- MAX_SAFE_INTEGER) MAX_SAFE_INTEGER el.

(** * Properties *)

(** ** Running the environment monad *)

Lemma savePresentation_run slides w :
  savePresentation slides w =
    (Returned (),
     mkWorld (<[PRESENTATION_STORAGE_KEY :=
                  document (JArray (map (λ v, default JNull (JSON_stringify v))
                                        (map Slide.to_value
                                             (sanitizeSlidesForStorage slides))))]>
                (localStorage w))
             (clock w) (entropy w)).
Proof. reflexivity. Qed.

(** Auto-save returns normally and touches nothing but the storage. *)
Lemma autoSave_run loaded newSlides w :
  ∃ w', autoSave loaded newSlides w = (Returned (), w')
        ∧ clock w' = clock w ∧ entropy w' = entropy w.
Proof.
  destruct loaded; simpl.
  - unfold try_catch. rewrite savePresentation_run. eauto.
  - exists w. auto.
Qed.

Lemma autoSave_fst loaded newSlides w :
  (autoSave loaded newSlides w).1 = Returned ().
Proof. destruct (autoSave_run loaded newSlides w) as (w' & -> & _). done. Qed.

(** [c ;; mret a] after an auto-save returns [a]. *)
Lemma after_autoSave {A} loaded newSlides (a : A) w :
  ((autoSave loaded newSlides;; mret a) w).1 = Returned a.
Proof.
  unfold mbind, M_bind.
  destruct (autoSave_run loaded newSlides w) as (w' & -> & _). done.
Qed.

Lemma emptySlide_run w :
  emptySlide w =
    (Returned (Slide.mk ("slide-" +:+ pretty (clock w 0%nat)) [] (Some "#ffffff") []),
     mkWorld (localStorage w) (λ n, clock w (S n)) (entropy w)).
Proof. reflexivity. Qed.

(** ** Deleting a slide *)

Lemma deleteSlide_last slideId st w :
  filter (λ slide, Slide.id slide ≠ slideId) (slides st) = [] →
  (deleteSlide slideId st w).1 =
    Returned (mkState
                [Slide.mk ("slide-" +:+ pretty (clock w 0%nat)) [] (Some "#ffffff") []]
                (Some ("slide-" +:+ pretty (clock w 0%nat))) None (isLoaded st)).
Proof.
  intros Hnone. unfold deleteSlide. rewrite Hnone.
  unfold mbind at 1, M_bind at 1. rewrite emptySlide_run.
  apply after_autoSave.
Qed.

Lemma deleteSlide_others slideId st w first rest :
  filter (λ slide, Slide.id slide ≠ slideId) (slides st) = first :: rest →
  (deleteSlide slideId st w).1 =
    Returned (mkState (first :: rest)
                (if decide (Some slideId = currentSlideId st)
                 then Some (Slide.id first) else currentSlideId st)
                None (isLoaded st)).
Proof.
  intros Hsome. unfold deleteSlide. rewrite Hsome. apply after_autoSave.
Qed.

(** C1. Whatever the slide sequence and the id, [deleteSlide] returns a state
    whose slide sequence is not empty; and deleting the only slide of a
    presentation leaves exactly one slide, the freshly made empty one (its id
    generated from the clock, no elements, white background), which is the
    selected slide. *)
Theorem deleteSlide_never_empty (slideId : string) (st : State) (w : World) :
  (∃ st', (deleteSlide slideId st w).1 = Returned st' ∧ slides st' ≠ [])
  ∧ ∀ (es : list SlideElement.t) (bg : option string)
      (extra : list (string * value)) (cur sel : option string) (loaded : bool),
      let fresh :=
        Slide.mk ("slide-" +:+ pretty (clock w 0%nat)) [] (Some "#ffffff") [] in
      (deleteSlide slideId
         (mkState [Slide.mk slideId es bg extra] cur sel loaded) w).1
      = Returned (mkState [fresh] (Some (Slide.id fresh)) None loaded).
Proof.
  split.
  - destruct (filter (λ slide, Slide.id slide ≠ slideId) (slides st))
      as [|first rest] eqn:Hf.
    + eexists. split; [by apply deleteSlide_last|]. done.
    + eexists. split; [by eapply deleteSlide_others|]. done.
  - intros. apply deleteSlide_last. simpl.
    rewrite filter_cons_False; [done|]. simpl. tauto.
Qed.

(** C9. When the sequence holds the slide with the given id and a slide
    with another id, [deleteSlide] keeps exactly the slides with another id
    (in their order, so the sequence gets shorter and no slide with the id is
    left); the selected slide becomes the first slide of the result when the
    deleted id was the selected one and stays as it was otherwise; and no
    element is selected. *)
Theorem deleteSlide_selection (slideId : string) (st : State) (w : World)
    (deleted other : Slide.t) :
  deleted ∈ slides st → Slide.id deleted = slideId →
  other ∈ slides st → Slide.id other ≠ slideId →
  ∃ st' : State,
    (deleteSlide slideId st w).1 = Returned st'
    ∧ slides st' = filter (λ slide, Slide.id slide ≠ slideId) (slides st)
    ∧ (length (slides st') < length (slides st))%nat
    ∧ (slideId ∉ map Slide.id (slides st'))
    ∧ (currentSlideId st = Some slideId →
       currentSlideId st' = Slide.id <$> head (slides st'))
    ∧ (currentSlideId st ≠ Some slideId →
       currentSlideId st' = currentSlideId st)
    ∧ selectedElementId st' = None.
Proof.
  intros Hdel Hid Hother Hne.
  assert (Hlen : (length (filter (λ slide, Slide.id slide ≠ slideId) (slides st))
                  < length (slides st))%nat).
  { clear Hother. revert Hdel. generalize (slides st) as l.
    induction l as [|a l IH]; intros Hin.
    - by apply elem_of_nil in Hin.
    - apply elem_of_cons in Hin as [<-|Hin].
      + rewrite filter_cons_False by (simpl; tauto).
        pose proof (length_filter (λ slide, Slide.id slide ≠ slideId) l).
        simpl. lia.
      + specialize (IH Hin). destruct (decide (Slide.id a ≠ slideId)).
        * rewrite filter_cons_True by done. simpl. lia.
        * rewrite filter_cons_False by done. simpl. lia. }
  assert (Hgone : slideId ∉ map Slide.id
                    (filter (λ slide, Slide.id slide ≠ slideId) (slides st))).
  { intros Hin. apply list_elem_of_fmap in Hin as (s & Hs & Hin).
    apply list_elem_of_filter in Hin as [Hin _]. simpl in Hin. congruence. }
  assert (Hkept : other ∈ filter (λ slide, Slide.id slide ≠ slideId) (slides st))
    by (apply list_elem_of_filter; done).
  destruct (filter (λ slide, Slide.id slide ≠ slideId) (slides st))
    as [|first rest] eqn:Hf.
  { by apply elem_of_nil in Hkept. }
  eexists. split; [by eapply deleteSlide_others|].
  split; [done|]. split; [done|]. split; [done|].
  split; [|split; [|done]]; simpl.
  - intros ->. by rewrite decide_True.
  - intros Hcur. rewrite decide_False; [done|]. congruence.
Qed.

Lemma deleteSlide_selection_witness :
  let a := Slide.mk "a" [] None [] in
  let b := Slide.mk "b" [] None [] in
  let st := mkState [a; b] (Some "a") (Some "e") true in
  let w := mkWorld ∅ (λ _, 7) (λ _, "0.5") in
  ∃ st',
    (deleteSlide "a" st w).1 = Returned st'
    ∧ slides st' = filter (λ slide, Slide.id slide ≠ "a") (slides st)
    ∧ (length (slides st') < length (slides st))%nat
    ∧ ("a" ∉ map Slide.id (slides st'))
    ∧ (currentSlideId st = Some "a" →
       currentSlideId st' = Slide.id <$> head (slides st'))
    ∧ (currentSlideId st ≠ Some "a" →
       currentSlideId st' = currentSlideId st)
    ∧ selectedElementId st' = None.
Proof.
  intros a b st w.
  apply (deleteSlide_selection "a" st w a b).
  - apply list_elem_of_here.
  - reflexivity.
  - apply list_elem_of_further, list_elem_of_here.
  - simpl. discriminate.
Defined.

(** ** Adding a slide *)

(** C5. When a template is given (the argument is not falsy) and it lacks an
    [id] or lacks an [elements] array, [addSlide] returns with the state as
    it was (slides, selected slide and selected element) and with the
    environment untouched: nothing is saved and no id is generated. *)
Theorem addSlide_rejects_invalid (template : value) (st : State) (w : World) :
  template_given template →
  lacks_id template ∨ lacks_elements_array template →
  addSlide template st w = (Returned (Some st), w).
Proof.
  unfold template_given, lacks_id, lacks_elements_array.
  intros Hgiven Hlacks. unfold addSlide.
  assert (invalid_template template = true) as ->; [|done].
  unfold invalid_template. rewrite Hgiven. simpl.
  destruct (String.eqb (typeof template) "object") eqn:Hobj; [simpl|done].
  destruct template as [| |b|n|s|items|props]; try done; simpl.
  destruct Hlacks as [Hid|Hes].
  - by rewrite (Hid _ eq_refl).
  - apply orb_true_iff. right.
    destruct (default VUndefined (lookup_prop "elements" props)) as
      [| |b|n|s|items|props'] eqn:Hd; try done.
    exfalso. apply (Hes items). simpl. by rewrite Hd.
Qed.

Lemma addSlide_rejects_invalid_witness :
  let event := VObject [("type", VString "click")] in
  let st := initialState in
  let w := mkWorld ∅ (λ _, 7) (λ _, "0.5") in
  addSlide event st w = (Returned (Some st), w).
Proof.
  intros event st w.
  apply (addSlide_rejects_invalid event st w).
  - reflexivity.
  - left. intros i Hi. simpl in Hi. injection Hi as <-. reflexivity.
Defined.

(** A falsy argument is no template: an empty slide is appended. *)
Lemma addSlide_without_template template st w :
  truthy template = false →
  (addSlide template st w).1 =
    Returned (Some (mkState
      (List.filter (λ slide, slide_shaped (Slide.to_value slide)) (slides st)
       ++ [Slide.mk ("slide-" +:+ pretty (clock w 0%nat)) [] (Some "#ffffff") []])
      (Some ("slide-" +:+ pretty (clock w 0%nat))) None (isLoaded st))).
Proof.
  intros Hfalsy. unfold addSlide, invalid_template. rewrite Hfalsy. simpl.
  unfold mbind at 1, M_bind at 1. unfold mbind at 1, M_bind at 1.
  rewrite emptySlide_run. unfold mret at 1, M_ret at 1.
  apply (after_autoSave (isLoaded st)).
Qed.

(** ** Stacking order *)

Lemma Math_max_finite (l : list number) :
  l ≠ [] → Forall (λ n, is_finite n = true) l →
  ∃ m, Math_max l = Finite m ∧ Forall (λ n, ∃ z, n = Finite z ∧ z ≤ m) l.
Proof.
  induction l as [|a l IH]; [done|]. intros _ Hfin.
  apply Forall_cons in Hfin as [Ha Hfin].
  destruct a as [| |x|]; try done.
  destruct l as [|b l].
  - exists x. split; [done|]. constructor; [|constructor]. exists x. split; [done|lia].
  - destruct (IH ltac:(done) Hfin) as (m & Hm & Hall).
    change (Math_max (Finite x :: b :: l))
      with (number_max (Finite x) (Math_max (b :: l))).
    rewrite Hm. simpl. destruct (Z.ltb_spec x m).
    + exists m. split; [done|]. constructor; [exists x; split; [done|lia]|done].
    + exists x. split; [done|]. constructor; [exists x; split; [done|lia]|].
      eapply Forall_impl; [exact Hall|]. intros n (z & -> & Hz).
      exists z. split; [done|lia].
Qed.

Lemma Math_min_finite (l : list number) :
  l ≠ [] → Forall (λ n, is_finite n = true) l →
  ∃ m, Math_min l = Finite m ∧ Forall (λ n, ∃ z, n = Finite z ∧ m ≤ z) l.
Proof.
  induction l as [|a l IH]; [done|]. intros _ Hfin.
  apply Forall_cons in Hfin as [Ha Hfin].
  destruct a as [| |x|]; try done.
  destruct l as [|b l].
  - exists x. split; [done|]. constructor; [|constructor]. exists x. split; [done|lia].
  - destruct (IH ltac:(done) Hfin) as (m & Hm & Hall).
    change (Math_min (Finite x :: b :: l))
      with (number_min (Finite x) (Math_min (b :: l))).
    rewrite Hm. simpl. destruct (Z.ltb_spec m x).
    + exists m. split; [done|]. constructor; [exists x; split; [done|lia]|done].
    + exists x. split; [done|]. constructor; [exists x; split; [done|lia]|].
      eapply Forall_impl; [exact Hall|]. intros n (z & -> & Hz).
      exists z. split; [done|lia].
Qed.

(** On an integer [zIndex], [el.zIndex || 0] is the stacking order. *)
Lemma zIndex_or_0_integer el :
  integer_zIndex el →
  ∃ z, zIndex_or_0 el = Finite z ∧ stacking_order el = Finite z.
Proof.
  unfold integer_zIndex, zIndex_or_0, stacking_order.
  destruct (SlideElement.zIndex el) as [[| |z|]|]; try done; intros _.
  - destruct z; simpl; eauto.
  - simpl. eauto.
Qed.

Lemma zIndex_or_0_all_finite (es : list SlideElement.t) :
  Forall integer_zIndex es →
  Forall (λ n, is_finite n = true) (map zIndex_or_0 es).
Proof.
  intros Hall. apply Forall_fmap. eapply Forall_impl; [exact Hall|].
  intros el Hel. simpl. by destruct (zIndex_or_0_integer el Hel) as (z & -> & _).
Qed.

Lemma bringToFront_slide_id slideId elementId slide :
  Slide.id (bringToFront_slide slideId elementId slide) = Slide.id slide.
Proof. unfold bringToFront_slide. by case_decide. Qed.

Lemma sendToBack_slide_id slideId elementId slide :
  Slide.id (sendToBack_slide slideId elementId slide) = Slide.id slide.
Proof. unfold sendToBack_slide. by case_decide. Qed.

(** *** Arithmetic on doubles *)

Lemma round_to_double_exact (z : Z) :
  - 2 ^ 53 ≤ z ≤ 2 ^ 53 → round_to_double z = Finite z.
Proof.
  intros Hz. unfold round_to_double.
  destruct (Z.ltb_spec (Z.abs z) (2 ^ 53)) as [|Hbig]; [done|].
  assert (z = 2 ^ 53 ∨ z = - 2 ^ 53) as [-> | ->] by lia; by vm_compute.
Qed.

Lemma round_half_even_floor (num den : Z) :
  num / den ≤ round_half_even num den.
Proof.
  unfold round_half_even.
  destruct (2 * (num mod den) <? den); [lia|].
  destruct (den <? 2 * (num mod den)); [lia|].
  destruct (Z.even (num / den)); lia.
Qed.

(** Above 2^53 the rounded magnitude is still positive. *)
Lemma rounded_magnitude_positive (a : Z) :
  2 ^ 53 ≤ a →
  0 < round_half_even a (2 ^ (Z.log2 a - 52)) * 2 ^ (Z.log2 a - 52).
Proof.
  intros Ha.
  assert (53 ≤ Z.log2 a) as Hlog.
  { change 53 with (Z.log2 (2 ^ 53)). by apply Z.log2_le_mono. }
  assert (0 < 2 ^ (Z.log2 a - 52)) as Hunit by (apply Z.pow_pos_nonneg; lia).
  assert (2 ^ (Z.log2 a - 52) ≤ a) as Hle.
  { transitivity (2 ^ Z.log2 a).
    - apply Z.pow_le_mono_r; lia.
    - apply Z.log2_spec. lia. }
  pose proof (round_half_even_floor a (2 ^ (Z.log2 a - 52))) as Hfloor.
  assert (1 ≤ a / 2 ^ (Z.log2 a - 52)) as Hq.
  { apply Z.div_le_lower_bound; lia. }
  nia.
Qed.

(** Rounding keeps the sign. *)
Lemma round_to_double_sign (z : Z) :
  number_ltb (Finite 0) (round_to_double z) = (0 <? z).
Proof.
  unfold round_to_double.
  destruct (Z.ltb_spec (Z.abs z) (2 ^ 53)) as [|Hbig]; [done|].
  pose proof (rounded_magnitude_positive (Z.abs z) Hbig) as Hm.
  destruct (2 ^ 1024 <=?
            round_half_even (Z.abs z) (2 ^ (Z.log2 (Z.abs z) - 52))
            * 2 ^ (Z.log2 (Z.abs z) - 52)).
  - by destruct (0 <? z).
  - cbn [number_ltb].
    destruct (Z.ltb_spec 0 z), (Z.ltb_spec 0
      (Z.sgn z * (round_half_even (Z.abs z) (2 ^ (Z.log2 (Z.abs z) - 52))
                  * 2 ^ (Z.log2 (Z.abs z) - 52)))); (done || nia).
Qed.

(** *** Elements within a range *)

Lemma between_order (lo hi : Z) (el : SlideElement.t) :
  zIndex_between lo hi el →
  zIndex_or_0 el = Finite (order_of el)
  ∧ stacking_order el = Finite (order_of el)
  ∧ lo ≤ order_of el ≤ hi.
Proof.
  unfold zIndex_between, zIndex_or_0, order_of, stacking_order.
  destruct (SlideElement.zIndex el) as [[| |z|]|]; try done.
  by destruct z.
Qed.

Lemma between_integer (lo hi : Z) (el : SlideElement.t) :
  zIndex_between lo hi el → integer_zIndex el.
Proof.
  unfold zIndex_between, integer_zIndex.
  by destruct (SlideElement.zIndex el) as [[| |z|]|].
Qed.

Lemma between_weaken (lo hi lo' hi' : Z) (el : SlideElement.t) :
  lo' ≤ lo → hi ≤ hi' → zIndex_between lo hi el → zIndex_between lo' hi' el.
Proof.
  unfold zIndex_between.
  destruct (SlideElement.zIndex el) as [[| |z|]|]; try done; lia.
Qed.

Lemma Math_max_between (lo hi : Z) (es : list SlideElement.t) :
  es ≠ [] → Forall (zIndex_between lo hi) es →
  ∃ m, Math_max (map zIndex_or_0 es) = Finite m
       ∧ lo ≤ m ≤ hi
       ∧ Forall (λ el, order_of el ≤ m) es.
Proof.
  induction es as [|e es IH]; [done|]. intros _ Hall.
  apply Forall_cons in Hall as [He Hall].
  destruct (between_order lo hi e He) as (Hz & _ & Hb).
  destruct es as [|e' es].
  - exists (order_of e). cbn [map Math_max foldr]. rewrite Hz.
    split; [done|]. split; [done|]. by repeat constructor.
  - destruct (IH ltac:(done) Hall) as (m & Hm & Hbm & Hle).
    change (Math_max (map zIndex_or_0 (e :: e' :: es)))
      with (number_max (zIndex_or_0 e) (Math_max (map zIndex_or_0 (e' :: es)))).
    rewrite Hm, Hz. cbn [number_max number_ltb].
    destruct (Z.ltb_spec (order_of e) m).
    + exists m. split; [done|]. split; [done|]. constructor; [lia|done].
    + exists (order_of e). split; [done|]. split; [done|].
      constructor; [lia|]. eapply Forall_impl; [exact Hle|].
      intros el Hel. simpl in Hel. lia.
Qed.

Lemma Math_min_between (lo hi : Z) (es : list SlideElement.t) :
  es ≠ [] → Forall (zIndex_between lo hi) es →
  ∃ m, Math_min (map zIndex_or_0 es) = Finite m
       ∧ lo ≤ m ≤ hi
       ∧ Forall (λ el, m ≤ order_of el) es.
Proof.
  induction es as [|e es IH]; [done|]. intros _ Hall.
  apply Forall_cons in Hall as [He Hall].
  destruct (between_order lo hi e He) as (Hz & _ & Hb).
  destruct es as [|e' es].
  - exists (order_of e). cbn [map Math_min foldr]. rewrite Hz.
    split; [done|]. split; [done|]. by repeat constructor.
  - destruct (IH ltac:(done) Hall) as (m & Hm & Hbm & Hle).
    change (Math_min (map zIndex_or_0 (e :: e' :: es)))
      with (number_min (zIndex_or_0 e) (Math_min (map zIndex_or_0 (e' :: es)))).
    rewrite Hm, Hz. cbn [number_min number_ltb].
    destruct (Z.ltb_spec m (order_of e)).
    + exists m. split; [done|]. split; [done|]. constructor; [lia|done].
    + exists (order_of e). split; [done|]. split; [done|].
      constructor; [lia|]. eapply Forall_impl; [exact Hle|].
      intros el Hel. simpl in Hel. lia.
Qed.

(** What [bringToFront] makes of the addressed slide when the maximum plus
    one is a double: the elements with the id get that [zIndex], the others
    stay. *)
Lemma bringToFront_slide_raised (lo hi : Z) slideId elementId slide :
  Slide.id slide = slideId →
  lo ≤ hi → - 2 ^ 53 ≤ lo + 1 → hi + 1 ≤ 2 ^ 53 →
  Forall (zIndex_between lo hi) (Slide.elements slide) →
  ∃ m, lo ≤ m ≤ hi
       ∧ Forall (λ el, order_of el ≤ m) (Slide.elements slide)
       ∧ Slide.elements (bringToFront_slide slideId elementId slide)
         = map (λ element,
                  if decide (SlideElement.id element = elementId)
                  then SlideElement.with_zIndex element (Finite (m + 1))
                  else element)
               (Slide.elements slide).
Proof.
  intros Hid Hrange Hlo Hhi Hall. unfold bringToFront_slide.
  rewrite decide_False by (intros Hne; by apply Hne).
  cbn [Slide.with_elements Slide.elements].
  destruct (Slide.elements slide) as [|e es] eqn:Hes.
  { exists lo. split; [lia|]. by split. }
  destruct (Math_max_between lo hi (e :: es) ltac:(done) Hall)
    as (m & -> & Hm & Hle).
  exists m. split; [done|]. split; [done|].
  cbn [number_add]. by rewrite round_to_double_exact by lia.
Qed.

Lemma sendToBack_slide_lowered (lo hi : Z) slideId elementId slide :
  Slide.id slide = slideId →
  lo ≤ hi → - 2 ^ 53 ≤ lo - 1 → hi - 1 ≤ 2 ^ 53 →
  Forall (zIndex_between lo hi) (Slide.elements slide) →
  ∃ m, lo ≤ m ≤ hi
       ∧ Forall (λ el, m ≤ order_of el) (Slide.elements slide)
       ∧ Slide.elements (sendToBack_slide slideId elementId slide)
         = map (λ element,
                  if decide (SlideElement.id element = elementId)
                  then SlideElement.with_zIndex element (Finite (m - 1))
                  else element)
               (Slide.elements slide).
Proof.
  intros Hid Hrange Hlo Hhi Hall. unfold sendToBack_slide.
  rewrite decide_False by (intros Hne; by apply Hne).
  cbn [Slide.with_elements Slide.elements].
  destruct (Slide.elements slide) as [|e es] eqn:Hes.
  { exists lo. split; [lia|]. by split. }
  destruct (Math_min_between lo hi (e :: es) ltac:(done) Hall)
    as (m & -> & Hm & Hle).
  exists m. split; [done|]. split; [done|].
  cbn [number_sub]. by rewrite round_to_double_exact by lia.
Qed.

(** Giving the elements with the id a [zIndex] within the range keeps the
    range and the ids. *)
Lemma restacked_between (lo hi z : Z) elementId (es : list SlideElement.t) :
  lo ≤ z ≤ hi →
  Forall (zIndex_between lo hi) es →
  Forall (zIndex_between lo hi)
         (map (λ element,
                 if decide (SlideElement.id element = elementId)
                 then SlideElement.with_zIndex element (Finite z)
                 else element) es).
Proof.
  intros Hz Hall. apply Forall_fmap. eapply Forall_impl; [exact Hall|].
  intros el Hel. cbn. by case_decide.
Qed.

Lemma restacked_ids (z : number) elementId (es : list SlideElement.t) :
  map SlideElement.id
      (map (λ element,
              if decide (SlideElement.id element = elementId)
              then SlideElement.with_zIndex element z
              else element) es)
  = map SlideElement.id es.
Proof.
  rewrite map_map. apply map_ext. intros el. by case_decide.
Qed.

(** In a restacked slide the elements with the id have the new [zIndex] and
    the others are elements of the old slide. *)
Lemma restacked_elem (z : number) elementId (es : list SlideElement.t)
    (el : SlideElement.t) :
  el ∈ map (λ element,
              if decide (SlideElement.id element = elementId)
              then SlideElement.with_zIndex element z
              else element) es →
  (SlideElement.id el = elementId → SlideElement.zIndex el = Some z)
  ∧ (SlideElement.id el ≠ elementId → el ∈ es).
Proof.
  intros (el0 & -> & Hel0)%list_elem_of_fmap.
  case_decide as Hid; cbn; split; done.
Qed.

Lemma bringToFront_slide_ids slideId elementId slide :
  map SlideElement.id
      (Slide.elements (bringToFront_slide slideId elementId slide))
  = map SlideElement.id (Slide.elements slide).
Proof.
  unfold bringToFront_slide. case_decide; [done|]. apply restacked_ids.
Qed.

Lemma sendToBack_slide_ids slideId elementId slide :
  map SlideElement.id
      (Slide.elements (sendToBack_slide slideId elementId slide))
  = map SlideElement.id (Slide.elements slide).
Proof.
  unfold sendToBack_slide. case_decide; [done|]. apply restacked_ids.
Qed.

(** One [bringToFront] puts the element above every element with another
    id, when the maximum plus one is a double. *)
Lemma bringToFront_slide_on_top (lo hi : Z) slideId elementId slide e other :
  Slide.id slide = slideId →
  lo ≤ hi → - 2 ^ 53 ≤ lo + 1 → hi + 1 ≤ 2 ^ 53 →
  Forall (zIndex_between lo hi) (Slide.elements slide) →
  e ∈ Slide.elements (bringToFront_slide slideId elementId slide) →
  other ∈ Slide.elements (bringToFront_slide slideId elementId slide) →
  SlideElement.id e = elementId →
  SlideElement.id other ≠ elementId →
  ∃ z, SlideElement.zIndex e = Some z
       ∧ number_gtb z (stacking_order other) = true.
Proof.
  intros Hid Hrange Hlo Hhi Hall.
  destruct (bringToFront_slide_raised lo hi slideId elementId slide
              Hid Hrange Hlo Hhi Hall) as (m & Hm & Hle & ->).
  intros [He _]%restacked_elem [_ Ho]%restacked_elem Heid Hoid.
  exists (Finite (m + 1)). split; [by apply He|].
  specialize (Ho Hoid).
  destruct (between_order lo hi other) as (_ & -> & _);
    [by apply (proj1 (Forall_forall _ _) Hall)|].
  apply (proj1 (Forall_forall _ _) Hle) in Ho.
  unfold number_gtb. cbn [number_ltb]. apply Z.ltb_lt. lia.
Qed.

Lemma sendToBack_slide_at_bottom (lo hi : Z) slideId elementId slide e other :
  Slide.id slide = slideId →
  lo ≤ hi → - 2 ^ 53 ≤ lo - 1 → hi - 1 ≤ 2 ^ 53 →
  Forall (zIndex_between lo hi) (Slide.elements slide) →
  e ∈ Slide.elements (sendToBack_slide slideId elementId slide) →
  other ∈ Slide.elements (sendToBack_slide slideId elementId slide) →
  SlideElement.id e = elementId →
  SlideElement.id other ≠ elementId →
  ∃ z, SlideElement.zIndex e = Some z
       ∧ number_ltb z (stacking_order other) = true.
Proof.
  intros Hid Hrange Hlo Hhi Hall.
  destruct (sendToBack_slide_lowered lo hi slideId elementId slide
              Hid Hrange Hlo Hhi Hall) as (m & Hm & Hle & ->).
  intros [He _]%restacked_elem [_ Ho]%restacked_elem Heid Hoid.
  exists (Finite (m - 1)). split; [by apply He|].
  specialize (Ho Hoid).
  destruct (between_order lo hi other) as (_ & -> & _);
    [by apply (proj1 (Forall_forall _ _) Hall)|].
  apply (proj1 (Forall_forall _ _) Hle) in Ho.
  cbn [number_ltb]. apply Z.ltb_lt. lia.
Qed.

(** The ranges along [bringToFront], [sendToBack], [bringToFront]. *)
Lemma bringToFront_slide_between (lo hi : Z) slideId elementId slide :
  Slide.id slide = slideId →
  lo ≤ hi → - 2 ^ 53 ≤ lo + 1 → hi + 1 ≤ 2 ^ 53 →
  Forall (zIndex_between lo hi) (Slide.elements slide) →
  Forall (zIndex_between lo (hi + 1))
         (Slide.elements (bringToFront_slide slideId elementId slide)).
Proof.
  intros Hid Hrange Hlo Hhi Hall.
  destruct (bringToFront_slide_raised lo hi slideId elementId slide
              Hid Hrange Hlo Hhi Hall) as (m & Hm & _ & ->).
  apply restacked_between; [lia|].
  eapply Forall_impl; [exact Hall|]. intros el. apply between_weaken; lia.
Qed.

Lemma sendToBack_slide_between (lo hi : Z) slideId elementId slide :
  Slide.id slide = slideId →
  lo ≤ hi → - 2 ^ 53 ≤ lo - 1 → hi - 1 ≤ 2 ^ 53 →
  Forall (zIndex_between lo hi) (Slide.elements slide) →
  Forall (zIndex_between (lo - 1) hi)
         (Slide.elements (sendToBack_slide slideId elementId slide)).
Proof.
  intros Hid Hrange Hlo Hhi Hall.
  destruct (sendToBack_slide_lowered lo hi slideId elementId slide
              Hid Hrange Hlo Hhi Hall) as (m & Hm & _ & ->).
  apply restacked_between; [lia|].
  eapply Forall_impl; [exact Hall|]. intros el. apply between_weaken; lia.
Qed.

(** After [sendToBack] on a slide whose other elements are safe integers,
    every element is below 2^53: the lowered ones are below the minimum. *)
Lemma sendToBack_slide_below (slideId elementId : string) (slide : Slide.t) :
  Slide.id slide = slideId →
  Forall (zIndex_between (- MAX_SAFE_INTEGER) (MAX_SAFE_INTEGER + 1))
         (Slide.elements slide) →
  Forall (λ el, SlideElement.id el ≠ elementId → safe_zIndex el)
         (Slide.elements slide) →
  Forall (zIndex_between (- MAX_SAFE_INTEGER - 1) MAX_SAFE_INTEGER)
         (Slide.elements (sendToBack_slide slideId elementId slide)).
Proof.
  unfold MAX_SAFE_INTEGER, safe_zIndex.
  intros Hid Hall Hothers.
  destruct (sendToBack_slide_lowered (- (2 ^ 53 - 1)) (2 ^ 53 - 1 + 1)
              slideId elementId slide
              Hid ltac:(lia) ltac:(lia) ltac:(lia) Hall) as (m & Hm & _ & ->).
  apply Forall_fmap, Forall_forall. intros el Hel. cbn.
  case_decide as Hel_id.
  - unfold zIndex_between. cbn. lia.
  - apply (proj1 (Forall_forall _ _) Hothers) in Hel; [|done].
    eapply between_weaken; [| |exact Hel]; unfold MAX_SAFE_INTEGER; lia.
Qed.

Lemma bringToFront_slide_others (slideId elementId : string) (slide : Slide.t) :
  Forall safe_zIndex (Slide.elements slide) →
  Forall (λ el, SlideElement.id el ≠ elementId → safe_zIndex el)
         (Slide.elements (bringToFront_slide slideId elementId slide)).
Proof.
  intros Hall. unfold bringToFront_slide.
  case_decide; [by eapply Forall_impl|].
  cbn [Slide.with_elements Slide.elements].
  apply Forall_fmap. eapply Forall_impl; [exact Hall|].
  intros el Hel. cbn. by case_decide.
Qed.

Lemma bringToFront_run slideId elementId st w :
  ∃ w', bringToFront slideId elementId st w =
          (Returned (mkState (map (bringToFront_slide slideId elementId) (slides st))
                             (currentSlideId st) (selectedElementId st)
                             (isLoaded st)), w').
Proof.
  unfold bringToFront, mbind, M_bind.
  destruct (autoSave_run (isLoaded st)
              (map (bringToFront_slide slideId elementId) (slides st)) w)
    as (w' & -> & _).
  by exists w'.
Qed.

Lemma sendToBack_run slideId elementId st w :
  ∃ w', sendToBack slideId elementId st w =
          (Returned (mkState (map (sendToBack_slide slideId elementId) (slides st))
                             (currentSlideId st) (selectedElementId st)
                             (isLoaded st)), w').
Proof.
  unfold sendToBack, mbind, M_bind.
  destruct (autoSave_run (isLoaded st)
              (map (sendToBack_slide slideId elementId) (slides st)) w)
    as (w' & -> & _).
  by exists w'.
Qed.

(** C7 (as the code has it). On slides whose elements carry safe-integer
    [zIndex] values, [bringToFront], [sendToBack] and [bringToFront] on the
    same element with nothing in between return, every slide keeps its id
    and the ids of its elements in their order, and each element with the
    given id has a [zIndex] strictly greater than the stacking order (absent
    counting as 0) of every element of that slide with another id. *)
Theorem front_back_front_on_top (slideId elementId : string) (st : State)
    (w : World) :
  (∀ slide, slide ∈ slides st → Slide.id slide = slideId →
            Forall safe_zIndex (Slide.elements slide)) →
  ∃ st3 : State,
    (front_back_front slideId elementId st w).1 = Returned st3
    ∧ map Slide.id (slides st3) = map Slide.id (slides st)
    ∧ element_ids st3 = element_ids st
    ∧ ∀ slide e other,
        slide ∈ slides st3 → Slide.id slide = slideId →
        e ∈ Slide.elements slide → other ∈ Slide.elements slide →
        SlideElement.id e = elementId → SlideElement.id other ≠ elementId →
        ∃ z, SlideElement.zIndex e = Some z
             ∧ number_gtb z (stacking_order other) = true.
Proof.
  intros Hsafe. unfold front_back_front, mbind, M_bind.
  destruct (bringToFront_run slideId elementId st w) as (w1 & ->).
  destruct (sendToBack_run slideId elementId
              (mkState (map (bringToFront_slide slideId elementId) (slides st))
                       (currentSlideId st) (selectedElementId st) (isLoaded st)) w1)
    as (w2 & ->).
  match goal with
  | |- context [bringToFront slideId elementId ?s w2] =>
      destruct (bringToFront_run slideId elementId s w2) as (w3 & ->)
  end.
  eexists. split; [done|]. cbn [fst slides]. split; [|split].
  - rewrite !map_map. apply map_ext. intros slide.
    by rewrite bringToFront_slide_id, sendToBack_slide_id, bringToFront_slide_id.
  - unfold element_ids. cbn [slides]. rewrite !map_map. apply map_ext.
    intros slide.
    by rewrite bringToFront_slide_ids, sendToBack_slide_ids,
      bringToFront_slide_ids.
  - intros slide e other Hslide Hid He Ho Heid Hoid.
    apply list_elem_of_fmap in Hslide as (s2 & -> & Hs2).
    apply list_elem_of_fmap in Hs2 as (s1 & -> & Hs1).
    apply list_elem_of_fmap in Hs1 as (s0 & -> & Hs0).
    rewrite bringToFront_slide_id, sendToBack_slide_id, bringToFront_slide_id
      in Hid.
    pose proof (Hsafe s0 Hs0 Hid) as Hs0safe.
    apply (bringToFront_slide_on_top (- MAX_SAFE_INTEGER - 1) MAX_SAFE_INTEGER
             slideId elementId
             (sendToBack_slide slideId elementId
                (bringToFront_slide slideId elementId s0)) e other);
      try done; try (unfold MAX_SAFE_INTEGER; lia).
    + by rewrite sendToBack_slide_id, bringToFront_slide_id.
    + apply sendToBack_slide_below.
      * by rewrite bringToFront_slide_id.
      * apply bringToFront_slide_between; try done;
          unfold MAX_SAFE_INTEGER; lia.
      * by apply bringToFront_slide_others.
Qed.

Lemma front_back_front_on_top_witness :
  let a := SlideElement.mk "a" shape (Finite 0) (Finite 0) (Finite 10) (Finite 10)
             None None (Some (Finite 3)) [] in
  let b := SlideElement.mk "b" shape (Finite 5) (Finite 5) (Finite 10) (Finite 10)
             None None None [] in
  let st := mkState [Slide.mk "s" [a; b] None []] (Some "s") (Some "b") false in
  let w := mkWorld ∅ (λ _, 7) (λ _, "0.5") in
  ∃ st3 : State,
    (front_back_front "s" "b" st w).1 = Returned st3
    ∧ map Slide.id (slides st3) = map Slide.id (slides st)
    ∧ element_ids st3 = element_ids st
    ∧ ∀ slide e other,
        slide ∈ slides st3 → Slide.id slide = "s" →
        e ∈ Slide.elements slide → other ∈ Slide.elements slide →
        SlideElement.id e = "b" → SlideElement.id other ≠ "b" →
        ∃ z, SlideElement.zIndex e = Some z
             ∧ number_gtb z (stacking_order other) = true.
Proof.
  intros a b st w.
  apply (front_back_front_on_top "s" "b" st w).
  intros slide Hin _.
  apply list_elem_of_singleton in Hin as ->.
  repeat constructor; vm_compute; intuition discriminate.
Defined.

(** C7 as stated fails: numbers are doubles, and 2^53 + 1 is 2^53.  Next to
    an element whose [zIndex] is 2^53, the element brought to front, sent
    to back and brought to front again ends at 2^53 too, not strictly
    above. *)
Lemma front_back_front_ties_at_2_53 :
  ¬ (∀ (slideId elementId : string) (st : State) (w : World),
       ∃ st3 : State,
         (front_back_front slideId elementId st w).1 = Returned st3
         ∧ ∀ slide e other,
             slide ∈ slides st3 → Slide.id slide = slideId →
             e ∈ Slide.elements slide → other ∈ Slide.elements slide →
             SlideElement.id e = elementId →
             SlideElement.id other ≠ elementId →
             ∃ z, SlideElement.zIndex e = Some z
                  ∧ number_gtb z (stacking_order other) = true).
Proof.
  intros Hclaim.
  pose (a := SlideElement.mk "a" shape (Finite 0) (Finite 0) (Finite 10)
               (Finite 10) None None (Some (Finite (2 ^ 53))) []).
  pose (b := SlideElement.mk "b" shape (Finite 5) (Finite 5) (Finite 10)
               (Finite 10) None None None []).
  destruct (Hclaim "s" "b"
              (mkState [Slide.mk "s" [a; b] None []] (Some "s") None false)
              (mkWorld ∅ (λ _, 7) (λ _, "0.5")))
    as (st3 & Hrun & Hall).
  vm_compute in Hrun. injection Hrun as <-.
  destruct (Hall (Slide.mk "s" [a; SlideElement.with_zIndex b (Finite (2 ^ 53))]
                           None [])
                 (SlideElement.with_zIndex b (Finite (2 ^ 53))) a)
    as (z & Hz & Hgt).
  - apply list_elem_of_here.
  - reflexivity.
  - apply list_elem_of_further, list_elem_of_here.
  - apply list_elem_of_here.
  - reflexivity.
  - discriminate.
  - injection Hz as <-. vm_compute in Hgt. discriminate Hgt.
Qed.

(** ** Element ids *)

Lemma mapM_reidentified_run (es : list SlideElement.t) (w : World) :
  mapM reidentified es w =
    (Returned (imap (reidentified_at w) es),
     mkWorld (localStorage w)
             (λ n, clock w (length es + n)%nat)
             (λ n, entropy w (length es + n)%nat)).
Proof.
  revert w. induction es as [|e es IH]; intros w.
  - by destruct w.
  - change (mapM reidentified (e :: es))
      with (y ← reidentified e; k ← mapM reidentified es; mret (y :: k)).
    unfold mbind at 1, M_bind at 1.
    change (reidentified e w)
      with (Returned (reidentified_at w 0 e),
            mkWorld (localStorage w) (λ n, clock w (S n)) (λ n, entropy w (S n))).
    unfold mbind at 1, M_bind at 1. rewrite IH. reflexivity.
Qed.

Lemma map_id_filter (elementId : string) (es : list SlideElement.t) :
  map SlideElement.id (filter (λ element, SlideElement.id element ≠ elementId) es)
  = filter (λ i, i ≠ elementId) (map SlideElement.id es).
Proof.
  induction es as [|e es IH]; [done|]. simpl.
  destruct (decide (SlideElement.id e ≠ elementId)).
  - rewrite !filter_cons_True by done. simpl. by rewrite IH.
  - by rewrite !filter_cons_False by done.
Qed.

Lemma duplicateSlide_run slideId st w :
  ∃ st', (duplicateSlide slideId st w).1 = Returned st'
         ∧ (st' = st
            ∨ ∃ i original,
                slides st !! i = Some original
                ∧ Slide.id original = slideId
                ∧ slides st' =
                    take (S i) (slides st)
                    ++ Slide.mk ("slide-" +:+ pretty (clock w 0%nat))
                         (imap (reidentified_at
                                  (mkWorld (localStorage w) (λ n, clock w (S n))
                                           (entropy w)))
                               (Slide.elements original))
                         (Slide.backgroundColor original) []
                       :: drop (S i) (slides st)).
Proof.
  unfold duplicateSlide.
  destruct (list_find (λ slide, Slide.id slide = slideId) (slides st))
    as [[i original]|] eqn:Hfind.
  - apply list_find_Some in Hfind as (Hi & Hid & _).
    unfold mbind at 1, M_bind at 1.
    change (Date_now w)
      with (Returned (clock w 0%nat),
            mkWorld (localStorage w) (λ n, clock w (S n)) (entropy w)).
    unfold mbind at 1, M_bind at 1. rewrite mapM_reidentified_run.
    eexists. split; [apply (after_autoSave (isLoaded st))|].
    right. exists i, original. done.
  - exists st. split; [done|]. by left.
Qed.

(** C8 (as the code has it). Every store operation but one leaves the ids of
    the elements alone.  [updateElement] with an update map that provides no
    [id], [bringToFront] and [sendToBack] keep the id of every element at
    every position; [addElement] and [deleteElement] only append or filter;
    the selection setters keep the slides; [deleteSlide], [duplicateSlide],
    [reorderSlides] and [addSlide] carry the retained slides over as they
    are.  The exception is [updateElement] with a map that provides [id]. *)
Theorem element_ids_preserved (st : State) (w : World) :
  (∀ slideId elementId updates,
     Updates.id updates = None →
     ∃ st', (updateElement slideId elementId updates st w).1 = Returned st'
            ∧ element_ids st' = element_ids st)
  ∧ (∀ slideId elementId,
       ∃ st', (bringToFront slideId elementId st w).1 = Returned st'
              ∧ element_ids st' = element_ids st)
  ∧ (∀ slideId elementId,
       ∃ st', (sendToBack slideId elementId st w).1 = Returned st'
              ∧ element_ids st' = element_ids st)
  ∧ (∀ slideId element,
       ∃ st', (addElement slideId element st w).1 = Returned st'
              ∧ element_ids st' =
                  map (λ slide,
                         map SlideElement.id (Slide.elements slide)
                         ++ (if decide (Slide.id slide = slideId)
                             then [SlideElement.id element] else []))
                      (slides st))
  ∧ (∀ slideId elementId,
       ∃ st', (deleteElement slideId elementId st w).1 = Returned st'
              ∧ element_ids st' =
                  map (λ slide,
                         if decide (Slide.id slide = slideId)
                         then filter (λ i, i ≠ elementId)
                                     (map SlideElement.id (Slide.elements slide))
                         else map SlideElement.id (Slide.elements slide))
                      (slides st))
  ∧ (∀ slideId,
       ∃ st', (setCurrentSlide slideId st w).1 = Returned st'
              ∧ slides st' = slides st)
  ∧ (∀ elementId,
       ∃ st', (setSelectedElement elementId st w).1 = Returned st'
              ∧ slides st' = slides st)
  ∧ (∀ slideId,
       ∃ st', (deleteSlide slideId st w).1 = Returned st'
              ∧ (slides st' `sublist_of` slides st ∨ element_ids st' = [[]]))
  ∧ (∀ slideId,
       ∃ st', (duplicateSlide slideId st w).1 = Returned st'
              ∧ slides st `sublist_of` slides st')
  ∧ (∀ dragIndex hoverIndex st',
       (reorderSlides dragIndex hoverIndex st w).1 = Returned (Some st') →
       slides st' ≡ₚ slides st)
  ∧ (∀ template st',
       (addSlide template st w).1 = Returned (Some st') →
       st' = st
       ∨ ∃ kept new, slides st' = kept ++ [new]
                     ∧ kept `sublist_of` slides st).
Proof.
  repeat apply conj.
  - intros slideId elementId updates Hnoid.
    eexists. split; [apply (after_autoSave (isLoaded st))|].
    unfold element_ids. simpl. rewrite <- list_fmap_compose.
    apply list_fmap_ext. intros _ slide _. simpl.
    case_decide; [|done]. simpl. rewrite <- list_fmap_compose.
    apply list_fmap_ext. intros _ element _. simpl.
    case_decide; [|done]. simpl. by rewrite Hnoid.
  - intros slideId elementId.
    destruct (bringToFront_run slideId elementId st w) as (w' & ->).
    eexists. split; [done|]. unfold element_ids. simpl.
    rewrite <- list_fmap_compose. apply list_fmap_ext. intros _ slide _. simpl.
    unfold bringToFront_slide. case_decide; [done|]. simpl.
    rewrite <- list_fmap_compose. apply list_fmap_ext. intros _ element _. simpl.
    by case_decide.
  - intros slideId elementId.
    destruct (sendToBack_run slideId elementId st w) as (w' & ->).
    eexists. split; [done|]. unfold element_ids. simpl.
    rewrite <- list_fmap_compose. apply list_fmap_ext. intros _ slide _. simpl.
    unfold sendToBack_slide. case_decide; [done|]. simpl.
    rewrite <- list_fmap_compose. apply list_fmap_ext. intros _ element _. simpl.
    by case_decide.
  - intros slideId element.
    eexists. split; [apply (after_autoSave (isLoaded st))|].
    unfold element_ids. simpl. rewrite <- list_fmap_compose.
    apply list_fmap_ext. intros _ slide _. simpl.
    case_decide; simpl; [by rewrite fmap_app|by rewrite app_nil_r].
  - intros slideId elementId.
    eexists. split; [apply (after_autoSave (isLoaded st))|].
    unfold element_ids. simpl. rewrite <- list_fmap_compose.
    apply list_fmap_ext. intros _ slide _. simpl.
    case_decide; simpl; [apply map_id_filter|done].
  - intros slideId. by eexists.
  - intros elementId. by eexists.
  - intros slideId.
    destruct (filter (λ slide, Slide.id slide ≠ slideId) (slides st))
      as [|first rest] eqn:Hf.
    + eexists. split; [by apply deleteSlide_last|]. by right.
    + eexists. split; [by eapply deleteSlide_others|]. left. simpl.
      rewrite <- Hf. apply sublist_filter.
  - intros slideId.
    destruct (duplicateSlide_run slideId st w)
      as (st' & Hrun & [->|(i & original & _ & _ & Hslides)]).
    + by exists st.
    + exists st'. split; [done|]. rewrite Hslides.
      rewrite <- (take_drop (S i) (slides st)) at 1.
      apply sublist_app; [done|]. by apply sublist_cons.
  - intros dragIndex hoverIndex st'. unfold reorderSlides.
    destruct (slides st !! dragIndex) as [dragged|] eqn:Hd; [|done].
    rewrite (after_autoSave (isLoaded st)). intros [= <-]. simpl.
    rewrite <- Permutation_middle, take_drop.
    symmetry. by apply delete_Permutation.
  - intros template st'. unfold addSlide.
    destruct (invalid_template template); [intros [= <-]; by left|].
    intros Hrun. right.
    assert (∃ new, st' = mkState
              (List.filter (λ slide, slide_shaped (Slide.to_value slide)) (slides st)
               ++ [new]) (Some (Slide.id new)) None (isLoaded st))
      as (new & ->).
    { revert Hrun. unfold mbind at 1, M_bind at 1.
      destruct (truthy template).
      - unfold mret at 1, M_ret at 1.
        destruct (Slide.of_value template) as [new|]; [|done].
        rewrite (after_autoSave (isLoaded st)). intros [= <-]. by exists new.
      - unfold mbind at 1, M_bind at 1. rewrite emptySlide_run.
        unfold mret at 1, M_ret at 1.
        rewrite (after_autoSave (isLoaded st)). intros [= <-].
        by exists (Slide.mk ("slide-" +:+ pretty (clock w 0%nat)) []
                            (Some "#ffffff") []). }
    eexists _, new. split; [done|].
    generalize (slides st). clear. intros l.
    induction l as [|a l IH]; simpl; [done|].
    destruct (slide_shaped (Slide.to_value a)).
    + by apply sublist_skip.
    + by apply sublist_cons.
Qed.

Lemma element_ids_preserved_witness :
  let e := SlideElement.mk "e" text (Finite 0) (Finite 0) (Finite 10) (Finite 10)
             (Some "{{price}}") None None [] in
  let st := mkState [Slide.mk "s" [e] None []] (Some "s") None false in
  let w := mkWorld ∅ (λ _, 7) (λ _, "0.5") in
  let updates :=
    Updates.mk None None None None None None (Some (Some "$1")) None None [] in
  ∃ st', (updateElement "s" "e" updates st w).1 = Returned st'
         ∧ element_ids st' = element_ids st.
Proof.
  intros e st w updates.
  apply (proj1 (element_ids_preserved st w) "s" "e" updates).
  reflexivity.
Defined.

(** C8 as stated fails: an update map may provide [id], and the merge then
    overwrites the id of the matched element. *)
Lemma updateElement_overwrites_id :
  ¬ (∀ (slideId elementId : string) (updates : Updates.t) (st : State)
       (w : World),
        ∃ st', (updateElement slideId elementId updates st w).1 = Returned st'
               ∧ element_ids st' = element_ids st).
Proof.
  intros Hclaim.
  pose (e := SlideElement.mk "e" text (Finite 0) (Finite 0) (Finite 10)
               (Finite 10) None None None []).
  pose (updates :=
          Updates.mk (Some "other") None None None None None None None None []).
  destruct (Hclaim "s" "e" updates
              (mkState [Slide.mk "s" [e] None []] (Some "s") None false)
              (mkWorld ∅ (λ _, 7) (λ _, "0.5")))
    as (st' & Hrun & Hids).
  simpl in Hrun. injection Hrun as <-. discriminate Hids.
Qed.

(** ** JSON *)

Lemma value_nested_ind (P : value → Prop) :
  P VUndefined → P VNull → (∀ b, P (VBoolean b)) → (∀ n, P (VNumber n)) →
  (∀ s, P (VString s)) →
  (∀ items, Forall P items → P (VArray items)) →
  (∀ props, Forall (λ p, P p.2) props → P (VObject props)) →
  ∀ v, P v.
Proof.
  intros Hu Hn Hb Hnum Hs Ha Ho. fix IH 1. intros [| |b|n|s|items|props].
  - exact Hu.
  - exact Hn.
  - apply Hb.
  - apply Hnum.
  - apply Hs.
  - apply Ha. induction items as [|item items IHitems]; constructor.
    + apply IH.
    + exact IHitems.
  - apply Ho. induction props as [|[k v] props IHprops]; constructor.
    + apply IH.
    + exact IHprops.
Qed.


(** *** Objects as [JSON.parse] builds them *)

Lemma set_prop_fresh {A} (key : string) (v : A) (props : list (string * A)) :
  key ∉ map fst props → set_prop key v props = props ++ [(key, v)].
Proof.
  induction props as [|[k v'] props IH]; [done|].
  cbn [map fst set_prop]. intros [Hne Hnotin]%not_elem_of_cons.
  destruct (String.eqb_spec k key) as [->|_]; [done|].
  by rewrite IH.
Qed.

Lemma assign_distinct {A} (acc props : list (string * A)) :
  NoDup (map fst (acc ++ props)) → assign acc props = acc ++ props.
Proof.
  unfold assign. revert acc.
  induction props as [|[k v] props IH]; intros acc Hnodup; cbn [foldl].
  - by rewrite app_nil_r.
  - rewrite set_prop_fresh.
    + rewrite IH; [by rewrite <- app_assoc|].
      by rewrite <- app_assoc.
    + rewrite map_app in Hnodup. cbn [map fst] in Hnodup.
      apply NoDup_app in Hnodup as (_ & Hdisjoint & _).
      intros Hin. apply (Hdisjoint _ Hin). apply list_elem_of_here.
Qed.

Lemma lookup_prop_app {A} (key : string) (l k : list (string * A)) :
  lookup_prop key (l ++ k)
  = match lookup_prop key l with
    | Some v => Some v
    | None => lookup_prop key k
    end.
Proof.
  induction l as [|[k' v] l IH]; [done|]. cbn [app lookup_prop].
  by destruct (String.eqb k' key).
Qed.

Lemma lookup_set_prop {A} (key k : string) (v : A) (props : list (string * A)) :
  lookup_prop key (set_prop k v props)
  = if String.eqb k key then Some v else lookup_prop key props.
Proof.
  induction props as [|[k' v'] props IH]; [done|]. cbn [set_prop].
  destruct (String.eqb_spec k' k) as [->|Hne]; cbn [lookup_prop].
  - by destruct (String.eqb k key).
  - rewrite IH. destruct (String.eqb_spec k' key) as [->|_]; [|done].
    destruct (String.eqb_spec k key) as [->|_]; done.
Qed.

(** Of the properties assigned under one key the last is read. *)
Lemma lookup_assign {A} (key : string) (acc props : list (string * A)) :
  lookup_prop key (assign acc props)
  = match lookup_prop key (reverse props) with
    | Some v => Some v
    | None => lookup_prop key acc
    end.
Proof.
  unfold assign. revert acc.
  induction props as [|[k v] props IH]; intros acc; [done|].
  cbn [foldl fst snd]. rewrite IH, reverse_cons, lookup_prop_app, lookup_set_prop.
  cbn [lookup_prop].
  by destruct (lookup_prop key (reverse props)), (String.eqb k key).
Qed.

Lemma lookup_prop_map {A B} (g : A → B) (key : string) (l : list (string * A)) :
  lookup_prop key (map (λ m, (m.1, g m.2)) l) = g <$> lookup_prop key l.
Proof.
  induction l as [|[k v] l IH]; [done|]. cbn [map lookup_prop fst snd].
  by destruct (String.eqb k key).
Qed.





(** What [JSON.parse] makes of the members of an object holds, under a key,
    what it reads from the last member of that name. *)
Lemma lookup_prop_parsed (key : string) (members : list (string * json)) :
  lookup_prop key
    (assign [] (map (λ m, (m.1, JSON_parse_document m.2)) members))
  = JSON_parse_document <$> member key members.
Proof.
  unfold member. rewrite lookup_assign.
  change (reverse (map (λ m : string * json, (m.1, JSON_parse_document m.2))
                        members))
    with (reverse ((λ m : string * json, (m.1, JSON_parse_document m.2))
                     <$> members)).
  rewrite <- fmap_reverse.
  change ((λ m : string * json, (m.1, JSON_parse_document m.2))
            <$> reverse members)
    with (map (λ m : string * json, (m.1, JSON_parse_document m.2))
              (reverse members)).
  rewrite lookup_prop_map. by destruct (lookup_prop key (reverse members)).
Qed.

(** Parsing the text that [JSON.stringify] wrote for a clean value gives the
    value back. *)
Lemma parse_stringify_clean (v : value) :
  json_clean v = true →
  ∃ j, JSON_stringify v = Some j ∧ JSON_parse_document j = v.
Proof.
  induction v as [| |b|n|s|items IH|props IH] using value_nested_ind;
    cbn [json_clean]; intros Hclean; try done;
    try (eexists; split; reflexivity).
  - destruct n; try done. eexists; split; reflexivity.
  - exists (JArray (map (λ item, default JNull (JSON_stringify item)) items)).
    split; [reflexivity|]. cbn [JSON_parse_document]. f_equal.
    induction IH as [|item items Hitem _ IHitems]; [done|].
    cbn [forallb] in Hclean. apply andb_true_iff in Hclean as [Hc1 Hc2].
    cbn [map]. cbv beta. destruct (Hitem Hc1) as (j & -> & Hj). cbn [default from_option id].
    rewrite Hj. f_equal. exact (IHitems Hc2).
  - apply andb_true_iff in Hclean as [Hclean Hnodup].
    apply bool_decide_eq_true in Hnodup.
    exists (JObject (omap (λ p : string * value,
                             match JSON_stringify p.2 with
                             | Some j => Some (p.1, j)
                             | None => None
                             end) props)).
    split; [reflexivity|]. cbn [JSON_parse_document]. f_equal.
    replace (map (λ m : string * json, (m.1, JSON_parse_document m.2))
                 (omap (λ p : string * value,
                          match JSON_stringify p.2 with
                          | Some j => Some (p.1, j)
                          | None => None
                          end) props))
      with props; [by apply assign_distinct|].
    clear Hnodup. induction IH as [|[k v] props Hprop _ IHprops]; [done|].
    cbn [forallb snd] in Hclean. apply andb_true_iff in Hclean as [Hc1 Hc2].
    cbn [snd] in Hprop. destruct (Hprop Hc1) as (j & Hs & Hj).
    cbn [omap list_omap fst snd]. rewrite Hs. cbn [map fst snd].
    rewrite Hj. f_equal. exact (IHprops Hc2).
Qed.







Lemma parse_stringify_clean_items (items : list value) :
  forallb json_clean items = true →
  map JSON_parse_document (map (λ v, default JNull (JSON_stringify v)) items)
  = items.
Proof.
  induction items as [|v items IH]; [done|]. simpl.
  intros [Hv Hitems]%andb_true_iff.
  destruct (parse_stringify_clean v Hv) as (j & -> & Hj). simpl.
  by rewrite Hj, IH.
Qed.

(** ** Objects and their records *)

Lemma json_clean_field {A} key (enc : A → value) (o : option A) :
  forallb (λ p, json_clean p.2) (field key enc o)
  = from_option (λ a, json_clean (enc a)) true o.
Proof. destruct o; simpl; [apply andb_true_r|done]. Qed.

Lemma Style_of_to_value (s : Style.t) :
  Style.of_value (Style.to_value s) = Some s.
Proof.
  destruct s as [[?|] [?|] [?|] [?|] [?|] [?|] [[| |]|] [[?|?]|]]; reflexivity.
Qed.

Lemma Style_to_value_clean (s : Style.t) :
  Style.finite s = true → json_clean (Style.to_value s) = true.
Proof.
  unfold Style.finite. intros [Hfs Hbr]%andb_true_iff.
  unfold Style.to_value, Style.props. simpl.
  rewrite !forallb_app, !json_clean_field.
  destruct s as [bg c fs fw fst td ta br]; simpl in *.
  destruct bg, c, fs, fw, fst, td, ta, br as [[?|?]|]; simpl in *;
    rewrite ?Hfs, ?Hbr; reflexivity.
Qed.

Arguments Style.to_value : simpl never.
Arguments Style.of_value : simpl never.

Lemma ElementType_of_to_string (ty : ElementType) :
  ElementType_of_value (VString (ElementType_to_string ty)) = Some ty.
Proof. by destruct ty. Qed.

Lemma reduced_element_of_to_value (e : SlideElement.t) :
  SlideElement.of_value (SlideElement.to_value (reduced_element e))
  = Some (reduced_element e).
Proof.
  destruct e as [i ty x y w h [c|] [s|] [z|] extra], ty;
    unfold reduced_element; simpl;
    unfold optional; simpl; rewrite ?Style_of_to_value; reflexivity.
Qed.

Lemma reduced_element_clean (e : SlideElement.t) :
  SlideElement.finite e = true →
  json_clean (SlideElement.to_value (reduced_element e)) = true.
Proof.
  unfold SlideElement.finite. rewrite !andb_true_iff.
  intros (((((Hx & Hy) & Hw) & Hh) & Hs) & Hz).
  unfold SlideElement.to_value, SlideElement.props. simpl.
  rewrite Hx, Hy, Hw, Hh. simpl.
  rewrite !forallb_app, !json_clean_field.
  destruct e as [i ty x y w h [c|] [s|] [z|] extra]; simpl in *;
    rewrite ?Hz; try done;
    apply Style_to_value_clean in Hs; simpl in Hs; by rewrite Hs.
Qed.

Lemma only_declared_undeclared declared props :
  only_declared declared (undeclared declared props) = [].
Proof.
  unfold only_declared, undeclared.
  induction props as [|[k v] props IH]; [done|]. simpl.
  destruct (declares declared k) eqn:Hk; simpl; [done|]. by rewrite Hk.
Qed.

(** The stripped element keeps exactly the properties of the fixed field
    set. *)
Lemma reduced_element_props (e : SlideElement.t) :
  SlideElement.props (reduced_element e)
  = only_declared SlideElement.declared (SlideElement.props e).
Proof.
  unfold SlideElement.props, only_declared.
  rewrite !List.filter_app.
  fold (only_declared SlideElement.declared
          (undeclared SlideElement.declared (SlideElement.extra e))).
  rewrite only_declared_undeclared.
  destruct e as [i ty x y w h [c|] [s|] [z|] extra]; reflexivity.
Qed.

(** The stripped slide keeps exactly the properties of the fixed field set,
    its elements stripped. *)
Lemma reduced_props (s : Slide.t) :
  Slide.props (reduced s)
  = only_declared Slide.declared
      (Slide.props (Slide.with_elements s (map reduced_element (Slide.elements s)))).
Proof.
  unfold Slide.props, only_declared.
  rewrite !List.filter_app.
  fold (only_declared Slide.declared
          (undeclared Slide.declared
             (Slide.extra (Slide.with_elements s
                             (map reduced_element (Slide.elements s)))))).
  rewrite only_declared_undeclared.
  destruct s as [i es [bg|] extra]; reflexivity.
Qed.

Lemma reduced_elements_of_to_value (es : list SlideElement.t) :
  mapM SlideElement.of_value
       (map SlideElement.to_value (map reduced_element es))
  = Some (map reduced_element es).
Proof.
  induction es as [|e es IH]; [done|].
  change (mapM SlideElement.of_value
            (map SlideElement.to_value (map reduced_element (e :: es))))
    with (y ← SlideElement.of_value (SlideElement.to_value (reduced_element e));
          k ← mapM SlideElement.of_value
                (map SlideElement.to_value (map reduced_element es));
          mret (y :: k)).
  by rewrite reduced_element_of_to_value, IH.
Qed.

Arguments SlideElement.to_value : simpl never.
Arguments SlideElement.of_value : simpl never.

Lemma reduced_of_to_value (s : Slide.t) :
  Slide.of_value (Slide.to_value (reduced s)) = Some (reduced s).
Proof.
  destruct s as [i es [bg|] extra]; unfold reduced; simpl;
    unfold required, optional; simpl;
    rewrite reduced_elements_of_to_value; reflexivity.
Qed.

Lemma reduced_clean (s : Slide.t) :
  Slide.finite s = true → json_clean (Slide.to_value (reduced s)) = true.
Proof.
  unfold Slide.finite. intros Hfin.
  assert (forallb json_clean
            (map SlideElement.to_value (map reduced_element (Slide.elements s)))
          = true) as Hes.
  { induction (Slide.elements s) as [|e es IH]; [done|].
    simpl in Hfin. apply andb_true_iff in Hfin as [He Hes].
    change (json_clean (SlideElement.to_value (reduced_element e))
            && forallb json_clean
                 (map SlideElement.to_value (map reduced_element es)) = true).
    by rewrite (reduced_element_clean e He), (IH Hes). }
  destruct s as [i es [bg|] extra]; simpl in *; by rewrite Hes.
Qed.

Lemma slide_shaped_to_value (s : Slide.t) :
  slide_shaped (Slide.to_value s) = negb (String.eqb (Slide.id s) "").
Proof.
  unfold slide_shaped. simpl. by rewrite andb_true_r.
Qed.

Lemma isValidSlide_to_value (s : Slide.t) : isValidSlide (Slide.to_value s) = true.
Proof. reflexivity. Qed.

Lemma sanitizeSlidesForStorage_reduced (S : list Slide.t) :
  sanitizeSlidesForStorage S
  = map reduced (filter (λ s, Slide.id s ≠ "") S).
Proof.
  unfold sanitizeSlidesForStorage.
  induction S as [|s S IH]; [done|]. simpl.
  rewrite slide_shaped_to_value.
  destruct (String.eqb_spec (Slide.id s) "") as [Heq|Hne]; simpl.
  - rewrite filter_cons_False by (simpl; tauto). exact IH.
  - rewrite filter_cons_True by done. simpl. f_equal. exact IH.
Qed.

(** ** Saving and loading the presentation *)

Lemma loadPresentation_stored (docs : list json) (w : World) :
  localStorage w !! PRESENTATION_STORAGE_KEY = Some (document (JArray docs)) →
  loadPresentation w =
    (Returned (if forallb isValidSlide (map JSON_parse_document docs)
               then Some (map JSON_parse_document docs) else None), w).
Proof.
  intros Hstored.
  unfold loadPresentation, try_catch, mbind, M_bind, getItem.
  rewrite Hstored. simpl.
  by destruct (forallb isValidSlide (map JSON_parse_document docs)).
Qed.

Lemma save_then_load_run (S : list Slide.t) (w : World) :
  Forall (λ s, Slide.finite s = true) S →
  (save_then_load S w).1 =
    Returned (Some (map Slide.to_value
                        (map reduced (filter (λ s, Slide.id s ≠ "") S)))).
Proof.
  intros Hfin. unfold save_then_load, mbind, M_bind.
  rewrite savePresentation_run.
  erewrite loadPresentation_stored; [|apply lookup_insert_eq].
  rewrite sanitizeSlidesForStorage_reduced.
  rewrite parse_stringify_clean_items.
  - simpl. replace (forallb _ _) with true; [done|].
    symmetry. induction (map reduced _) as [|s l IH]; [done|].
    change (isValidSlide (Slide.to_value s)
            && forallb isValidSlide (map Slide.to_value l) = true).
    by rewrite isValidSlide_to_value.
  - assert (Forall (λ s, Slide.finite s = true)
                   (filter (λ s, Slide.id s ≠ "") S)) as Hkept.
    { apply Forall_forall. intros s [_ Hs]%list_elem_of_filter.
      by eapply Forall_forall in Hfin. }
    induction Hkept as [|s l Hs _ IH]; [done|].
    change (json_clean (Slide.to_value (reduced s))
            && forallb json_clean (map Slide.to_value (map reduced l)) = true).
    by rewrite (reduced_clean s Hs), IH.
Qed.

Lemma reduced_slides_of_to_value (S : list Slide.t) :
  mapM Slide.of_value (map Slide.to_value (map reduced S)) = Some (map reduced S).
Proof.
  induction S as [|s S IH]; [done|].
  change (mapM Slide.of_value (map Slide.to_value (map reduced (s :: S))))
    with (y ← Slide.of_value (Slide.to_value (reduced s));
          k ← mapM Slide.of_value (map Slide.to_value (map reduced S));
          mret (y :: k)).
  by rewrite reduced_of_to_value, IH.
Qed.

(** C2 (as the code has it). For slides whose ids are not empty and whose
    numbers are finite, loading after saving returns an array that reads, at
    the declared types, as the saved sequence with every slide and element
    stripped to its declared fields. *)
Theorem load_after_save_roundtrip (S : list Slide.t) (w : World) :
  Forall (λ s, Slide.id s ≠ "") S →
  Forall (λ s, Slide.finite s = true) S →
  ∃ loaded : list value,
    (save_then_load S w).1 = Returned (Some loaded)
    ∧ mapM Slide.of_value loaded = Some (map reduced S).
Proof.
  intros Hids Hfin. eexists. split; [by apply save_then_load_run|].
  replace (filter (λ s, Slide.id s ≠ "") S) with S.
  - apply reduced_slides_of_to_value.
  - clear Hfin. induction Hids as [|s l Hs _ IH]; [done|].
    rewrite filter_cons_True by done. by rewrite <- IH.
Qed.

Lemma load_after_save_roundtrip_witness :
  let e := SlideElement.mk "e" text (Finite 10) (Finite 20) (Finite 300)
             (Finite 40) (Some "Title") None (Some (Finite 2))
             [("dragging", VBoolean true)] in
  let S := [Slide.mk "slide-1" [e] (Some "#ffffff") [("name", VString "Cover")]] in
  let w := mkWorld ∅ (λ _, 7) (λ _, "0.5") in
  ∃ loaded : list value,
    (save_then_load S w).1 = Returned (Some loaded)
    ∧ mapM Slide.of_value loaded = Some (map reduced S).
Proof.
  intros e S w.
  apply (load_after_save_roundtrip S w).
  - repeat constructor. simpl. discriminate.
  - repeat constructor.
Defined.

(** C2 as stated fails: a slide whose id is the empty string has a string id
    and an array of elements, and is not there after the round trip. *)
Lemma load_after_save_loses_empty_id :
  ¬ (∀ (S : list Slide.t) (w : World),
       ∃ loaded : list value,
         (save_then_load S w).1 = Returned (Some loaded)
         ∧ mapM Slide.of_value loaded = Some (map reduced S)).
Proof.
  intros Hclaim.
  destruct (Hclaim [Slide.mk "" [] None []] (mkWorld ∅ (λ _, 7) (λ _, "0.5")))
    as (loaded & Hrun & Hread).
  rewrite save_then_load_run in Hrun by (by repeat constructor).
  rewrite filter_cons_False in Hrun by (simpl; tauto).
  injection Hrun as <-. discriminate Hread.
Qed.

(** C10. [savePresentation] returns normally whatever it is given, and the
    text it stores is that of the array of those input slides that pass the
    shape check, in their order, each stripped: a stripped slide or element
    has exactly the properties of the fixed field set.  On a slide the shape
    check says whether the id is not empty.  A slide with an empty id fails it
    while [loadPresentation]'s validator accepts that slide: saving leaves
    it out, and what is stored for it alone is the empty array. *)
Theorem savePresentation_persists_shaped (S : list Slide.t) (w : World) :
  (∃ w', savePresentation S w = (Returned (), w')
         ∧ localStorage w' =
             <[PRESENTATION_STORAGE_KEY :=
                 stored_of_stringified
                   (JSON_stringify
                      (VArray (map Slide.to_value
                                   (map reduced
                                        (List.filter
                                           (λ s, slide_shaped (Slide.to_value s))
                                           S)))))]>
               (localStorage w))
  ∧ (∀ s, Slide.props (reduced s)
          = only_declared Slide.declared
              (Slide.props
                 (Slide.with_elements s (map reduced_element (Slide.elements s)))))
  ∧ (∀ e, SlideElement.props (reduced_element e)
          = only_declared SlideElement.declared (SlideElement.props e))
  ∧ (∀ s, slide_shaped (Slide.to_value s) = true ↔ Slide.id s ≠ "")
  ∧ (∀ s, isValidSlide (Slide.to_value s) = true)
  ∧ (∀ es bg extra,
       (savePresentation [Slide.mk "" es bg extra] w).2.(localStorage)
       = <[PRESENTATION_STORAGE_KEY := document (JArray [])]> (localStorage w)).
Proof.
  repeat apply conj.
  - rewrite savePresentation_run. eexists. split; reflexivity.
  - apply reduced_props.
  - apply reduced_element_props.
  - intros s. rewrite slide_shaped_to_value.
    by destruct (String.eqb_spec (Slide.id s) "").
  - apply isValidSlide_to_value.
  - intros es bg extra. by rewrite savePresentation_run.
Qed.

(** ** Saving a slide under a name *)

Lemma getSavedSlides_stored (docs : list json) (w : World) :
  saved_slides_stored w docs →
  getSavedSlides w = (Returned (VArray (map JSON_parse_document docs)), w).
Proof.
  unfold getSavedSlides, try_catch, mbind, M_bind, getItem.
  by intros [->|[-> ->]].
Qed.



Lemma newSavedSlide_run (slide : Slide.t) (name : string) (w : World) :
  ∃ w', newSavedSlide slide name w =
          (Returned
             (SavedSlide.mk
                ("saved-" +:+ pretty (clock w 0%nat))
                name
                (Slide.with_id_elements slide
                   ("slide-" +:+ pretty (clock w 1%nat))
                   (imap (λ i element,
                            SlideElement.with_id element
                              ("element-" +:+ pretty (clock w (2 + i)%nat)
                               +:+ "-" +:+ entropy w i))
                         (Slide.elements slide)))
                (clock w (2 + length (Slide.elements slide))%nat)
                None), w')
        ∧ localStorage w' = localStorage w.
Proof.
  unfold newSavedSlide.
  unfold mbind at 1, M_bind at 1, Date_now at 1.
  unfold mbind at 1, M_bind at 1, Date_now at 1.
  unfold mbind at 1, M_bind at 1. rewrite mapM_reidentified_run.
  unfold mbind at 1, M_bind at 1, Date_now at 1. simpl.
  rewrite Nat.add_0_r. unfold mret, M_ret.
  eexists. split; reflexivity.
Qed.





(** ** Image placeholders *)

Lemma leading_digits_app (digits rest : string) :
  Forall (λ c, is_digit c = true) (list_ascii_of_string digits) →
  leading_digits (digits +:+ "]" +:+ rest) = digits.
Proof.
  induction digits as [|c digits IH]; simpl; intros Hall; [done|].
  apply Forall_cons in Hall as [-> Hall]. by rewrite IH.
Qed.

Lemma string_drop_app (s rest : string) :
  string_drop (String.length s) (s +:+ rest) = rest.
Proof. induction s as [|c s IH]; [by destruct rest|exact IH]. Qed.

Lemma string_app_assoc (a b c : string) : (a +:+ b) +:+ c = a +:+ b +:+ c.
Proof.
  induction a as [|x a IH]; [reflexivity|].
  change (String x ((a +:+ b) +:+ c) = String x (a +:+ b +:+ c)).
  by rewrite IH.
Qed.

Lemma image_placeholder_app (digits post : string) :
  image_placeholder digits +:+ post
  = "{{images[" +:+ digits +:+ "]" +:+ "}}" +:+ post.
Proof.
  unfold image_placeholder.
  by rewrite !string_app_assoc.
Qed.

Lemma image_match_at_placeholder (digits post : string) :
  decimal_literal digits →
  image_match_at (image_placeholder digits +:+ post) = Some digits.
Proof.
  intros [Hne Hall]. rewrite image_placeholder_app.
  unfold image_match_at.
  change (starts_with "{{images[" ("{{images[" +:+ digits +:+ "]" +:+ "}}" +:+ post))
    with true.
  cbv iota.
  change (string_drop 9 ("{{images[" +:+ digits +:+ "]" +:+ "}}" +:+ post))
    with (digits +:+ "]" +:+ "}}" +:+ post).
  rewrite leading_digits_app by done.
  rewrite string_drop_app.
  destruct (String.eqb_spec digits "") as [->|_]; done.
Qed.

Lemma image_match_found (s digits : string) :
  image_match_at s = Some digits → image_match s = Some digits.
Proof.
  intros Hat. destruct s as [|c s]; [discriminate Hat|].
  cbn [image_match]. by rewrite Hat.
Qed.

Lemma image_match_placeholder (pre digits post : string) :
  without "{" pre → decimal_literal digits →
  image_match (pre +:+ image_placeholder digits +:+ post) = Some digits.
Proof.
  intros Hpre Hdigits. induction pre as [|c pre IH].
  - by apply image_match_found, image_match_at_placeholder.
  - apply Forall_cons in Hpre as [Hc Hpre].
    change (String c pre +:+ image_placeholder digits +:+ post)
      with (String c (pre +:+ image_placeholder digits +:+ post)).
    cbn [image_match].
    assert (image_match_at (String c (pre +:+ image_placeholder digits +:+ post))
            = None) as ->.
    { unfold image_match_at. cbn [starts_with].
      destruct (Ascii.eqb_spec "{" c) as [<-|_]; [done|reflexivity]. }
    by apply IH.
Qed.

Lemma includes_placeholder (pre digits post : string) :
  includes "{{images[" (pre +:+ image_placeholder digits +:+ post) = true.
Proof.
  induction pre as [|c pre IH].
  - reflexivity.
  - change (String c pre +:+ image_placeholder digits +:+ post)
      with (String c (pre +:+ image_placeholder digits +:+ post)).
    cbn [includes]. rewrite IH. apply orb_true_r.
Qed.

(** C4 (as the code has it). On an element of type image whose content holds
    [{{images[N]}}], N a decimal literal, with no brace to the left of it,
    [populateTemplate]'s callback replaces the whole content with
    [data.images[N]] when that entry exists and is not the empty string, and
    leaves the content as it was otherwise; nothing else of the element
    changes. *)
Theorem populate_image_placeholder (toLocaleString : number → string)
    (data : RealEstateData.t) (element : SlideElement.t)
    (pre digits post : string) :
  SlideElement.type element = image →
  without "{" pre →
  decimal_literal digits →
  SlideElement.content element
  = Some (pre +:+ image_placeholder digits +:+ post) →
  populate_element toLocaleString data element
  = SlideElement.with_content element
      (Some (match RealEstateData.images data !! parseInt digits with
             | Some url =>
                 if decide (url = "")
                 then pre +:+ image_placeholder digits +:+ post
                 else url
             | None => pre +:+ image_placeholder digits +:+ post
             end)).
Proof.
  intros Htype Hpre Hdigits Hcontent.
  unfold populate_element. rewrite Hcontent, Htype.
  assert (String.eqb (pre +:+ image_placeholder digits +:+ post) "" = false) as ->.
  { destruct pre; done. }
  rewrite bool_decide_eq_true_2 by done.
  rewrite includes_placeholder. simpl.
  unfold populate_image. rewrite image_match_placeholder by done.
  destruct (RealEstateData.images data !! parseInt digits) as [url|]; [|done].
  destruct (decide (url = "")) as [->|Hurl]; [done|].
  by destruct (String.eqb_spec url "").
Qed.

Lemma populate_image_placeholder_witness :
  let data :=
    RealEstateData.mk "a" "p" (Finite 1) (Finite 1) (Finite 1) (Finite 1) "t" "d"
                      (Agent.mk "n" "p" "e") ["a.jpg"; "b.jpg"] in
  let element :=
    SlideElement.mk "e" image (Finite 0) (Finite 0) (Finite 10) (Finite 10)
                    (Some "{{images[1]}}") None None [] in
  populate_element number_toString data element
  = SlideElement.with_content element (Some "b.jpg").
Proof.
  intros data element.
  apply (populate_image_placeholder number_toString data element "" "1" "").
  - reflexivity.
  - constructor.
  - split; [discriminate|]. repeat constructor.
  - reflexivity.
Defined.

(** C4 as stated fails: an entry that exists but is the empty string does
    not replace the content. *)
Lemma populate_image_keeps_placeholder_for_empty_url :
  ¬ (∀ (toLocaleString : number → string) (data : RealEstateData.t)
       (element : SlideElement.t) (digits url : string),
        SlideElement.type element = image →
        decimal_literal digits →
        SlideElement.content element = Some (image_placeholder digits) →
        RealEstateData.images data !! parseInt digits = Some url →
        SlideElement.content (populate_element toLocaleString data element)
        = Some url).
Proof.
  intros Hclaim.
  specialize (Hclaim number_toString
    (RealEstateData.mk "a" "p" (Finite 1) (Finite 1) (Finite 1) (Finite 1) "t" "d"
                       (Agent.mk "n" "p" "e") [""])
    (SlideElement.mk "e" image (Finite 0) (Finite 0) (Finite 10) (Finite 10)
                     (Some "{{images[0]}}") None None [])
    "0" "" eq_refl).
  discriminate Hclaim.
  - split; [discriminate|]. repeat constructor.
  - reflexivity.
  - reflexivity.
Qed.

(** ** Text placeholders *)

(** C3 fails on the code: the pattern built from [{{agent.name}}] has an
    unescaped dot, which matches any character, so a content with no exact
    token is rewritten. *)
Theorem populate_text_dot_matches_any_character
    (toLocaleString : number → string) :
  let element :=
    SlideElement.mk "e" text (Finite 0) (Finite 0) (Finite 10) (Finite 10)
                    (Some "Agent: {{agent-name}}") None None [] in
  populate_element toLocaleString mockRealEstateData element
  = SlideElement.with_content element (Some "Agent: Sarah Johnson").
Proof. reflexivity. Qed.

(** The examples of the specification. *)
Example populate_price (toLocaleString : number → string) :
  populate_text toLocaleString mockRealEstateData "Price: {{price}}"
  = "Price: $2,500,000".
Proof. reflexivity. Qed.

Example populate_second_image :
  populate_image
    (RealEstateData.mk "a" "p" (Finite 1) (Finite 1) (Finite 1) (Finite 1) "t" "d"
                       (Agent.mk "n" "p" "e") ["a.jpg"; "b.jpg"])
    "{{images[1]}}"
  = "b.jpg".
Proof. reflexivity. Qed.

Example populate_image_out_of_range :
  populate_image
    (RealEstateData.mk "a" "p" (Finite 1) (Finite 1) (Finite 1) (Finite 1) "t" "d"
                       (Agent.mk "n" "p" "e") ["a.jpg"; "b.jpg"])
    "{{images[5]}}"
  = "{{images[5]}}".
Proof. reflexivity. Qed.

(** A data value is not inserted verbatim either: the replacement string is
    read for the dollar patterns of [String.prototype.replace]. *)
Example populate_text_expands_dollar_patterns :
  replace_all (RegExp "{{price}}") "$$750 ($&)" "Price: {{price}}"
  = "Price: $750 ({{price}})".
Proof. reflexivity. Qed.

(** * Further properties of the code *)

(** ** Every operation of the store *)

Lemma autoSave_storage (loaded : bool) (newSlides : list Slide.t) (w : World) :
  ∃ w', autoSave loaded newSlides w = (Returned (), w')
        ∧ localStorage w' =
            (if loaded
             then <[PRESENTATION_STORAGE_KEY := persisted newSlides]>
                    (localStorage w)
             else localStorage w)
        ∧ clock w' = clock w ∧ entropy w' = entropy w.
Proof.
  destruct loaded; simpl.
  - unfold try_catch. rewrite savePresentation_run. eauto.
  - exists w. auto.
Qed.

(** The outcome of an operation that sets the state and saves it. *)
Lemma saving_outcome {A} (loaded : bool) (newSlides : list Slide.t) (st' : A)
    (w : World) :
  ∃ w', (autoSave loaded newSlides;; mret st') w = (Returned st', w')
        ∧ localStorage w' =
            (if loaded
             then <[PRESENTATION_STORAGE_KEY := persisted newSlides]>
                    (localStorage w)
             else localStorage w).
Proof.
  unfold mbind, M_bind.
  destruct (autoSave_storage loaded newSlides w) as (w' & -> & Hst & _).
  by exists w'.
Qed.

Ltac run_saving w' H :=
  match goal with
  | |- context [(autoSave ?b ?ss;; mret ?x) ?w0] =>
      destruct (saving_outcome b ss x w0) as (w' & -> & H)
  end.

(** What an operation does to the state and to the storage: it returns, it
    keeps the loaded flag and a non-empty sequence non-empty, and either it
    leaves slides and storage alone or the storage holds, when the store is
    loaded, what [savePresentation] writes for the new slides. *)
Lemma perform_outcome (op : operation) (st : State) (w : World) :
  ∃ r w',
    perform op st w = (Returned r, w')
    ∧ match r with
      | None => localStorage w' = localStorage w
      | Some st' =>
          isLoaded st' = isLoaded st
          ∧ (slides st ≠ [] → slides st' ≠ [])
          ∧ ((slides st' = slides st ∧ localStorage w' = localStorage w)
             ∨ localStorage w' =
                 (if isLoaded st
                  then <[PRESENTATION_STORAGE_KEY := persisted (slides st')]>
                         (localStorage w)
                  else localStorage w))
      end.
Proof.
  destruct op; simpl; unfold always.
  - (* addSlide *)
    unfold addSlide. destruct (invalid_template template).
    { exists (Some st), w. split; [done|]. split; [done|]. split; [done|]. by left. }
    unfold mbind at 1, M_bind at 1.
    destruct (truthy template).
    + unfold mret at 1, M_ret at 1.
      destruct (Slide.of_value template) as [newSlide|]; [|by exists None, w].
      run_saving w' Hst.
      eexists _, w'. split; [done|]. split; [done|]. split; [|by right].
      intros _. simpl. by intros [_ ?]%app_eq_nil.
    + unfold mbind at 1, M_bind at 1. rewrite emptySlide_run.
      unfold mret at 1, M_ret at 1.
      run_saving w' Hst.
      eexists _, w'. split; [done|]. split; [done|]. split; [|by right].
      intros _. simpl. by intros [_ ?]%app_eq_nil.
  - (* deleteSlide *)
    unfold deleteSlide.
    destruct (filter (λ slide, Slide.id slide ≠ slideId) (slides st))
      as [|first rest].
    + unfold mbind at 1, M_bind at 1. unfold mbind at 1, M_bind at 1.
      rewrite emptySlide_run.
      run_saving w' Hst.
      eexists _, w'. split; [done|]. split; [done|]. split; [done|]. by right.
    + unfold mbind at 1, M_bind at 1.
      run_saving w' Hst.
      eexists _, w'. split; [done|]. split; [done|]. split; [done|]. by right.
  - (* duplicateSlide *)
    unfold duplicateSlide.
    destruct (list_find (λ slide, Slide.id slide = slideId) (slides st))
      as [[i original]|].
    + unfold mbind at 1, M_bind at 1. unfold mbind at 1, M_bind at 1.
      unfold Date_now at 1.
      unfold mbind at 1, M_bind at 1. rewrite mapM_reidentified_run.
      run_saving w' Hst.
      eexists _, w'. split; [done|]. split; [done|]. split; [|by right].
      intros _. simpl. by intros [_ ?]%app_eq_nil.
    + exists (Some st), w. split; [done|]. split; [done|]. split; [done|].
      by left.
  - (* reorderSlides *)
    unfold reorderSlides.
    destruct (slides st !! dragIndex) as [dragged|]; [|by exists None, w].
    run_saving w' Hst.
    eexists _, w'. split; [done|]. split; [done|]. split; [|by right].
    intros _. simpl. by intros [_ ?]%app_eq_nil.
  - (* setCurrentSlide *)
    eexists _, w. split; [reflexivity|]. split; [done|]. split; [done|].
    by left.
  - (* addElement *)
    unfold addElement. unfold mbind at 1, M_bind at 1.
    run_saving w' Hst.
    eexists _, w'. split; [done|]. split; [done|]. split; [|by right].
    simpl. by destruct (slides st).
  - (* updateElement *)
    unfold updateElement. unfold mbind at 1, M_bind at 1.
    run_saving w' Hst.
    eexists _, w'. split; [done|]. split; [done|]. split; [|by right].
    simpl. by destruct (slides st).
  - (* deleteElement *)
    unfold deleteElement. unfold mbind at 1, M_bind at 1.
    run_saving w' Hst.
    eexists _, w'. split; [done|]. split; [done|]. split; [|by right].
    simpl. by destruct (slides st).
  - (* setSelectedElement *)
    eexists _, w. split; [reflexivity|]. split; [done|]. split; [done|].
    by left.
  - (* bringToFront *)
    unfold bringToFront. unfold mbind at 1, M_bind at 1.
    run_saving w' Hst.
    eexists _, w'. split; [done|]. split; [done|]. split; [|by right].
    simpl. by destruct (slides st).
  - (* sendToBack *)
    unfold sendToBack. unfold mbind at 1, M_bind at 1.
    run_saving w' Hst.
    eexists _, w'. split; [done|]. split; [done|]. split; [|by right].
    simpl. by destruct (slides st).
Qed.

Lemma storage_keys_differ : PRESENTATION_STORAGE_KEY ≠ SAVED_SLIDES_KEY.
Proof. discriminate. Qed.

(** X1. Until the store is loaded no operation writes to the storage:
    whatever the operation, the storage after it is the storage before. *)
Theorem no_save_before_loaded (op : operation) (st : State) (w : World) :
  isLoaded st = false →
  localStorage (perform op st w).2 = localStorage w.
Proof.
  intros Hloaded.
  destruct (perform_outcome op st w) as (r & w' & -> & Hout). simpl.
  destruct r as [st'|]; [|done].
  destruct Hout as (_ & _ & [[_ ?]|Hst]); [done|]. by rewrite Hloaded in Hst.
Qed.

Lemma no_save_before_loaded_witness :
  let w := mkWorld {[PRESENTATION_STORAGE_KEY := other_text "deck"]}
                   (λ _, 7) (λ _, "0.5") in
  localStorage (perform (DeleteSlide "slide-1") initialState w).2
  = localStorage w.
Proof.
  intros w.
  apply (no_save_before_loaded (DeleteSlide "slide-1") initialState w).
  reflexivity.
Defined.

(** X2. In a loaded store every operation returns, and afterwards the stored
    presentation is the one of the new state whenever it was the one of the
    old state or the operation changed the slides. *)
Theorem presentation_stays_saved (op : operation) (st : State) (w : World) :
  isLoaded st = true →
  ∃ r w',
    perform op st w = (Returned r, w')
    ∧ ∀ st', r = Some st' →
        presentation_saved st w ∨ slides st' ≠ slides st →
        presentation_saved st' w'.
Proof.
  intros Hloaded.
  destruct (perform_outcome op st w) as (r & w' & Hrun & Hout).
  exists r, w'. split; [done|]. intros st' ->.
  destruct Hout as (_ & _ & [[Hsame Hst]|Hst]); unfold presentation_saved.
  - intros [Hsaved|Hchanged]; [|done]. by rewrite Hsame, Hst.
  - intros _. rewrite Hst, Hloaded. apply lookup_insert_eq.
Qed.

Lemma presentation_stays_saved_witness :
  let e := SlideElement.mk "e" text (Finite 0) (Finite 0) (Finite 10) (Finite 10)
             (Some "Title") None None [] in
  let st := mkState [Slide.mk "slide-1" [] (Some "#ffffff") []] (Some "slide-1")
                    None true in
  let w := mkWorld ∅ (λ _, 7) (λ _, "0.5") in
  ∃ r w',
    perform (AddElement "slide-1" e) st w = (Returned r, w')
    ∧ ∀ st', r = Some st' →
        presentation_saved st w ∨ slides st' ≠ slides st →
        presentation_saved st' w'.
Proof.
  intros e st w.
  apply (presentation_stays_saved (AddElement "slide-1" e) st w).
  reflexivity.
Defined.

(** X3. No operation throws, and none empties the presentation: from a
    state with at least one slide every operation leads to a state with at
    least one slide. *)
Theorem slides_never_empty (op : operation) (st : State) (w : World) :
  slides st ≠ [] →
  ∃ r w',
    perform op st w = (Returned r, w')
    ∧ ∀ st', r = Some st' → slides st' ≠ [].
Proof.
  intros Hne.
  destruct (perform_outcome op st w) as (r & w' & Hrun & Hout).
  exists r, w'. split; [done|]. intros st' ->.
  destruct Hout as (_ & Hkeep & _). by apply Hkeep.
Qed.

Lemma slides_never_empty_witness :
  let w := mkWorld ∅ (λ _, 7) (λ _, "0.5") in
  ∃ r w',
    perform (DeleteSlide "slide-1") initialState w = (Returned r, w')
    ∧ ∀ st', r = Some st' → slides st' ≠ [].
Proof.
  intros w.
  apply (slides_never_empty (DeleteSlide "slide-1") initialState w).
  discriminate.
Defined.

(** ** Duplicating and reordering slides *)

Lemma imap_copies (g : nat → string) (es : list SlideElement.t) :
  Forall2 copy_of es (imap (λ i e, SlideElement.with_id e (g i)) es).
Proof.
  revert g. induction es as [|e es IH]; intros g; [constructor|].
  rewrite imap_cons. constructor; [reflexivity|]. apply (IH (g ∘ S)).
Qed.

(** X4. When a slide has the id, [duplicateSlide] inserts one new slide
    right after the first slide with that id: the new slide has an id made
    from the clock, the background of the original, no undeclared field, and
    one copy of each element of the original, in order, that differs from
    it in its id only, the id being made from the clock and the random
    source.  Every slide that was there stays, and the selection does not
    move to the copy. *)
Theorem duplicateSlide_inserts_copy (slideId : string) (st : State) (w : World) :
  slideId ∈ map Slide.id (slides st) →
  ∃ st' i original dup,
    (duplicateSlide slideId st w).1 = Returned st'
    ∧ slides st !! i = Some original
    ∧ Slide.id original = slideId
    ∧ (∀ j s, slides st !! j = Some s → (j < i)%nat → Slide.id s ≠ slideId)
    ∧ slides st' = take (S i) (slides st) ++ dup :: drop (S i) (slides st)
    ∧ Slide.id dup = "slide-" +:+ pretty (clock w 0%nat)
    ∧ Slide.backgroundColor dup = Slide.backgroundColor original
    ∧ Slide.extra dup = []
    ∧ Forall2 copy_of (Slide.elements original) (Slide.elements dup)
    ∧ (∀ k e, Slide.elements dup !! k = Some e →
              SlideElement.id e
              = "element-" +:+ pretty (clock w (S k)) +:+ "-" +:+ entropy w k)
    ∧ currentSlideId st' = currentSlideId st
    ∧ selectedElementId st' = selectedElementId st.
Proof.
  intros Hin. unfold duplicateSlide.
  destruct (list_find (λ slide, Slide.id slide = slideId) (slides st))
    as [[i original]|] eqn:Hfind.
  - apply list_find_Some in Hfind as (Hi & Hid & Hfirst).
    unfold mbind at 1, M_bind at 1. unfold Date_now at 1.
    unfold mbind at 1, M_bind at 1. rewrite mapM_reidentified_run.
    eexists _, i, original, _.
    split; [apply (after_autoSave (isLoaded st))|].
    split; [done|]. split; [done|]. split; [exact Hfirst|].
    split; [reflexivity|]. split; [reflexivity|]. split; [reflexivity|].
    split; [reflexivity|]. split; [apply imap_copies|].
    split; [|done]. simpl. intros k e Hk.
    rewrite list_lookup_imap in Hk.
    destruct (Slide.elements original !! k) as [e0|]; [|done].
    by injection Hk as <-.
  - apply list_find_None in Hfind.
    apply list_elem_of_fmap in Hin as (s & Hs & Hin).
    eapply Forall_forall in Hfind; [|exact Hin]. done.
Qed.

Lemma duplicateSlide_inserts_copy_witness :
  let e := SlideElement.mk "e" text (Finite 0) (Finite 0) (Finite 10) (Finite 10)
             (Some "Title") None None [] in
  let st := mkState [Slide.mk "a" [e] None []; Slide.mk "b" [] None []]
                    (Some "a") None false in
  let w := mkWorld ∅ (λ n, Z.of_nat n) (λ _, "0.5") in
  ∃ st' i original dup,
    (duplicateSlide "a" st w).1 = Returned st'
    ∧ slides st !! i = Some original
    ∧ Slide.id original = "a"
    ∧ (∀ j s, slides st !! j = Some s → (j < i)%nat → Slide.id s ≠ "a")
    ∧ slides st' = take (S i) (slides st) ++ dup :: drop (S i) (slides st)
    ∧ Slide.id dup = "slide-" +:+ pretty (clock w 0%nat)
    ∧ Slide.backgroundColor dup = Slide.backgroundColor original
    ∧ Slide.extra dup = []
    ∧ Forall2 copy_of (Slide.elements original) (Slide.elements dup)
    ∧ (∀ k e, Slide.elements dup !! k = Some e →
              SlideElement.id e
              = "element-" +:+ pretty (clock w (S k)) +:+ "-" +:+ entropy w k)
    ∧ currentSlideId st' = currentSlideId st
    ∧ selectedElementId st' = selectedElementId st.
Proof.
  intros e st w.
  apply (duplicateSlide_inserts_copy "a" st w).
  simpl. apply list_elem_of_here.
Defined.

(** X5. When no slide has the id, [duplicateSlide] does nothing at all: the
    state is the same, nothing is saved and neither the clock nor the random
    source is read. *)
Theorem duplicateSlide_unknown (slideId : string) (st : State) (w : World) :
  slideId ∉ map Slide.id (slides st) →
  duplicateSlide slideId st w = (Returned st, w).
Proof.
  intros Hnot. unfold duplicateSlide.
  destruct (list_find (λ slide, Slide.id slide = slideId) (slides st))
    as [[i original]|] eqn:Hfind; [|done].
  apply list_find_Some in Hfind as (Hi & Hid & _).
  exfalso. apply Hnot. apply list_elem_of_fmap. exists original.
  split; [done|]. by eapply list_elem_of_lookup_2.
Qed.

Lemma duplicateSlide_unknown_witness :
  let st := mkState [Slide.mk "a" [] None []] (Some "a") None true in
  let w := mkWorld ∅ (λ _, 7) (λ _, "0.5") in
  duplicateSlide "zz" st w = (Returned st, w).
Proof.
  intros st w. apply (duplicateSlide_unknown "zz" st w).
  simpl. intros Hin. apply list_elem_of_singleton in Hin. discriminate Hin.
Defined.

Lemma reinsert_at {A} (l : list A) (i : nat) (x : A) :
  l !! i = Some x →
  take i (delete i l) ++ x :: drop i (delete i l) = l.
Proof.
  intros Hi. pose proof (lookup_lt_Some _ _ _ Hi) as Hlt.
  rewrite delete_take_drop.
  rewrite take_app_length' by (rewrite length_take; lia).
  rewrite drop_app_length' by (rewrite length_take; lia).
  by apply take_drop_middle.
Qed.

(** X6. Moving a slide and moving it back: for a drag index and a hover
    index inside the sequence, [reorderSlides] puts the dragged slide at the
    hover index, and [reorderSlides] with the two indices exchanged then
    gives the original sequence back. *)
Theorem reorderSlides_there_and_back (dragIndex hoverIndex : nat) (st : State)
    (w : World) (dragged : Slide.t) :
  slides st !! dragIndex = Some dragged →
  (hoverIndex < length (slides st))%nat →
  ∃ st1 w1 st2,
    reorderSlides dragIndex hoverIndex st w = (Returned (Some st1), w1)
    ∧ slides st1 !! hoverIndex = Some dragged
    ∧ length (slides st1) = length (slides st)
    ∧ (reorderSlides hoverIndex dragIndex st1 w1).1 = Returned (Some st2)
    ∧ slides st2 = slides st.
Proof.
  intros Hdrag Hhover. pose proof (lookup_lt_Some _ _ _ Hdrag) as Hlt.
  assert (length (take hoverIndex (delete dragIndex (slides st))) = hoverIndex)
    as Hlen.
  { rewrite length_take, length_delete by eauto. lia. }
  unfold reorderSlides at 1. rewrite Hdrag.
  run_saving w1 Hst.
  eexists _, w1, _. split; [reflexivity|]. simpl.
  assert ((take hoverIndex (delete dragIndex (slides st))
           ++ dragged :: drop hoverIndex (delete dragIndex (slides st)))
          !! hoverIndex = Some dragged) as Hlanded.
  { by apply list_lookup_middle. }
  split; [exact Hlanded|]. split.
  { rewrite length_app. simpl. rewrite length_take, length_drop, length_delete
      by eauto. lia. }
  unfold reorderSlides. simpl. rewrite Hlanded.
  split; [apply (after_autoSave (isLoaded st))|]. simpl.
  assert (delete hoverIndex
            (take hoverIndex (delete dragIndex (slides st))
             ++ dragged :: drop hoverIndex (delete dragIndex (slides st)))
          = delete dragIndex (slides st)) as ->.
  { transitivity
      (delete (length (take hoverIndex (delete dragIndex (slides st))))
         (take hoverIndex (delete dragIndex (slides st))
          ++ dragged :: drop hoverIndex (delete dragIndex (slides st))));
      [by rewrite Hlen|].
    rewrite delete_middle. apply take_drop. }
  by apply reinsert_at.
Qed.

Lemma reorderSlides_there_and_back_witness :
  let a := Slide.mk "a" [] None [] in
  let b := Slide.mk "b" [] None [] in
  let c := Slide.mk "c" [] None [] in
  let st := mkState [a; b; c] (Some "a") None true in
  let w := mkWorld ∅ (λ _, 7) (λ _, "0.5") in
  ∃ st1 w1 st2,
    reorderSlides 0 2 st w = (Returned (Some st1), w1)
    ∧ slides st1 !! 2%nat = Some a
    ∧ length (slides st1) = length (slides st)
    ∧ (reorderSlides 2 0 st1 w1).1 = Returned (Some st2)
    ∧ slides st2 = slides st.
Proof.
  intros a b c st w.
  apply (reorderSlides_there_and_back 0 2 st w a).
  - reflexivity.
  - simpl. lia.
Defined.

(** ** Elements *)

Lemma with_elements_same (slide : Slide.t) :
  Slide.with_elements slide (Slide.elements slide) = slide.
Proof. by destruct slide. Qed.

Lemma map_same {A} (f : A → A) (l : list A) :
  (∀ x, x ∈ l → f x = x) → map f l = l.
Proof.
  induction l as [|a l IH]; intros Hf; [done|]. simpl.
  rewrite Hf by apply list_elem_of_here.
  f_equal. apply IH. intros x Hx. by apply Hf, list_elem_of_further.
Qed.

Lemma filter_keeps_all {A} (P : A → Prop) `{!∀ x, Decision (P x)} (l : list A) :
  (∀ x, x ∈ l → P x) → filter P l = l.
Proof.
  induction l as [|a l IH]; intros HP; [done|].
  rewrite filter_cons_True by apply HP, list_elem_of_here.
  f_equal. apply IH. intros x Hx. by apply HP, list_elem_of_further.
Qed.

(** X7. Adding an element and deleting it again: when no element of the
    slides with the id has the id of the new element, [addElement] followed by
    [deleteElement] of that id gives the slide sequence back; the element
    selection is then empty. *)
Theorem addElement_then_deleteElement (slideId : string)
    (element : SlideElement.t) (st : State) (w : World) :
  (∀ slide e, slide ∈ slides st → Slide.id slide = slideId →
              e ∈ Slide.elements slide →
              SlideElement.id e ≠ SlideElement.id element) →
  ∃ st1 w1 st2,
    addElement slideId element st w = (Returned st1, w1)
    ∧ selectedElementId st1 = Some (SlideElement.id element)
    ∧ (deleteElement slideId (SlideElement.id element) st1 w1).1 = Returned st2
    ∧ slides st2 = slides st
    ∧ selectedElementId st2 = None.
Proof.
  intros Hfresh. unfold addElement.
  run_saving w1 Hst. eexists _, w1, _.
  split; [reflexivity|]. split; [reflexivity|].
  split; [apply (after_autoSave (isLoaded st))|]. split; [|reflexivity]. simpl.
  rewrite <- list_fmap_compose. apply map_same. intros slide Hslide. simpl.
  destruct (decide (Slide.id slide = slideId)) as [Hid|Hid]; simpl.
  - rewrite decide_True by done. simpl. rewrite filter_app.
    rewrite filter_keeps_all by (intros e He; by eapply Hfresh).
    rewrite filter_cons_False by (simpl; tauto).
    rewrite filter_nil, app_nil_r. by destruct slide.
  - by rewrite decide_False.
Qed.

Lemma addElement_then_deleteElement_witness :
  let a := SlideElement.mk "a" shape (Finite 0) (Finite 0) (Finite 10) (Finite 10)
             None None None [] in
  let b := SlideElement.mk "b" text (Finite 5) (Finite 5) (Finite 10) (Finite 10)
             (Some "Title") None None [] in
  let st := mkState [Slide.mk "s" [a] None []] (Some "s") None true in
  let w := mkWorld ∅ (λ _, 7) (λ _, "0.5") in
  ∃ st1 w1 st2,
    addElement "s" b st w = (Returned st1, w1)
    ∧ selectedElementId st1 = Some (SlideElement.id b)
    ∧ (deleteElement "s" (SlideElement.id b) st1 w1).1 = Returned st2
    ∧ slides st2 = slides st
    ∧ selectedElementId st2 = None.
Proof.
  intros a b st w.
  apply (addElement_then_deleteElement "s" b st w).
  intros slide e Hslide _ He.
  apply list_elem_of_singleton in Hslide as ->.
  apply list_elem_of_singleton in He as ->. discriminate.
Defined.

(** X8. [addElement] on a slide id that no slide has changes no slide, and
    still makes the element the selected one. *)
Theorem addElement_unknown_slide (slideId : string) (element : SlideElement.t)
    (st : State) (w : World) :
  slideId ∉ map Slide.id (slides st) →
  (addElement slideId element st w).1 =
    Returned (mkState (slides st) (currentSlideId st)
                      (Some (SlideElement.id element)) (isLoaded st)).
Proof.
  intros Hnot. unfold addElement.
  rewrite (after_autoSave (isLoaded st)). do 2 f_equal.
  apply map_same. intros slide Hslide.
  rewrite decide_False; [done|]. intros Hid. apply Hnot.
  apply list_elem_of_fmap. by exists slide.
Qed.

Lemma addElement_unknown_slide_witness :
  let e := SlideElement.mk "e" text (Finite 0) (Finite 0) (Finite 10) (Finite 10)
             (Some "Title") None None [] in
  let w := mkWorld ∅ (λ _, 7) (λ _, "0.5") in
  (addElement "gone" e initialState w).1 =
    Returned (mkState (slides initialState) (currentSlideId initialState)
                      (Some "e") (isLoaded initialState)).
Proof.
  intros e w. apply (addElement_unknown_slide "gone" e initialState w).
  simpl. intros Hin. apply list_elem_of_singleton in Hin. discriminate Hin.
Defined.

(** X9. An update, a deletion or a change of stacking order that matches no
    element leaves every slide as it is: this covers an unknown slide id, an
    unknown element id, and a slide without elements, where the maximum and
    minimum over no elements are never stored. *)
Theorem unmatched_element_operations (slideId elementId : string)
    (updates : Updates.t) (st : State) (w : World) :
  (∀ slide e, slide ∈ slides st → Slide.id slide = slideId →
              e ∈ Slide.elements slide → SlideElement.id e ≠ elementId) →
  (∃ st', (updateElement slideId elementId updates st w).1 = Returned st'
          ∧ slides st' = slides st)
  ∧ (∃ st', (deleteElement slideId elementId st w).1 = Returned st'
            ∧ slides st' = slides st)
  ∧ (∃ st', (bringToFront slideId elementId st w).1 = Returned st'
            ∧ slides st' = slides st)
  ∧ (∃ st', (sendToBack slideId elementId st w).1 = Returned st'
            ∧ slides st' = slides st).
Proof.
  intros Hnone. repeat apply conj.
  - eexists. split; [apply (after_autoSave (isLoaded st))|]. simpl.
    apply map_same. intros slide Hslide. case_decide; [|done].
    rewrite map_same; [apply with_elements_same|].
    intros e He. rewrite decide_False; [done|]. by eapply Hnone.
  - eexists. split; [apply (after_autoSave (isLoaded st))|]. simpl.
    apply map_same. intros slide Hslide. case_decide; [|done].
    rewrite filter_keeps_all; [apply with_elements_same|].
    intros e He. by eapply Hnone.
  - destruct (bringToFront_run slideId elementId st w) as (w' & ->).
    eexists. split; [done|]. simpl.
    apply map_same. intros slide Hslide. unfold bringToFront_slide.
    case_decide as Hid; [done|].
    rewrite map_same; [apply with_elements_same|].
    intros e He. rewrite decide_False; [done|].
    eapply Hnone; [done| |done]. by destruct (decide (Slide.id slide = slideId)).
  - destruct (sendToBack_run slideId elementId st w) as (w' & ->).
    eexists. split; [done|]. simpl.
    apply map_same. intros slide Hslide. unfold sendToBack_slide.
    case_decide as Hid; [done|].
    rewrite map_same; [apply with_elements_same|].
    intros e He. rewrite decide_False; [done|].
    eapply Hnone; [done| |done]. by destruct (decide (Slide.id slide = slideId)).
Qed.

Lemma unmatched_element_operations_witness :
  let st := mkState [Slide.mk "s" [] None []] (Some "s") None true in
  let w := mkWorld ∅ (λ _, 7) (λ _, "0.5") in
  let updates :=
    Updates.mk None None None None None None (Some (Some "x")) None None [] in
  (∃ st', (updateElement "s" "e" updates st w).1 = Returned st'
          ∧ slides st' = slides st)
  ∧ (∃ st', (deleteElement "s" "e" st w).1 = Returned st'
            ∧ slides st' = slides st)
  ∧ (∃ st', (bringToFront "s" "e" st w).1 = Returned st'
            ∧ slides st' = slides st)
  ∧ (∃ st', (sendToBack "s" "e" st w).1 = Returned st'
            ∧ slides st' = slides st).
Proof.
  intros st w updates.
  apply (unmatched_element_operations "s" "e" updates st w).
  intros slide e Hslide _ He.
  apply list_elem_of_singleton in Hslide as ->. by apply elem_of_nil in He.
Defined.

(** ** Stacking order and paint order *)

Lemma safe_bounds :
  - MAX_SAFE_INTEGER ≤ MAX_SAFE_INTEGER
  ∧ - 2 ^ 53 ≤ - MAX_SAFE_INTEGER + 1
  ∧ MAX_SAFE_INTEGER + 1 ≤ 2 ^ 53
  ∧ - 2 ^ 53 ≤ - MAX_SAFE_INTEGER - 1
  ∧ MAX_SAFE_INTEGER - 1 ≤ 2 ^ 53.
Proof. unfold MAX_SAFE_INTEGER. lia. Qed.

(** X10. One call is enough: on slides whose [zIndex] values are safe
    integers, [bringToFront] and [sendToBack] keep the ids of the slides and
    of their elements, and [bringToFront] leaves the element strictly above,
    [sendToBack] strictly below, every element of the slide with another
    id. *)
Theorem one_call_reaches_the_end (slideId elementId : string) (st : State)
    (w : World) :
  (∀ slide, slide ∈ slides st → Slide.id slide = slideId →
            Forall safe_zIndex (Slide.elements slide)) →
  (∃ st', (bringToFront slideId elementId st w).1 = Returned st'
          ∧ map Slide.id (slides st') = map Slide.id (slides st)
          ∧ element_ids st' = element_ids st
          ∧ ∀ slide e other,
              slide ∈ slides st' → Slide.id slide = slideId →
              e ∈ Slide.elements slide → other ∈ Slide.elements slide →
              SlideElement.id e = elementId →
              SlideElement.id other ≠ elementId →
              ∃ z, SlideElement.zIndex e = Some z
                   ∧ number_gtb z (stacking_order other) = true)
  ∧ (∃ st', (sendToBack slideId elementId st w).1 = Returned st'
            ∧ map Slide.id (slides st') = map Slide.id (slides st)
            ∧ element_ids st' = element_ids st
            ∧ ∀ slide e other,
                slide ∈ slides st' → Slide.id slide = slideId →
                e ∈ Slide.elements slide → other ∈ Slide.elements slide →
                SlideElement.id e = elementId →
                SlideElement.id other ≠ elementId →
                ∃ z, SlideElement.zIndex e = Some z
                     ∧ number_ltb z (stacking_order other) = true).
Proof.
  intros Hsafe.
  destruct safe_bounds as (Hrange & Hlo & Hhi & Hlo' & Hhi').
  split.
  - destruct (bringToFront_run slideId elementId st w) as (w' & ->).
    eexists. split; [done|]. cbn [slides]. split; [|split].
    + rewrite map_map. apply map_ext. intros slide.
      apply bringToFront_slide_id.
    + unfold element_ids. cbn [slides]. rewrite map_map. apply map_ext.
      intros slide. apply bringToFront_slide_ids.
    + intros slide e other Hslide Hid He Ho Heid Hoid.
      apply list_elem_of_fmap in Hslide as (s0 & -> & Hs0).
      rewrite bringToFront_slide_id in Hid.
      by apply (bringToFront_slide_on_top (- MAX_SAFE_INTEGER)
                  MAX_SAFE_INTEGER slideId elementId s0 e other);
        [| | | |apply Hsafe|..].
  - destruct (sendToBack_run slideId elementId st w) as (w' & ->).
    eexists. split; [done|]. cbn [slides]. split; [|split].
    + rewrite map_map. apply map_ext. intros slide.
      apply sendToBack_slide_id.
    + unfold element_ids. cbn [slides]. rewrite map_map. apply map_ext.
      intros slide. apply sendToBack_slide_ids.
    + intros slide e other Hslide Hid He Ho Heid Hoid.
      apply list_elem_of_fmap in Hslide as (s0 & -> & Hs0).
      rewrite sendToBack_slide_id in Hid.
      by apply (sendToBack_slide_at_bottom (- MAX_SAFE_INTEGER)
                  MAX_SAFE_INTEGER slideId elementId s0 e other);
        [| | | |apply Hsafe|..].
Qed.

Lemma one_call_reaches_the_end_witness :
  let a := SlideElement.mk "a" shape (Finite 0) (Finite 0) (Finite 10) (Finite 10)
             None None (Some (Finite 3)) [] in
  let b := SlideElement.mk "b" shape (Finite 5) (Finite 5) (Finite 10) (Finite 10)
             None None None [] in
  let st := mkState [Slide.mk "s" [a; b] None []] (Some "s") (Some "b") false in
  let w := mkWorld ∅ (λ _, 7) (λ _, "0.5") in
  (∃ st', (bringToFront "s" "b" st w).1 = Returned st'
          ∧ map Slide.id (slides st') = map Slide.id (slides st)
          ∧ element_ids st' = element_ids st
          ∧ ∀ slide e other,
              slide ∈ slides st' → Slide.id slide = "s" →
              e ∈ Slide.elements slide → other ∈ Slide.elements slide →
              SlideElement.id e = "b" →
              SlideElement.id other ≠ "b" →
              ∃ z, SlideElement.zIndex e = Some z
                   ∧ number_gtb z (stacking_order other) = true)
  ∧ (∃ st', (sendToBack "s" "b" st w).1 = Returned st'
            ∧ map Slide.id (slides st') = map Slide.id (slides st)
            ∧ element_ids st' = element_ids st
            ∧ ∀ slide e other,
                slide ∈ slides st' → Slide.id slide = "s" →
                e ∈ Slide.elements slide → other ∈ Slide.elements slide →
                SlideElement.id e = "b" →
                SlideElement.id other ≠ "b" →
                ∃ z, SlideElement.zIndex e = Some z
                     ∧ number_ltb z (stacking_order other) = true).
Proof.
  intros a b st w.
  apply (one_call_reaches_the_end "s" "b" st w).
  intros slide Hin _.
  apply list_elem_of_singleton in Hin as ->.
  repeat constructor; vm_compute; intuition discriminate.
Defined.

(** X11. [bringToFront] is not idempotent: on a slide with safe-integer
    [zIndex] values it gives the element a [zIndex] strictly greater than
    the stacking order the element had, also when the element was on top
    already, so repeated calls keep raising it. *)
Theorem bringToFront_always_raises (slideId elementId : string) (st : State)
    (w : World) (i j : nat) (slide : Slide.t) (e : SlideElement.t) :
  slides st !! i = Some slide → Slide.id slide = slideId →
  Forall safe_zIndex (Slide.elements slide) →
  Slide.elements slide !! j = Some e →
  SlideElement.id e = elementId →
  ∃ st' slide' z,
    (bringToFront slideId elementId st w).1 = Returned st'
    ∧ slides st' !! i = Some slide'
    ∧ Slide.elements slide' !! j = Some (SlideElement.with_zIndex e z)
    ∧ number_gtb z (stacking_order e) = true.
Proof.
  intros Hi Hid Hsafe Hj Heid.
  destruct safe_bounds as (Hrange & Hlo & Hhi & _).
  destruct (bringToFront_run slideId elementId st w) as (w' & ->).
  destruct (bringToFront_slide_raised (- MAX_SAFE_INTEGER) MAX_SAFE_INTEGER
              slideId elementId slide Hid Hrange Hlo Hhi Hsafe)
    as (m & Hm & Hle & Hraised).
  eexists _, (bringToFront_slide slideId elementId slide), (Finite (m + 1)).
  split; [done|]. cbn [slides].
  split; [by rewrite list_lookup_fmap, Hi|].
  rewrite Hraised, list_lookup_fmap, Hj. cbn [fmap option_fmap option_map].
  rewrite decide_True by done. split; [done|].
  assert (e ∈ Slide.elements slide) as He by by eapply list_elem_of_lookup_2.
  destruct (between_order _ _ e (proj1 (Forall_forall _ _) Hsafe e He))
    as (_ & -> & _).
  apply (proj1 (Forall_forall _ _) Hle) in He.
  unfold number_gtb. cbn [number_ltb]. apply Z.ltb_lt. lia.
Qed.

Lemma bringToFront_always_raises_witness :
  let a := SlideElement.mk "a" shape (Finite 0) (Finite 0) (Finite 10) (Finite 10)
             None None (Some (Finite 3)) [] in
  let st := mkState [Slide.mk "s" [a] None []] (Some "s") (Some "a") false in
  let w := mkWorld ∅ (λ _, 7) (λ _, "0.5") in
  ∃ st' slide' z,
    (bringToFront "s" "a" st w).1 = Returned st'
    ∧ slides st' !! 0%nat = Some slide'
    ∧ Slide.elements slide' !! 0%nat = Some (SlideElement.with_zIndex a z)
    ∧ number_gtb z (stacking_order a) = true.
Proof.
  intros a st w.
  apply (bringToFront_always_raises "s" "a" st w 0 0 (Slide.mk "s" [a] None []) a).
  - reflexivity.
  - reflexivity.
  - repeat constructor; vm_compute; intuition discriminate.
  - reflexivity.
  - reflexivity.
Defined.

Lemma order_of_integer (el : SlideElement.t) :
  integer_zIndex el →
  zIndex_or_0 el = Finite (order_of el)
  ∧ stacking_order el = Finite (order_of el).
Proof.
  intros Hint. destruct (zIndex_or_0_integer el Hint) as (z & Hz & Hs).
  unfold order_of. by rewrite Hz, Hs.
Qed.

Lemma by_zIndex_integer (y x : SlideElement.t) :
  integer_zIndex y → integer_zIndex x →
  number_gtb (by_zIndex y x) (Finite 0) = (order_of x <? order_of y).
Proof.
  intros [Hy _]%order_of_integer [Hx _]%order_of_integer.
  unfold by_zIndex, number_gtb. rewrite Hy, Hx. cbn [number_sub].
  rewrite round_to_double_sign.
  destruct (Z.ltb_spec 0 (order_of y - order_of x)),
    (Z.ltb_spec (order_of x) (order_of y)); (done || lia).
Qed.

Lemma sort_insert_Permutation {A} (compare : A → A → number) (x : A)
    (sorted : list A) :
  sort_insert compare x sorted ≡ₚ x :: sorted.
Proof.
  induction sorted as [|y rest IH]; cbn [sort_insert]; [done|].
  destruct (number_gtb (compare y x) (Finite 0)); [reflexivity|].
  rewrite IH. apply Permutation_swap.
Qed.

Lemma sort_insert_ascending (x : SlideElement.t) (sorted : list SlideElement.t) :
  integer_zIndex x → Forall integer_zIndex sorted →
  ascending sorted → ascending (sort_insert by_zIndex x sorted).
Proof.
  unfold ascending. intros Hx Hint Hsorted.
  induction Hsorted as [|y rest Hrest IH Hy]; cbn [sort_insert].
  - repeat constructor.
  - apply Forall_cons in Hint as [Hyint Hint].
    rewrite by_zIndex_integer by done.
    destruct (Z.ltb_spec (order_of x) (order_of y)) as [Hlt|Hge].
    + constructor; [by constructor|].
      constructor; [lia|]. eapply Forall_impl; [exact Hy|].
      intros e He. simpl in *. lia.
    + constructor; [by apply IH|].
      rewrite sort_insert_Permutation. by constructor.
Qed.

Lemma filter_drops_all {A} (P : A → Prop) `{!∀ x, Decision (P x)} (l : list A) :
  Forall (λ x, ¬ P x) l → filter P l = [].
Proof.
  induction 1 as [|x l Hx _ IH]; [done|]. by rewrite filter_cons_False.
Qed.

Lemma sort_insert_stable (k : Z) (x : SlideElement.t)
    (sorted : list SlideElement.t) :
  integer_zIndex x → Forall integer_zIndex sorted → ascending sorted →
  filter (λ e, order_of e = k) (sort_insert by_zIndex x sorted)
  = filter (λ e, order_of e = k) sorted ++ filter (λ e, order_of e = k) [x].
Proof.
  unfold ascending. intros Hx Hint Hsorted.
  induction Hsorted as [|y rest Hrest IH Hy]; cbn [sort_insert]; [done|].
  apply Forall_cons in Hint as [Hyint Hint].
  rewrite by_zIndex_integer by done.
  destruct (Z.ltb_spec (order_of x) (order_of y)) as [Hlt|Hge].
  - destruct (decide (order_of x = k)) as [Hk|Hk].
    + rewrite (filter_cons_True _ x) by done.
      assert (filter (λ e, order_of e = k) (y :: rest) = []) as ->.
      { apply filter_drops_all. constructor; [simpl; lia|].
        eapply Forall_impl; [exact Hy|]. intros e He. simpl in *. lia. }
      by rewrite filter_cons_True by done.
    + rewrite (filter_cons_False _ x) by done.
      rewrite (filter_cons_False _ x []) by done.
      by rewrite filter_nil, app_nil_r.
  - rewrite !(filter_cons _ y), (IH Hint).
    by destruct (decide (order_of y = k)).
Qed.

Lemma sort_insert_integer (x : SlideElement.t) (sorted : list SlideElement.t) :
  integer_zIndex x → Forall integer_zIndex sorted →
  Forall integer_zIndex (sort_insert by_zIndex x sorted).
Proof.
  intros Hx Hint. rewrite sort_insert_Permutation. by constructor.
Qed.

Lemma insertion_sorts (k : Z) (items acc : list SlideElement.t) :
  Forall integer_zIndex items → Forall integer_zIndex acc → ascending acc →
  let result := foldl (λ sorted x, sort_insert by_zIndex x sorted) acc items in
  result ≡ₚ acc ++ items
  ∧ ascending result
  ∧ filter (λ e, order_of e = k) result
    = filter (λ e, order_of e = k) acc ++ filter (λ e, order_of e = k) items.
Proof.
  revert acc. induction items as [|x items IH]; intros acc Hitems Hacc Hasc;
    simpl.
  - by rewrite app_nil_r, filter_nil, app_nil_r.
  - apply Forall_cons in Hitems as [Hx Hitems].
    destruct (IH (sort_insert by_zIndex x acc) Hitems
                 (sort_insert_integer x acc Hx Hacc)
                 (sort_insert_ascending x acc Hx Hacc Hasc))
      as (Hperm & Hsorted & Hstable).
    split; [|split; [done|]].
    + rewrite Hperm, sort_insert_Permutation. simpl.
      apply Permutation_middle.
    + rewrite Hstable, sort_insert_stable by done.
      rewrite <- app_assoc. f_equal.
      rewrite (filter_cons _ x items), (filter_cons _ x []), filter_nil.
      by destruct (decide (order_of x = k)).
Qed.

(** X12. The paint order of a slide whose [zIndex] values are integers: the
    sorted elements are the elements of the slide, each once, in ascending
    stacking order, and elements with the same stacking order keep the order
    they have in the slide. *)
Theorem paint_order (slide : Slide.t) :
  Forall integer_zIndex (Slide.elements slide) →
  sortedElements slide ≡ₚ Slide.elements slide
  ∧ ascending (sortedElements slide)
  ∧ ∀ k, filter (λ e, order_of e = k) (sortedElements slide)
         = filter (λ e, order_of e = k) (Slide.elements slide).
Proof.
  intros Hint. unfold sortedElements, Array_sort.
  split; [|split].
  - by destruct (insertion_sorts 0 (Slide.elements slide) [] Hint)
      as (? & _ & _); [constructor|constructor|].
  - by destruct (insertion_sorts 0 (Slide.elements slide) [] Hint)
      as (_ & ? & _); [constructor|constructor|].
  - intros k.
    by destruct (insertion_sorts k (Slide.elements slide) [] Hint)
      as (_ & _ & ?); [constructor|constructor|].
Qed.

Lemma paint_order_witness :
  let a := SlideElement.mk "a" shape (Finite 0) (Finite 0) (Finite 10) (Finite 10)
             None None (Some (Finite 3)) [] in
  let b := SlideElement.mk "b" shape (Finite 5) (Finite 5) (Finite 10) (Finite 10)
             None None None [] in
  let c := SlideElement.mk "c" shape (Finite 5) (Finite 5) (Finite 10) (Finite 10)
             None None (Some (Finite 3)) [] in
  let slide := Slide.mk "s" [a; b; c] None [] in
  sortedElements slide ≡ₚ Slide.elements slide
  ∧ ascending (sortedElements slide)
  ∧ ∀ k, filter (λ e, order_of e = k) (sortedElements slide)
         = filter (λ e, order_of e = k) (Slide.elements slide).
Proof.
  intros a b c slide. apply (paint_order slide). repeat constructor.
Defined.

Lemma last_is_greatest (els : list SlideElement.t) (top : SlideElement.t) :
  ascending els → last els = Some top →
  Forall (λ e, order_of e ≤ order_of top) els.
Proof.
  unfold ascending. intros Hasc Hlast.
  induction Hasc as [|y rest Hrest IH Hy]; [done|].
  destruct rest as [|y' rest'].
  - injection Hlast as ->. by repeat constructor.
  - rewrite last_cons_cons in Hlast. specialize (IH Hlast).
    constructor; [|done].
    eapply Forall_forall in Hy; [exact Hy|]. by apply last_Some_elem_of.
Qed.

Lemma head_is_least (els : list SlideElement.t) (bottom : SlideElement.t) :
  ascending els → head els = Some bottom →
  Forall (λ e, order_of bottom ≤ order_of e) els.
Proof.
  unfold ascending. intros Hasc Hhead.
  destruct Hasc as [|y rest Hrest Hy]; [done|].
  injection Hhead as ->. constructor; [lia|done].
Qed.

(** X13. What [bringToFront] and [sendToBack] mean on the canvas: on slides
    with safe-integer [zIndex] values both keep the ids of the elements of
    every slide, after [bringToFront] the last element in the paint order of
    the slide (the one drawn on top) has the given id, and after
    [sendToBack] the first one has it, whenever the slide has an element
    with that id. *)
Theorem front_is_painted_last (slideId elementId : string) (st : State)
    (w : World) :
  (∀ slide, slide ∈ slides st → Slide.id slide = slideId →
            Forall safe_zIndex (Slide.elements slide)) →
  (∃ st', (bringToFront slideId elementId st w).1 = Returned st'
          ∧ element_ids st' = element_ids st
          ∧ ∀ slide e,
              slide ∈ slides st' → Slide.id slide = slideId →
              e ∈ Slide.elements slide → SlideElement.id e = elementId →
              ∃ top, last (sortedElements slide) = Some top
                     ∧ SlideElement.id top = elementId)
  ∧ (∃ st', (sendToBack slideId elementId st w).1 = Returned st'
            ∧ element_ids st' = element_ids st
            ∧ ∀ slide e,
                slide ∈ slides st' → Slide.id slide = slideId →
                e ∈ Slide.elements slide → SlideElement.id e = elementId →
                ∃ bottom, head (sortedElements slide) = Some bottom
                          ∧ SlideElement.id bottom = elementId).
Proof.
  intros Hsafe.
  destruct safe_bounds as (Hrange & Hlo & Hhi & Hlo' & Hhi').
  split.
  - destruct (bringToFront_run slideId elementId st w) as (w' & ->).
    eexists. split; [done|]. cbn [slides]. split.
    { unfold element_ids. cbn [slides]. rewrite map_map. apply map_ext.
      intros slide. apply bringToFront_slide_ids. }
    intros slide e Hslide Hid He Heid.
    apply list_elem_of_fmap in Hslide as (s0 & -> & Hs0).
    rewrite bringToFront_slide_id in Hid.
    assert (Forall integer_zIndex
              (Slide.elements (bringToFront_slide slideId elementId s0)))
      as Hint'.
    { eapply Forall_impl;
        [apply (bringToFront_slide_between (- MAX_SAFE_INTEGER)
                  MAX_SAFE_INTEGER); try done; by apply Hsafe|].
      intros el. apply between_integer. }
    destruct (insertion_sorts 0 _ [] Hint') as (Hperm & Hasc & _);
      [constructor|constructor|].
    simpl in Hperm. fold (Array_sort by_zIndex
      (Slide.elements (bringToFront_slide slideId elementId s0))) in Hperm, Hasc.
    fold (sortedElements (bringToFront_slide slideId elementId s0)) in Hperm, Hasc.
    destruct (last (sortedElements (bringToFront_slide slideId elementId s0)))
      as [top|] eqn:Hlast.
    + exists top. split; [done|].
      destruct (decide (SlideElement.id top = elementId)) as [|Hne]; [done|].
      exfalso.
      assert (top ∈ Slide.elements (bringToFront_slide slideId elementId s0))
        as Htop by (rewrite <- Hperm; by apply last_Some_elem_of).
      destruct (bringToFront_slide_on_top (- MAX_SAFE_INTEGER)
                  MAX_SAFE_INTEGER slideId elementId s0 e top)
        as (z & Hz & Hgt); [done|done|done|done|by apply Hsafe|done..|].
      pose proof (last_is_greatest _ top Hasc Hlast) as Hle.
      assert (e ∈ sortedElements (bringToFront_slide slideId elementId s0))
        as Hes by (by rewrite Hperm).
      apply (proj1 (Forall_forall _ _) Hle) in Hes. rename Hes into Hle'.
      destruct (order_of_integer e) as [_ Hoe];
        [by eapply Forall_forall in Hint'|].
      destruct (order_of_integer top) as [_ Hot];
        [by eapply Forall_forall in Hint'|].
      unfold stacking_order in Hoe. rewrite Hz in Hoe. simpl in Hoe.
      rewrite Hoe, Hot in Hgt. unfold number_gtb in Hgt. simpl in Hgt.
      apply Z.ltb_lt in Hgt. lia.
    + apply last_None in Hlast. rewrite Hlast in Hperm.
      symmetry in Hperm. apply Permutation_nil_r in Hperm.
      rewrite Hperm in He. by apply elem_of_nil in He.
  - destruct (sendToBack_run slideId elementId st w) as (w' & ->).
    eexists. split; [done|]. cbn [slides]. split.
    { unfold element_ids. cbn [slides]. rewrite map_map. apply map_ext.
      intros slide. apply sendToBack_slide_ids. }
    intros slide e Hslide Hid He Heid.
    apply list_elem_of_fmap in Hslide as (s0 & -> & Hs0).
    rewrite sendToBack_slide_id in Hid.
    assert (Forall integer_zIndex
              (Slide.elements (sendToBack_slide slideId elementId s0)))
      as Hint'.
    { eapply Forall_impl;
        [apply (sendToBack_slide_between (- MAX_SAFE_INTEGER)
                  MAX_SAFE_INTEGER); try done; by apply Hsafe|].
      intros el. apply between_integer. }
    destruct (insertion_sorts 0 _ [] Hint') as (Hperm & Hasc & _);
      [constructor|constructor|].
    simpl in Hperm. fold (Array_sort by_zIndex
      (Slide.elements (sendToBack_slide slideId elementId s0))) in Hperm, Hasc.
    fold (sortedElements (sendToBack_slide slideId elementId s0)) in Hperm, Hasc.
    destruct (head (sortedElements (sendToBack_slide slideId elementId s0)))
      as [bottom|] eqn:Hhead.
    + exists bottom. split; [done|].
      destruct (decide (SlideElement.id bottom = elementId)) as [|Hne]; [done|].
      exfalso.
      assert (bottom ∈ Slide.elements (sendToBack_slide slideId elementId s0))
        as Hbottom by (rewrite <- Hperm; by apply head_Some_elem_of).
      destruct (sendToBack_slide_at_bottom (- MAX_SAFE_INTEGER)
                  MAX_SAFE_INTEGER slideId elementId s0 e bottom)
        as (z & Hz & Hlt); [done|done|done|done|by apply Hsafe|done..|].
      pose proof (head_is_least _ bottom Hasc Hhead) as Hle.
      assert (e ∈ sortedElements (sendToBack_slide slideId elementId s0))
        as Hes by (by rewrite Hperm).
      apply (proj1 (Forall_forall _ _) Hle) in Hes. rename Hes into Hle'.
      destruct (order_of_integer e) as [_ Hoe];
        [by eapply Forall_forall in Hint'|].
      destruct (order_of_integer bottom) as [_ Hob];
        [by eapply Forall_forall in Hint'|].
      unfold stacking_order in Hoe. rewrite Hz in Hoe. simpl in Hoe.
      rewrite Hoe, Hob in Hlt. simpl in Hlt.
      apply Z.ltb_lt in Hlt. lia.
    + apply head_None in Hhead. rewrite Hhead in Hperm.
      symmetry in Hperm. apply Permutation_nil_r in Hperm.
      rewrite Hperm in He. by apply elem_of_nil in He.
Qed.

Lemma front_is_painted_last_witness :
  let a := SlideElement.mk "a" shape (Finite 0) (Finite 0) (Finite 10) (Finite 10)
             None None (Some (Finite 3)) [] in
  let b := SlideElement.mk "b" shape (Finite 5) (Finite 5) (Finite 10) (Finite 10)
             None None None [] in
  let st := mkState [Slide.mk "s" [a; b] None []] (Some "s") (Some "b") false in
  let w := mkWorld ∅ (λ _, 7) (λ _, "0.5") in
  (∃ st', (bringToFront "s" "b" st w).1 = Returned st'
          ∧ element_ids st' = element_ids st
          ∧ ∀ slide e,
              slide ∈ slides st' → Slide.id slide = "s" →
              e ∈ Slide.elements slide → SlideElement.id e = "b" →
              ∃ top, last (sortedElements slide) = Some top
                     ∧ SlideElement.id top = "b")
  ∧ (∃ st', (sendToBack "s" "b" st w).1 = Returned st'
            ∧ element_ids st' = element_ids st
            ∧ ∀ slide e,
                slide ∈ slides st' → Slide.id slide = "s" →
                e ∈ Slide.elements slide → SlideElement.id e = "b" →
                ∃ bottom, head (sortedElements slide) = Some bottom
                          ∧ SlideElement.id bottom = "b").
Proof.
  intros a b st w.
  apply (front_is_painted_last "s" "b" st w).
  intros slide Hin _.
  apply list_elem_of_singleton in Hin as ->.
  repeat constructor; vm_compute; intuition discriminate.
Defined.

(** ** Reading the stored presentation *)

Lemma isValidSlide_parsed (entry : json) :
  isValidSlide (JSON_parse_document entry) = true ↔ slide_entry entry.
Proof.
  unfold slide_entry. destruct entry as [|b|z|s|items|members].
  1-5: split; [|by intros (? & ? & ? & [=] & _)].
  1-5: unfold isValidSlide, get; cbn [JSON_parse_document from_option typeof];
    by rewrite andb_false_r.
  unfold isValidSlide. cbn [JSON_parse_document get truthy andb].
  rewrite !lookup_prop_parsed.
  split.
  - destruct (member "id" members) as [[| | |i| |]|] eqn:Hid; try done.
    destruct (member "elements" members) as [[| | | |items|]|] eqn:Hels;
      try done.
    intros _. by exists members, i, items.
  - intros (? & i & items & [= <-] & -> & ->). done.
Qed.

Lemma forallb_isValidSlide_parsed (docs : list json) :
  forallb isValidSlide (map JSON_parse_document docs) = true
  ↔ Forall slide_entry docs.
Proof.
  induction docs as [|entry docs IH]; [done|]. simpl.
  rewrite andb_true_iff, isValidSlide_parsed, IH, Forall_cons. done.
Qed.

(** X14. [loadPresentation] never throws and never writes.  It returns the
    parsed slides exactly when the storage holds the text of a JSON array
    all of whose entries are objects with a string [id] and an array
    [elements]; in every other case (nothing stored, an empty string, text
    that is not JSON, a document that is not an array, one entry of another
    shape) it returns [null]. *)
Theorem loadPresentation_all_or_nothing (w : World) :
  ∃ r,
    loadPresentation w = (Returned r, w)
    ∧ ∀ slides,
        r = Some slides
        ↔ ∃ docs,
            localStorage w !! PRESENTATION_STORAGE_KEY
            = Some (document (JArray docs))
            ∧ Forall slide_entry docs
            ∧ slides = map JSON_parse_document docs.
Proof.
  unfold loadPresentation, try_catch, mbind, M_bind, getItem.
  destruct (localStorage w !! PRESENTATION_STORAGE_KEY) as [[j|s]|] eqn:Hstored;
    simpl.
  - destruct j as [|b|z|s|docs|members]; simpl;
      try (exists None; split; [done|];
           intros slides; split; [done|]; by intros (? & [=] & _)).
    destruct (forallb isValidSlide (map JSON_parse_document docs)) eqn:Hvalid;
      simpl.
    + eexists. split; [done|]. intros slides. split.
      * intros [= <-]. exists docs. split; [done|].
        split; [by apply forallb_isValidSlide_parsed|done].
      * by intros (? & [= <-] & _ & ->).
    + exists None. split; [done|]. intros slides. split; [done|].
      intros (? & [= <-] & Hall & _).
      apply forallb_isValidSlide_parsed in Hall. congruence.
  - destruct (negb (negb (String.eqb s ""))); simpl;
      (exists None; split; [done|];
       intros slides; split; [done|]; by intros (? & [=] & _)).
  - exists None. split; [done|].
    intros slides. split; [done|]. by intros (? & [=] & _).
Qed.

(** Of two members of one name the last is read: the entry below has the
    string id ["a"], and the array is loaded. *)
Example loadPresentation_reads_last_member :
  let entry := JObject [("id", JNumber 1); ("id", JString "a");
                        ("elements", JArray [])] in
  let w := mkWorld {[PRESENTATION_STORAGE_KEY := document (JArray [entry])]}
                   (λ _, 7) (λ _, "0.5") in
  loadPresentation w =
    (Returned (Some [VObject [("id", VString "a"); ("elements", VArray [])]]),
     w).
Proof. reflexivity. Qed.

(** ** Mounting the store *)

Lemma forallb_isValidSlide_to_value (S : list Slide.t) :
  forallb isValidSlide (map Slide.to_value S) = true.
Proof.
  induction S as [|s S IH]; [done|].
  change (isValidSlide (Slide.to_value s)
          && forallb isValidSlide (map Slide.to_value S) = true).
  by rewrite isValidSlide_to_value.
Qed.

Lemma reduced_slides_clean (S : list Slide.t) :
  Forall (λ s, Slide.finite s = true) S →
  forallb json_clean (map Slide.to_value (map reduced S)) = true.
Proof.
  induction 1 as [|s S Hs _ IH]; [done|].
  change (json_clean (Slide.to_value (reduced s))
          && forallb json_clean (map Slide.to_value (map reduced S)) = true).
  by rewrite (reduced_clean s Hs), IH.
Qed.

Lemma filter_nonempty_ids (S : list Slide.t) :
  Forall (λ s, Slide.id s ≠ "") S → filter (λ s, Slide.id s ≠ "") S = S.
Proof.
  induction 1 as [|s S Hs _ IH]; [done|].
  rewrite filter_cons_True by done. by rewrite IH.
Qed.

(** Loading what [savePresentation] stored for slides with finite numbers
    and ids that are not empty. *)
Lemma loadPresentation_persisted (S : list Slide.t) (w : World) :
  localStorage w !! PRESENTATION_STORAGE_KEY = Some (persisted S) →
  Forall (λ s, Slide.id s ≠ "") S →
  Forall (λ s, Slide.finite s = true) S →
  loadPresentation w = (Returned (Some (map Slide.to_value (map reduced S))), w).
Proof.
  intros Hstored Hids Hfin.
  unfold persisted in Hstored. simpl in Hstored.
  rewrite (loadPresentation_stored _ w Hstored).
  rewrite sanitizeSlidesForStorage_reduced, (filter_nonempty_ids S Hids).
  rewrite parse_stringify_clean_items by by apply reduced_slides_clean.
  by rewrite forallb_isValidSlide_to_value.
Qed.

Lemma reduced_idempotent (s : Slide.t) : reduced (reduced s) = reduced s.
Proof.
  unfold reduced. cbn [Slide.id Slide.elements Slide.backgroundColor].
  f_equal. rewrite map_map. by apply map_ext.
Qed.

(** Saving the stripped slides stores what saving the slides stores. *)
Lemma persisted_reduced (S : list Slide.t) :
  Forall (λ s, Slide.id s ≠ "") S → persisted (map reduced S) = persisted S.
Proof.
  intros Hids. unfold persisted.
  rewrite !sanitizeSlidesForStorage_reduced.
  rewrite (filter_nonempty_ids S Hids), filter_nonempty_ids.
  - do 4 f_equal. rewrite map_map. apply map_ext. apply reduced_idempotent.
  - apply Forall_forall. intros s (s0 & -> & Hs0)%list_elem_of_fmap.
    by apply (proj1 (Forall_forall _ _) Hids) in Hs0.
Qed.

(** X15. A mounting store takes over the stored presentation.  When the
    storage holds what was saved for a state with at least one slide, ids
    that are not empty and finite numbers, the mount effect sets the slides
    to the saved ones stripped to their declared fields, makes the FIRST
    slide the current one (whichever was current when saving), marks the
    store loaded, and writes nothing; the storage holds exactly what would
    be saved for the new state. *)
Theorem loadOnMount_restores (st0 st : State) (w : World) :
  presentation_saved st w →
  slides st ≠ [] →
  Forall (λ s, Slide.id s ≠ "") (slides st) →
  Forall (λ s, Slide.finite s = true) (slides st) →
  ∃ st1,
    loadOnMount st0 w = (Returned (Some st1), w)
    ∧ st1 = mkState (map reduced (slides st))
                    (Slide.id <$> head (slides st))
                    (selectedElementId st0) true
    ∧ presentation_saved st1 w.
Proof.
  intros Hsaved Hne Hids Hfin.
  eexists. split; [|split; [reflexivity|]].
  - unfold loadOnMount, mbind, M_bind.
    rewrite (loadPresentation_persisted (slides st) w Hsaved Hids Hfin).
    destruct (slides st) as [|first rest] eqn:Hslides; [done|].
    pose proof (reduced_slides_of_to_value (first :: rest)) as Hback.
    cbn [map] in Hback |- *. by rewrite Hback.
  - unfold presentation_saved. cbn [slides].
    by rewrite (persisted_reduced _ Hids).
Qed.

Lemma loadOnMount_restores_witness :
  let e := SlideElement.mk "e" text (Finite 10) (Finite 20) (Finite 300)
             (Finite 40) (Some "Title") None (Some (Finite 2))
             [("dragging", VBoolean true)] in
  let first := Slide.mk "slide-1" [] (Some "#ffffff") [] in
  let second := Slide.mk "slide-2" [e] None [("name", VString "Cover")] in
  let st := mkState [first; second] (Some "slide-2") (Some "e") true in
  let w := mkWorld {[PRESENTATION_STORAGE_KEY := persisted [first; second]]}
                   (λ _, 7) (λ _, "0.5") in
  ∃ st1,
    loadOnMount initialState w = (Returned (Some st1), w)
    ∧ st1 = mkState [first; reduced second] (Some "slide-1") None true
    ∧ presentation_saved st1 w.
Proof.
  intros e first second st w.
  apply (loadOnMount_restores initialState st w).
  - reflexivity.
  - discriminate.
  - repeat constructor; discriminate.
  - repeat constructor.
Defined.

(** X16. When the storage does not hold a non-empty array of slide entries
    (nothing stored, an empty string, text that is not JSON, a document of
    another shape, one entry without a string id or an elements array, or
    the empty array), the mount effect keeps the slides and the current
    slide it has, marks the store loaded and writes nothing. *)
Theorem loadOnMount_keeps_state (st : State) (w : World) :
  (∀ docs,
     localStorage w !! PRESENTATION_STORAGE_KEY = Some (document (JArray docs)) →
     Forall slide_entry docs → docs = []) →
  loadOnMount st w =
    (Returned (Some (mkState (slides st) (currentSlideId st)
                             (selectedElementId st) true)), w).
Proof.
  intros Hnone.
  unfold loadOnMount, mbind, M_bind.
  unfold loadPresentation, try_catch, mbind, M_bind, getItem.
  destruct (localStorage w !! PRESENTATION_STORAGE_KEY) as [[j|s]|] eqn:Hstored;
    simpl; [| |done].
  - destruct j as [|b|z|s|docs|members]; simpl; try done.
    destruct (forallb isValidSlide (map JSON_parse_document docs)) eqn:Hvalid;
      simpl; [|done].
    apply forallb_isValidSlide_parsed in Hvalid.
    by rewrite (Hnone docs eq_refl Hvalid).
  - by destruct (negb (negb (String.eqb s ""))).
Qed.

Lemma loadOnMount_keeps_state_witness :
  let w := mkWorld {[PRESENTATION_STORAGE_KEY :=
                       document (JArray [JObject [("id", JNumber 1);
                                                  ("elements", JArray [])]])]}
                   (λ _, 7) (λ _, "0.5") in
  loadOnMount initialState w =
    (Returned (Some (mkState (slides initialState)
                             (currentSlideId initialState)
                             (selectedElementId initialState) true)), w).
Proof.
  intros w. apply (loadOnMount_keeps_state initialState w).
  intros docs [= <-] Hall.
  apply Forall_cons in Hall as [(members & i & items & [= <-] & Hid & _) _].
  discriminate Hid.
Defined.

(** ** The two collections in the storage *)

Lemma getSavedSlides_returns (w : World) :
  ∃ v, getSavedSlides w = (Returned v, w).
Proof.
  unfold getSavedSlides, try_catch, mbind, M_bind, getItem.
  destruct (localStorage w !! SAVED_SLIDES_KEY) as [[j|s]|]; simpl; eauto.
  destruct (negb (String.eqb s "")); simpl; eauto.
Qed.

(** Saving a slide under a name writes the saved-slide list or nothing. *)
Lemma saveSlideToStorage_writes (toISOString : Z → string) (slide : Slide.t)
    (name : string) (w : World) :
  ∃ r w',
    saveSlideToStorage toISOString slide name w = (r, w')
    ∧ (localStorage w' = localStorage w
       ∨ ∃ t, localStorage w' = <[SAVED_SLIDES_KEY := t]> (localStorage w)).
Proof.
  unfold saveSlideToStorage, try_catch.
  unfold mbind at 1, M_bind at 1.
  destruct (getSavedSlides_returns w) as (v & ->).
  destruct v as [| | | | |items|]; try by (eexists _, _; split; [done|left]).
  unfold mbind at 1, M_bind at 1.
  destruct (Array_find _ items) as [found|]; simpl;
    [|by (eexists _, _; split; [done|left])].
  destruct (truthy found); simpl; [by (eexists _, _; split; [done|left])|].
  unfold mbind at 1, M_bind at 1.
  destruct (newSavedSlide_run slide name w) as (w' & -> & Hsame).
  eexists _, _. split; [done|]. right. cbn [localStorage].
  rewrite Hsame. eauto.
Qed.

(** Deleting a saved slide writes the saved-slide list or nothing. *)
Lemma deleteSavedSlide_writes (id : string) (w : World) :
  ∃ r w',
    deleteSavedSlide id w = (r, w')
    ∧ (localStorage w' = localStorage w
       ∨ ∃ t, localStorage w' = <[SAVED_SLIDES_KEY := t]> (localStorage w)).
Proof.
  unfold deleteSavedSlide, try_catch.
  unfold mbind at 1, M_bind at 1.
  destruct (getSavedSlides_returns w) as (v & ->).
  destruct v as [| | | | |items|]; try by (eexists _, _; split; [done|left]).
  unfold mbind at 1, M_bind at 1.
  destruct (Array_filter _ items) as [filtered|]; simpl;
    [|by (eexists _, _; split; [done|left])].
  eexists _, _. split; [done|]. right. cbn [localStorage]. eauto.
Qed.

(** X17. The presentation and the saved-slide list never interfere: no
    operation of the store and no call of [savePresentation] or
    [clearPresentation] changes what is stored under the saved-slides key,
    and neither [saveSlideToStorage] nor [deleteSavedSlide] changes what is
    stored under the presentation key, whether they return or throw. *)
Theorem collections_do_not_interfere :
  (∀ op st w,
     localStorage (perform op st w).2 !! SAVED_SLIDES_KEY
     = localStorage w !! SAVED_SLIDES_KEY)
  ∧ (∀ slides w,
       localStorage (savePresentation slides w).2 !! SAVED_SLIDES_KEY
       = localStorage w !! SAVED_SLIDES_KEY)
  ∧ (∀ w,
       localStorage (clearPresentation w).2 !! SAVED_SLIDES_KEY
       = localStorage w !! SAVED_SLIDES_KEY)
  ∧ (∀ toISOString slide name w,
       localStorage (saveSlideToStorage toISOString slide name w).2
         !! PRESENTATION_STORAGE_KEY
       = localStorage w !! PRESENTATION_STORAGE_KEY)
  ∧ (∀ id w,
       localStorage (deleteSavedSlide id w).2 !! PRESENTATION_STORAGE_KEY
       = localStorage w !! PRESENTATION_STORAGE_KEY).
Proof.
  pose proof storage_keys_differ as Hkeys.
  split; [|split; [|split; [|split]]].
  - intros op st w.
    destruct (perform_outcome op st w) as (r & w' & -> & Hout).
    cbn [snd]. destruct r as [st'|]; [|by rewrite Hout].
    destruct Hout as (_ & _ & [[_ ->]| ->]); [done|].
    destruct (isLoaded st); [|done]. by rewrite lookup_insert_ne.
  - intros slides w. rewrite savePresentation_run. cbn [snd localStorage].
    by rewrite lookup_insert_ne.
  - intros w. unfold clearPresentation, try_catch. cbn [snd localStorage].
    by rewrite lookup_delete_ne.
  - intros toISOString slide name w.
    destruct (saveSlideToStorage_writes toISOString slide name w)
      as (r & w' & -> & Hw).
    cbn [snd]. destruct Hw as [->|[t ->]]; [done|].
    by rewrite lookup_insert_ne.
  - intros id w.
    destruct (deleteSavedSlide_writes id w) as (r & w' & -> & Hw).
    cbn [snd]. destruct Hw as [->|[t ->]]; [done|].
    by rewrite lookup_insert_ne.
Qed.

(** X18. After [clearPresentation] nothing can be loaded: the call returns,
    [loadPresentation] then returns [null], and a store that mounts keeps
    the slides it starts with. *)
Theorem clearPresentation_then_load (st : State) (w : World) :
  ∃ w',
    clearPresentation w = (Returned (), w')
    ∧ loadPresentation w' = (Returned None, w')
    ∧ loadOnMount st w' =
        (Returned (Some (mkState (slides st) (currentSlideId st)
                                 (selectedElementId st) true)), w').
Proof.
  eexists. split; [reflexivity|].
  unfold loadOnMount, mbind, M_bind.
  unfold loadPresentation, try_catch, mbind, M_bind, getItem.
  cbn [localStorage]. rewrite lookup_delete_eq. done.
Qed.

(** ** Deleting and finding saved slides *)








(** X20. [getSavedSlides] does not check what it parses.  When the text
    under the saved-slides key is a JSON document that is not an array, it
    returns that document, and then [saveSlideToStorage],
    [deleteSavedSlide] and [isSlideSaved] each throw a TypeError and leave
    the storage as it is: no slide can be saved until the key is
    rewritten. *)
Theorem saved_slides_not_an_array (j : json) (w : World) :
  localStorage w !! SAVED_SLIDES_KEY = Some (document j) →
  (∀ docs, j ≠ JArray docs) →
  getSavedSlides w = (Returned (JSON_parse_document j), w)
  ∧ (∀ toISOString slide name,
       saveSlideToStorage toISOString slide name w = (Thrown TypeError, w))
  ∧ (∀ id, deleteSavedSlide id w = (Thrown TypeError, w))
  ∧ (∀ slideId, isSlideSaved slideId w = (Thrown TypeError, w)).
Proof.
  intros Hstored Hshape.
  assert (getSavedSlides w = (Returned (JSON_parse_document j), w)) as Hget.
  { unfold getSavedSlides, try_catch, mbind, M_bind, getItem.
    by rewrite Hstored. }
  split; [exact Hget|].
  split; [|split].
  - intros toISOString slide name.
    unfold saveSlideToStorage, try_catch.
    unfold mbind at 1, M_bind at 1. rewrite Hget.
    destruct j as [|b|z|s|docs|members]; try done. by destruct (Hshape docs).
  - intros id.
    unfold deleteSavedSlide, try_catch.
    unfold mbind at 1, M_bind at 1. rewrite Hget.
    destruct j as [|b|z|s|docs|members]; try done. by destruct (Hshape docs).
  - intros slideId.
    unfold isSlideSaved.
    unfold mbind at 1, M_bind at 1. rewrite Hget.
    destruct j as [|b|z|s|docs|members]; try done. by destruct (Hshape docs).
Qed.

Lemma saved_slides_not_an_array_witness :
  let j := JObject [("saved-1", JString "Intro")] in
  let w := mkWorld {[SAVED_SLIDES_KEY := document j]} (λ _, 7) (λ _, "0.5") in
  getSavedSlides w = (Returned (JSON_parse_document j), w)
  ∧ (∀ toISOString slide name,
       saveSlideToStorage toISOString slide name w = (Thrown TypeError, w))
  ∧ (∀ id, deleteSavedSlide id w = (Thrown TypeError, w))
  ∧ (∀ slideId, isSlideSaved slideId w = (Thrown TypeError, w)).
Proof.
  intros j w. apply (saved_slides_not_an_array j w).
  - reflexivity.
  - discriminate.
Defined.









(** On a parsed entry whose [slide] can be read, [saved.slide.id ===
    slideId] says whether the slide of the entry has that id. *)
Lemma slide_id_test_parsed (slideId : string) (entry : json) :
  holds_slide entry →
  (s ← get (JSON_parse_document entry) "slide";
   i ← get s "id";
   Some (is_string i slideId))
  = Some (bool_decide (saved_slide_id entry = Some slideId)).
Proof.
  intros (members & j & -> & Hslide & Hj).
  cbn [JSON_parse_document get mbind option_bind saved_slide_id].
  rewrite lookup_prop_parsed, Hslide.
  cbn [fmap option_fmap option_map default from_option id].
  destruct j as [|b|z|s|items|ms]; try done;
    cbn [JSON_parse_document get mbind option_bind].
  rewrite lookup_prop_parsed.
  destruct (member "id" ms) as [[|b|z|s|items|ms']|]; simpl; try done.
  destruct (String.eqb_spec s slideId) as [->|Hne]; simpl.
  - by rewrite bool_decide_eq_true_2.
  - rewrite bool_decide_eq_false_2; [done|]. congruence.
Qed.

Lemma Array_some_slide_id (slideId : string) (docs : list json) :
  Forall holds_slide docs →
  Array_some (λ saved, s ← get saved "slide";
                       i ← get s "id";
                       Some (is_string i slideId))
             (map JSON_parse_document docs)
  = Some (bool_decide (Exists (λ entry, saved_slide_id entry = Some slideId)
                              docs)).
Proof.
  induction 1 as [|entry docs Hentry _ IH].
  - cbn [map Array_some]. rewrite bool_decide_eq_false_2; [done|].
    by intros ?%Exists_nil.
  - cbn [map Array_some]. rewrite (slide_id_test_parsed slideId entry Hentry).
    destruct (decide (saved_slide_id entry = Some slideId)) as [Hyes|Hno].
    + rewrite !bool_decide_eq_true_2; [done| |done]. by left.
    + rewrite (bool_decide_eq_false_2 _ Hno), IH. f_equal.
      apply bool_decide_ext. rewrite Exists_cons. tauto.
Qed.

(** X22. With a list of saved slides in storage in which every entry has a
    [slide] that can be read, [isSlideSaved] returns, writes nothing, and
    its result says whether some entry holds a slide with the given id. *)
Theorem isSlideSaved_finds_slide_ids (slideId : string) (docs : list json)
    (w : World) :
  saved_slides_stored w docs →
  Forall holds_slide docs →
  isSlideSaved slideId w =
    (Returned (bool_decide (Exists (λ entry, saved_slide_id entry = Some slideId)
                                   docs)), w).
Proof.
  intros Hstored Hslides.
  unfold isSlideSaved. unfold mbind at 1, M_bind at 1.
  rewrite (getSavedSlides_stored docs w Hstored). cbv beta iota.
  by rewrite (Array_some_slide_id slideId docs Hslides).
Qed.

Lemma isSlideSaved_finds_slide_ids_witness :
  let entry := JObject [("id", JString "saved-1"); ("name", JString "Intro");
                        ("slide", JObject [("id", JString "slide-1");
                                           ("id", JString "slide-9");
                                           ("elements", JArray [])])] in
  let w := mkWorld {[SAVED_SLIDES_KEY := document (JArray [entry])]}
                   (λ _, 7) (λ _, "0.5") in
  isSlideSaved "slide-9" w = (Returned true, w).
Proof.
  intros entry w.
  apply (isSlideSaved_finds_slide_ids "slide-9" [entry] w).
  - left. reflexivity.
  - repeat constructor. eexists _, _. split; [reflexivity|].
    split; [reflexivity|discriminate].
Defined.



(** ** What populating a template keeps *)

Lemma populate_element_content (toLocaleString : number → string)
    (data : RealEstateData.t) (element : SlideElement.t) :
  populate_element toLocaleString data element
  = SlideElement.with_content element
      (SlideElement.content
         (populate_element toLocaleString data element)).
Proof.
  unfold populate_element.
  destruct element as [i t x y wd h [content|] st z extra]; [|done].
  cbn [SlideElement.content].
  by destruct (String.eqb content "").
Qed.

(** X24. [populateTemplate] changes nothing but contents: the slide keeps
    its id, its background and its other properties, it has as many
    elements in the same order, each element differs from the one it comes
    from in its [content] at most, and an element without content or with
    the empty string as content is the same element. *)
Theorem populateTemplate_changes_content_only
    (toLocaleString : number → string) (slide : Slide.t)
    (data : RealEstateData.t) :
  let populated := populateTemplate toLocaleString slide data in
  Slide.id populated = Slide.id slide
  ∧ Slide.backgroundColor populated = Slide.backgroundColor slide
  ∧ Slide.extra populated = Slide.extra slide
  ∧ Forall2 (λ element element',
               element' = SlideElement.with_content element
                            (SlideElement.content element')
               ∧ (SlideElement.content element = None
                  ∨ SlideElement.content element = Some ""
                  → element' = element))
            (Slide.elements slide) (Slide.elements populated).
Proof.
  cbn zeta. split; [done|]. split; [done|]. split; [done|].
  unfold populateTemplate. cbn [Slide.with_elements Slide.elements].
  induction (Slide.elements slide) as [|element es IH]; [constructor|].
  cbn [map]. constructor; [|exact IH]. split.
  - apply populate_element_content.
  - unfold populate_element. by intros [->| ->].
Qed.

(** ** Contents without a placeholder *)

Lemma replace_from_without (c : ascii) (pattern : list atom)
    (replacement before s : string) :
  without c s →
  replace_from (Literal c :: pattern) replacement O before s = s.
Proof.
  unfold without. revert before.
  induction s as [|d s IH]; intros before Hs; [done|].
  cbn [list_ascii_of_string] in Hs. apply Forall_cons in Hs as [Hd Hs].
  cbn [replace_from matches_at atom_matches].
  destruct (Ascii.eqb_spec c d) as [->|_]; [done|].
  cbn [andb]. by rewrite IH.
Qed.

Lemma replace_all_without (placeholder replacement s : string) :
  starts_with "{" placeholder = true →
  without "{" s →
  replace_all (RegExp placeholder) replacement s = s.
Proof.
  destruct placeholder as [|c placeholder]; [done|]. cbn [starts_with].
  rewrite andb_true_r. intros <-%Ascii.eqb_eq Hs.
  unfold replace_all. cbn [RegExp].
  change (Ascii.eqb "{" ".") with false. cbv iota.
  by apply replace_from_without.
Qed.

Lemma populate_text_without (toLocaleString : number → string)
    (data : RealEstateData.t) (content : string) :
  without "{" content →
  populate_text toLocaleString data content = content.
Proof.
  intros Hc. unfold populate_text, replacements. cbn [foldl]. cbv beta iota.
  by rewrite !(replace_all_without _ _ content) by done.
Qed.

Lemma includes_without (sub s : string) :
  starts_with "{" sub = true → without "{" s → includes sub s = false.
Proof.
  destruct sub as [|c sub]; [done|]. cbn [starts_with].
  rewrite andb_true_r. intros <-%Ascii.eqb_eq.
  unfold without. induction s as [|d s IH]; intros Hs; [reflexivity|].
  cbn [list_ascii_of_string] in Hs. apply Forall_cons in Hs as [Hd Hs].
  cbn [includes starts_with].
  destruct (Ascii.eqb_spec "{" d) as [Heq|_]; [by destruct Hd|].
  cbn [andb orb]. by apply IH.
Qed.

Lemma populate_element_without (toLocaleString : number → string)
    (data : RealEstateData.t) (element : SlideElement.t) :
  (∀ content, SlideElement.content element = Some content →
              without "{" content) →
  populate_element toLocaleString data element = element.
Proof.
  intros Hplain. unfold populate_element.
  destruct element as [i t x y wd h [content|] st z extra]; [|done].
  cbn [SlideElement.content] in *.
  destruct (String.eqb content ""); [done|].
  rewrite (includes_without "{{images[" content) by auto.
  rewrite andb_false_r.
  by rewrite (populate_text_without toLocaleString data content) by auto.
Qed.

(** X25. A slide in which no content contains an opening brace is left as it
    is by [populateTemplate], whatever the data: every placeholder and the
    image pattern begin with a brace. *)
Theorem populateTemplate_without_placeholders
    (toLocaleString : number → string) (slide : Slide.t)
    (data : RealEstateData.t) :
  Forall (λ element,
            ∀ content, SlideElement.content element = Some content →
                       without "{" content)
         (Slide.elements slide) →
  populateTemplate toLocaleString slide data = slide.
Proof.
  intros Hplain. unfold populateTemplate, Slide.with_elements.
  destruct slide as [i es bg extra]. cbn [Slide.id Slide.elements
    Slide.backgroundColor Slide.extra] in *.
  f_equal. induction Hplain as [|element es Helement _ IH]; [done|].
  cbn [map]. by rewrite (populate_element_without _ _ _ Helement), IH.
Qed.

Lemma populateTemplate_without_placeholders_witness :
  let title := SlideElement.mk "e1" text (Finite 10) (Finite 20) (Finite 300)
                 (Finite 40) (Some "For sale: $1} only") None None [] in
  let photo := SlideElement.mk "e2" image (Finite 0) (Finite 0) (Finite 100)
                 (Finite 100) (Some "https://example.org/a.png") None None [] in
  let slide := Slide.mk "slide-1" [title; photo] (Some "#ffffff") [] in
  populateTemplate (λ n, number_toString n) slide mockRealEstateData = slide.
Proof.
  intros title photo slide.
  apply (populateTemplate_without_placeholders
           (λ n, number_toString n) slide mockRealEstateData).
  repeat constructor; intros content [= <-]; unfold without;
    repeat constructor; discriminate.
Defined.

(** ** Replacing one placeholder *)

Lemma substitution_plain (replacement matched before after : string) :
  dollar_pattern replacement = false →
  substitution replacement matched before after = replacement.
Proof.
  induction replacement as [|c rest IH]; [done|].
  cbn [dollar_pattern]. intros [Hhere Hrest]%orb_false_elim.
  cbn [substitution]. destruct (Ascii.eqb c "$").
  - destruct rest as [|d rest']; [done|]. cbn [andb] in Hhere.
    apply orb_false_elim in Hhere as [Hhere H4].
    apply orb_false_elim in Hhere as [Hhere H3].
    apply orb_false_elim in Hhere as [H1 H2].
    rewrite H1, H2, H3, H4. by rewrite (IH Hrest).
  - by rewrite (IH Hrest).
Qed.

Lemma without_app (c : ascii) (a b : string) :
  without c a → without c b → without c (a +:+ b).
Proof.
  unfold without. intros Ha Hb. induction a as [|d a IH]; [done|].
  cbn [list_ascii_of_string] in Ha. apply Forall_cons in Ha as [Hd Ha].
  change (String d a +:+ b) with (String d (a +:+ b)).
  cbn [list_ascii_of_string]. constructor; [done|]. by apply IH.
Qed.

Lemma string_app_one (before : string) (c : ascii) (s : string) :
  (before +:+ String c "") +:+ s = before +:+ String c s.
Proof. by rewrite string_app_assoc. Qed.

Lemma string_app_empty (s : string) : s +:+ "" = s.
Proof.
  induction s as [|x s IH]; [done|].
  change (String x (s +:+ "") = String x s). by rewrite IH.
Qed.

(** Before the first brace nothing is replaced. *)
Lemma replace_from_pre (c : ascii) (pattern : list atom)
    (replacement before pre s : string) :
  without c pre →
  replace_from (Literal c :: pattern) replacement O before (pre +:+ s)
  = pre +:+ replace_from (Literal c :: pattern) replacement O
                         (before +:+ pre) s.
Proof.
  unfold without. revert before.
  induction pre as [|d pre IH]; intros before Hpre.
  - by rewrite string_app_empty.
  - cbn [list_ascii_of_string] in Hpre. apply Forall_cons in Hpre as [Hd Hpre].
    change (String d pre +:+ s) with (String d (pre +:+ s)).
    cbn [replace_from matches_at atom_matches].
    destruct (Ascii.eqb_spec c d) as [Heq|_]; [by destruct Hd|].
    cbn [andb]. rewrite (IH _ Hpre), string_app_one.
    reflexivity.
Qed.

(** The characters of a match are passed over. *)
Lemma replace_from_skip (pattern : list atom)
    (replacement before mid s : string) :
  replace_from pattern replacement (String.length mid) before (mid +:+ s)
  = replace_from pattern replacement O (before +:+ mid) s.
Proof.
  revert before. induction mid as [|d mid IH]; intros before.
  - by rewrite string_app_empty.
  - change (String d mid +:+ s) with (String d (mid +:+ s)).
    cbn [String.length replace_from].
    by rewrite IH, string_app_one.
Qed.

Lemma matches_at_could_match (pattern : list atom) (s post : string) :
  matches_at pattern (s +:+ post) = true → could_match pattern s = true.
Proof.
  revert s. induction pattern as [|a pattern IH]; intros s; [done|].
  destruct s as [|c s]; [done|].
  change (String c s +:+ post) with (String c (s +:+ post)).
  cbn [matches_at could_match].
  intros [-> Hrest]%andb_true_iff. by rewrite (IH s Hrest).
Qed.

Lemma matches_at_app (pattern : list atom) (s post : string) :
  matches_at pattern s = true → matches_at pattern (s +:+ post) = true.
Proof.
  revert s. induction pattern as [|a pattern IH]; intros s.
  - by destruct (s +:+ post).
  - destruct s as [|c s]; [done|].
    change (String c s +:+ post) with (String c (s +:+ post)).
    cbn [matches_at].
    intros [-> Hrest]%andb_true_iff. by rewrite (IH s Hrest).
Qed.

(** Where no match can begin, nothing is replaced. *)
Lemma replace_from_clear (c : ascii) (pattern : list atom)
    (replacement before mid post : string) :
  clear_of (Literal c :: pattern) mid = true →
  without c post →
  replace_from (Literal c :: pattern) replacement O before (mid +:+ post)
  = mid +:+ post.
Proof.
  intros Hclear Hpost. revert before Hclear.
  induction mid as [|d mid IH]; intros before Hclear.
  - by apply replace_from_without.
  - cbn [clear_of] in Hclear.
    apply andb_true_iff in Hclear as [Hhere Hclear].
    change (String d mid +:+ post) with (String d (mid +:+ post)).
    cbn [replace_from].
    destruct (matches_at (Literal c :: pattern) (String d (mid +:+ post)))
      eqn:Hmatch.
    + apply (matches_at_could_match _ (String d mid) post) in Hmatch.
      by rewrite Hmatch in Hhere.
    + by rewrite IH.
Qed.

Lemma RegExp_length (source : string) :
  length (RegExp source) = String.length source.
Proof. induction source as [|c source IH]; [done|]. cbn. by rewrite IH. Qed.

Lemma RegExp_brace (placeholder : string) :
  starts_with "{" placeholder = true →
  ∃ rest, placeholder = String "{" rest
          ∧ RegExp placeholder = Literal "{" :: RegExp rest.
Proof.
  destruct placeholder as [|c rest]; [done|]. cbn [starts_with].
  rewrite andb_true_r. intros <-%Ascii.eqb_eq. by exists rest.
Qed.

(** A pattern that can match nowhere in [mid] leaves [pre mid post] alone. *)
Lemma replace_all_clear (placeholder replacement pre mid post : string) :
  starts_with "{" placeholder = true →
  clear_of (RegExp placeholder) mid = true →
  without "{" pre →
  without "{" post →
  replace_all (RegExp placeholder) replacement (pre +:+ mid +:+ post)
  = pre +:+ mid +:+ post.
Proof.
  intros (rest & -> & Hpattern)%RegExp_brace Hclear Hpre Hpost.
  unfold replace_all. rewrite Hpattern in *.
  rewrite replace_from_pre by done.
  by rewrite replace_from_clear.
Qed.

(** The pattern of a placeholder replaces the placeholder. *)
Lemma replace_all_hit (placeholder replacement pre post : string) :
  starts_with "{" placeholder = true →
  matches_at (RegExp placeholder) placeholder = true →
  dollar_pattern replacement = false →
  without "{" pre →
  without "{" post →
  replace_all (RegExp placeholder) replacement (pre +:+ placeholder +:+ post)
  = pre +:+ replacement +:+ post.
Proof.
  intros Hbrace Hself Hplain Hpre Hpost.
  pose proof (matches_at_app _ _ post Hself) as Hmatch.
  pose proof (RegExp_length placeholder) as Hlength.
  destruct (RegExp_brace placeholder Hbrace) as (rest & -> & Hpattern).
  unfold replace_all. rewrite Hpattern in *.
  rewrite replace_from_pre by done. f_equal.
  change (String "{" rest +:+ post) with (String "{" (rest +:+ post)) in *.
  cbn [replace_from]. rewrite Hmatch, Hlength.
  rewrite substitution_plain by done. f_equal.
  cbn [String.length Nat.pred].
  rewrite replace_from_skip. by apply replace_from_without.
Qed.

Lemma foldl_replace_without (rs : list (string * string)) (s : string) :
  Forall (λ r, starts_with "{" r.1 = true) rs →
  without "{" s →
  foldl (λ populatedContent '(placeholder, value),
           replace_all (RegExp placeholder) value populatedContent) s rs
  = s.
Proof.
  intros Hrs Hs. induction Hrs as [|[placeholder value] rs Hr _ IH]; [done|].
  cbn [foldl]. by rewrite replace_all_without.
Qed.

Lemma foldl_replace_at (rs : list (string * string)) (k : nat)
    (placeholder value pre post : string) :
  rs !! k = Some (placeholder, value) →
  Forall (λ r, starts_with "{" r.1 = true
               ∧ clear_of (RegExp r.1) placeholder = true) (take k rs) →
  Forall (λ r, starts_with "{" r.1 = true) (drop (S k) rs) →
  starts_with "{" placeholder = true →
  matches_at (RegExp placeholder) placeholder = true →
  dollar_pattern value = false →
  without "{" pre →
  without "{" post →
  without "{" value →
  foldl (λ populatedContent '(placeholder, value),
           replace_all (RegExp placeholder) value populatedContent)
        (pre +:+ placeholder +:+ post) rs
  = pre +:+ value +:+ post.
Proof.
  intros Hk Hearlier Hlater Hbrace Hself Hplain Hpre Hpost Hvalue.
  rewrite <- (take_drop_middle rs k _ Hk), foldl_app.
  assert (foldl (λ populatedContent '(placeholder, value),
                   replace_all (RegExp placeholder) value populatedContent)
                (pre +:+ placeholder +:+ post) (take k rs)
          = pre +:+ placeholder +:+ post) as ->.
  { induction Hearlier as [|[p v] earlier [Hp Hclear] _ IH]; [done|].
    cbn [foldl]. cbn [fst] in Hp, Hclear. by rewrite replace_all_clear. }
  cbn [foldl]. rewrite replace_all_hit by done.
  apply foldl_replace_without; [done|].
  by repeat apply without_app.
Qed.

(** X26. One placeholder between texts without braces is replaced by its
    value.  For each of the eleven placeholders of [replacements]: when the
    content is the placeholder with a text before and a text after it that
    hold no opening brace, and the value holds no opening brace and none of
    the patterns [$$], [$&], [$`], [$'], the populated content is the text
    before, the value, the text after. *)
Theorem populate_text_replaces (toLocaleString : number → string)
    (data : RealEstateData.t) (k : nat) (placeholder value pre post : string) :
  replacements toLocaleString data !! k = Some (placeholder, value) →
  without "{" pre →
  without "{" post →
  without "{" value →
  dollar_pattern value = false →
  populate_text toLocaleString data (pre +:+ placeholder +:+ post)
  = pre +:+ value +:+ post.
Proof.
  intros Hk Hpre Hpost Hvalue Hplain. unfold populate_text.
  apply (foldl_replace_at _ k placeholder value); try done;
    do 11 (try destruct k as [|k]); try discriminate Hk;
    cbn in Hk; injection Hk as <- <-;
    cbn [take drop replacements]; repeat constructor.
Qed.

Lemma populate_text_replaces_witness :
  populate_text number_toString mockRealEstateData
    ("Offered at " +:+ "{{price}}" +:+ " (negotiable)")
  = "Offered at " +:+ "$2,500,000" +:+ " (negotiable)".
Proof.
  apply (populate_text_replaces number_toString mockRealEstateData 1
           "{{price}}" "$2,500,000" "Offered at " " (negotiable)").
  - reflexivity.
  - unfold without. repeat constructor; discriminate.
  - unfold without. repeat constructor; discriminate.
  - unfold without. repeat constructor; discriminate.
  - reflexivity.
Defined.

(** ** Populating the current slide *)

Lemma forEach_write_back (slideId : string) (L : list SlideElement.t)
    (st : State) (w : World) :
  ∃ w',
    forEach (λ element,
               updateElement slideId (SlideElement.id element)
                             (content_update element)) L st w
    = (Returned (mkState (foldl (λ ss element, map (write_back slideId element) ss)
                                (slides st) L)
                         (currentSlideId st) (selectedElementId st)
                         (isLoaded st)), w').
Proof.
  revert st w. induction L as [|element L IH]; intros st w.
  - exists w. by destruct st.
  - cbn [forEach foldl]. unfold mbind at 1, M_bind at 1.
    unfold updateElement at 1.
    match goal with
    | |- context [(autoSave ?b ?ss;; mret ?x) w] =>
        destruct (saving_outcome b ss x w) as (w1 & -> & _)
    end.
    destruct (IH (mkState (map (write_back slideId element) (slides st))
                          (currentSlideId st) (selectedElementId st)
                          (isLoaded st)) w1) as (w' & Hrest).
    exists w'. exact Hrest.
Qed.

Lemma merge_content_update (el element : SlideElement.t) :
  Updates.merge el (content_update element)
  = SlideElement.with_content el (SlideElement.content element).
Proof. by destruct el. Qed.

Lemma foldl_map_pointwise {A B} (f : B → A → A) (L : list B) (xs : list A) :
  foldl (λ xs b, map (f b) xs) xs L = map (λ x, foldl (λ x b, f b x) x L) xs.
Proof.
  revert xs. induction L as [|b L IH]; intros xs; cbn [foldl].
  - by rewrite map_id.
  - by rewrite IH, map_map.
Qed.

Lemma write_back_other (slideId : string) (L : list SlideElement.t)
    (slide : Slide.t) :
  Slide.id slide ≠ slideId →
  foldl (λ s element, write_back slideId element s) slide L = slide.
Proof.
  intros Hother. induction L as [|element L IH]; [done|].
  cbn [foldl]. unfold write_back at 2. by rewrite decide_False.
Qed.

Lemma write_back_elements (L : list SlideElement.t) (slide : Slide.t) :
  foldl (λ s element, write_back (Slide.id slide) element s) slide L
  = Slide.with_elements slide
      (map (λ el,
              foldl (λ el element,
                       if decide (SlideElement.id el = SlideElement.id element)
                       then SlideElement.with_content el
                              (SlideElement.content element)
                       else el) el L)
           (Slide.elements slide)).
Proof.
  revert slide. induction L as [|element L IH]; intros slide.
  - cbn [foldl]. rewrite map_id. by destruct slide.
  - cbn [foldl]. unfold write_back at 2. rewrite decide_True by done.
    specialize (IH (Slide.with_elements slide
                      (map (λ el, if decide (SlideElement.id el
                                             = SlideElement.id element)
                                  then Updates.merge el (content_update element)
                                  else el)
                           (Slide.elements slide)))).
    cbn [Slide.with_elements Slide.id Slide.elements] in IH.
    rewrite IH. unfold Slide.with_elements.
    cbn [Slide.id Slide.elements Slide.backgroundColor Slide.extra].
    f_equal. rewrite map_map. apply map_ext. intros el.
    by rewrite merge_content_update.
Qed.

Lemma content_write_other (L : list SlideElement.t) (el : SlideElement.t) :
  SlideElement.id el ∉ map SlideElement.id L →
  foldl (λ el element,
           if decide (SlideElement.id el = SlideElement.id element)
           then SlideElement.with_content el (SlideElement.content element)
           else el) el L
  = el.
Proof.
  induction L as [|element L IH]; [done|].
  cbn [map foldl]. intros [Hne Hnotin]%not_elem_of_cons.
  rewrite decide_False by done. by apply IH.
Qed.

Lemma populate_element_id (toLocaleString : number → string)
    (data : RealEstateData.t) (element : SlideElement.t) :
  SlideElement.id (populate_element toLocaleString data element)
  = SlideElement.id element.
Proof. by rewrite populate_element_content. Qed.

Lemma content_write_own (toLocaleString : number → string)
    (data : RealEstateData.t) (E : list SlideElement.t) (el : SlideElement.t) :
  NoDup (map SlideElement.id E) →
  el ∈ E →
  foldl (λ el element,
           if decide (SlideElement.id el = SlideElement.id element)
           then SlideElement.with_content el (SlideElement.content element)
           else el) el (map (populate_element toLocaleString data) E)
  = populate_element toLocaleString data el.
Proof.
  intros Hnodup (E1 & E2 & ->)%list_elem_of_split.
  rewrite map_app in Hnodup. cbn [map] in Hnodup.
  apply NoDup_app in Hnodup as (_ & Hfirst & [Hlast _]%NoDup_cons).
  assert (∀ L, map SlideElement.id (map (populate_element toLocaleString data) L)
               = map SlideElement.id L) as Hids.
  { intros L. rewrite map_map. apply map_ext. intros e.
    apply populate_element_id. }
  rewrite map_app, foldl_app. cbn [map foldl].
  rewrite (content_write_other (map (populate_element toLocaleString data) E1)
                               el).
  - rewrite populate_element_id, decide_True by done.
    rewrite <- populate_element_content.
    apply content_write_other. by rewrite populate_element_id, Hids.
  - rewrite Hids. intros Hin. apply (Hfirst _ Hin). apply list_elem_of_here.
Qed.

Lemma find_by_id (slideId : string) (ss : list Slide.t) (slide : Slide.t) :
  NoDup (map Slide.id ss) →
  slide ∈ ss →
  Slide.id slide = slideId →
  List.find (λ s, String.eqb (Slide.id s) slideId) ss = Some slide
  ∧ ∀ s, s ∈ ss → Slide.id s = slideId → s = slide.
Proof.
  intros Hnodup Hin Hid.
  assert (∀ s, s ∈ ss → Slide.id s = slideId → s = slide) as Hunique.
  { clear -Hnodup Hin Hid. subst slideId.
    induction ss as [|s0 ss IH]; [by intros ? ?%elem_of_nil|].
    cbn [map] in Hnodup. apply NoDup_cons in Hnodup as [Hfresh Hnodup].
    intros s Hs Hsame.
    apply elem_of_cons in Hin as [->|Hin], Hs as [->|Hs]; [done| | |by apply IH].
    - destruct Hfresh. rewrite <- Hsame. by apply list_elem_of_fmap_2.
    - destruct Hfresh. rewrite Hsame. by apply list_elem_of_fmap_2. }
  split; [|exact Hunique].
  clear Hnodup. induction ss as [|s0 ss IH]; [by apply elem_of_nil in Hin|].
  cbn [List.find]. destruct (String.eqb_spec (Slide.id s0) slideId) as [H0|H0].
  - f_equal. apply Hunique; [apply list_elem_of_here|done].
  - apply elem_of_cons in Hin as [->|Hin]; [done|].
    apply IH; [done|]. intros s Hs. apply Hunique. by apply list_elem_of_further.
Qed.

(** X27. Populating through the store gives the populated slide.  When the
    current slide exists, slide ids are distinct and the element ids of the
    current slide are distinct, [handlePopulateTemplate] (one
    [updateElement] for every element of the populated slide) returns and
    leaves the store with the current slide replaced by what
    [populateTemplate] makes of it for the sample data; the other slides,
    the current slide and the selection are as they were. *)
Theorem handlePopulateTemplate_populates (toLocaleString : number → string)
    (st : State) (currentSlide : Slide.t) (w : World) :
  currentSlideId st = Some (Slide.id currentSlide) →
  Slide.id currentSlide ≠ "" →
  currentSlide ∈ slides st →
  NoDup (map Slide.id (slides st)) →
  NoDup (map SlideElement.id (Slide.elements currentSlide)) →
  ∃ w',
    handlePopulateTemplate toLocaleString st w =
      (Returned
         (mkState
            (map (λ slide,
                    if decide (Slide.id slide = Slide.id currentSlide)
                    then populateTemplate toLocaleString slide
                                          mockRealEstateData
                    else slide)
                 (slides st))
            (currentSlideId st) (selectedElementId st) (isLoaded st)), w').
Proof.
  intros Hcurrent Hid Hin Hslides Helements.
  destruct (find_by_id (Slide.id currentSlide) (slides st) currentSlide
              Hslides Hin eq_refl) as [Hfind Hunique].
  unfold handlePopulateTemplate. rewrite Hcurrent.
  destruct (String.eqb_spec (Slide.id currentSlide) "") as [|_]; [done|].
  rewrite Hfind.
  destruct (forEach_write_back (Slide.id currentSlide)
              (Slide.elements (populateTemplate toLocaleString currentSlide
                                                mockRealEstateData)) st w)
    as (w' & ->).
  exists w'. do 2 f_equal. rewrite Hcurrent. f_equal.
  rewrite foldl_map_pointwise. apply map_ext_in. intros slide Hslide.
  apply list_elem_of_In in Hslide.
  destruct (decide (Slide.id slide = Slide.id currentSlide)) as [Hsame|Hother].
  - apply (Hunique slide Hslide) in Hsame as ->.
    rewrite write_back_elements.
    unfold populateTemplate. cbn [Slide.with_elements Slide.elements].
    f_equal. apply map_ext_in. intros el Hel. apply list_elem_of_In in Hel.
    by apply content_write_own.
  - by apply write_back_other.
Qed.

Lemma handlePopulateTemplate_populates_witness :
  let title := SlideElement.mk "e1" text (Finite 10) (Finite 20) (Finite 300)
                 (Finite 40) (Some "{{price}}") None None [] in
  let photo := SlideElement.mk "e2" image (Finite 0) (Finite 0) (Finite 100)
                 (Finite 100) None None None [] in
  let cover := Slide.mk "slide-1" [] None [] in
  let listing := Slide.mk "slide-2" [title; photo] (Some "#ffffff") [] in
  let st := mkState [cover; listing] (Some "slide-2") None true in
  let w := mkWorld ∅ (λ _, 7) (λ _, "0.5") in
  ∃ w',
    handlePopulateTemplate number_toString st w =
      (Returned
         (mkState
            (map (λ slide,
                    if decide (Slide.id slide = Slide.id listing)
                    then populateTemplate number_toString slide
                                          mockRealEstateData
                    else slide)
                 (slides st))
            (currentSlideId st) (selectedElementId st) (isLoaded st)), w').
Proof.
  intros title photo cover listing st w.
  apply (handlePopulateTemplate_populates number_toString st listing w).
  - reflexivity.
  - discriminate.
  - apply list_elem_of_further, list_elem_of_here.
  - apply (bool_decide_unpack _). vm_compute. exact I.
  - apply (bool_decide_unpack _). vm_compute. exact I.
Defined.

(** ** Snapping to the grid *)

Lemma round_half_even_near (num den : Z) :
  0 < den → 2 * Z.abs (round_half_even num den * den - num) ≤ den.
Proof.
  intros Hden. unfold round_half_even.
  pose proof (Z.div_mod num den ltac:(lia)) as Hdiv.
  pose proof (Z.mod_pos_bound num den Hden) as Hmod.
  destruct (Z.ltb_spec (2 * (num mod den)) den); [lia|].
  destruct (Z.ltb_spec den (2 * (num mod den))); [lia|].
  destruct (Z.even (num / den)); lia.
Qed.

(** The exponent is at most the difference of the bit lengths. *)
Lemma quotient_exponent_le (a b : Z) :
  quotient_exponent a b ≤ Z.log2 a - Z.log2 b.
Proof.
  unfold quotient_exponent.
  destruct (if 0 <=? Z.log2 a - Z.log2 b
            then a <? b * 2 ^ (Z.log2 a - Z.log2 b)
            else a * 2 ^ (- (Z.log2 a - Z.log2 b)) <? b); lia.
Qed.

(** Rounding half up, with both signs of the divisor. *)
Lemma round_half_up_sign (x g : Z) :
  g ≠ 0 → (2 * x + g) / (2 * g) = (2 * (Z.sgn g * x) + Z.abs g) / (2 * Z.abs g).
Proof.
  intros Hg. destruct (Z.lt_total g 0) as [Hneg|[->|Hpos]]; [|done|].
  - rewrite (Z.sgn_neg g), (Z.abs_neq g) by lia.
    rewrite <- (Z.div_opp_opp (2 * x + g)) by lia. f_equal; lia.
  - rewrite (Z.sgn_pos g), (Z.abs_eq g) by lia. f_equal; lia.
Qed.

(** Below 2^52 in magnitude the rounded double quotient is the exact
    quotient rounded half up: the double is on the same side of every half
    as the quotient. *)
Lemma Math_round_quotient_exact (x g : Z) :
  g ≠ 0 → Z.abs x < 2 ^ 52 →
  Math_round_quotient (Finite x) (Finite g) = Finite ((2 * x + g) / (2 * g)).
Proof.
  intros Hg Hx. unfold Math_round_quotient.
  rewrite (proj2 (Z.eqb_neq g 0) Hg).
  destruct (Z.eqb_spec x 0) as [->|Hx0].
  { f_equal. rewrite round_half_up_sign by done.
    rewrite Z.mul_0_r, Z.add_0_l. symmetry. apply Z.div_small. lia. }
  set (b := Z.abs g). set (X := Z.sgn g * x).
  assert (0 < b) as Hb by (unfold b; lia).
  assert (0 < Z.abs x) as Ha by lia.
  pose proof (quotient_exponent_le (Z.abs x) b) as He.
  assert (Z.log2 (Z.abs x) < 52) as Hlog by by apply Z.log2_lt_pow2.
  pose proof (Z.log2_nonneg b) as Hlogb.
  set (t := 52 - quotient_exponent (Z.abs x) b) in *.
  assert (1 + Z.log2 b ≤ t) as Ht by (unfold t; lia).
  rewrite (proj2 (Z.leb_le 0 t)), (proj2 (Z.ltb_lt 0 t)) by lia.
  f_equal. rewrite round_half_up_sign by done. fold b X.
  set (T := 2 ^ (t - 1)).
  assert (0 < T) as HT by (apply Z.pow_pos_nonneg; lia).
  assert (2 ^ t = 2 * T) as ->.
  { unfold T. rewrite <- Z.pow_succ_r by lia. f_equal. lia. }
  assert (b < 2 * T) as HbT.
  { unfold T. rewrite <- Z.pow_succ_r by lia.
    replace (Z.succ (t - 1)) with t by lia.
    apply Z.lt_le_trans with (2 ^ Z.succ (Z.log2 b)).
    - apply Z.log2_spec. lia.
    - apply Z.pow_le_mono_r; lia. }
  set (n := round_half_even (X * (2 * T)) b).
  pose proof (round_half_even_near (X * (2 * T)) b Hb) as Hn. fold n in Hn.
  set (R := (2 * X + b) / (2 * b)).
  pose proof (Z.div_mod (2 * X + b) (2 * b) ltac:(lia)) as Hdiv.
  pose proof (Z.mod_pos_bound (2 * X + b) (2 * b) ltac:(lia)) as Hmod.
  fold R in Hdiv.
  assert ((2 * R - 1) * b ≤ 2 * X ∧ 2 * X + 1 ≤ (2 * R + 1) * b) as [HloX HhiX]
    by lia.
  assert ((2 * R - 1) * T ≤ n) as Hlo.
  { assert (2 * ((2 * R - 1) * T) * b - b ≤ 2 * n * b) as H1 by nia.
    assert (2 * ((2 * R - 1) * T) - 1 ≤ 2 * n) as H2 by nia.
    lia. }
  assert (n < (2 * R + 1) * T) as Hhi.
  { assert (2 * n * b ≤ 2 * ((2 * R + 1) * T) * b - 2 * T + b) as H1 by nia.
    assert (2 * n * b < 2 * ((2 * R + 1) * T) * b) as H2 by lia.
    nia. }
  symmetry. apply (Z.div_unique_pos _ _ R (n + T - 2 * T * R)); lia.
Qed.

Lemma round_quotient_near (x g : Z) :
  g ≠ 0 → 2 * Z.abs ((2 * x + g) / (2 * g) * g - x) ≤ Z.abs g.
Proof.
  intros Hg.
  pose proof (Z.div_mod (2 * x + g) (2 * g) ltac:(lia)) as Hdiv.
  destruct (Z.lt_total g 0) as [Hneg|[->|Hpos]]; [|done|].
  - pose proof (Z.mod_neg_bound (2 * x + g) (2 * g) ltac:(lia)). lia.
  - pose proof (Z.mod_pos_bound (2 * x + g) (2 * g) ltac:(lia)). lia.
Qed.

Lemma round_quotient_multiple (q g : Z) :
  g ≠ 0 → (2 * (q * g) + g) / (2 * g) = q.
Proof.
  intros Hg.
  replace (2 * (q * g) + g) with (q * (2 * g) + g) by lia.
  rewrite Z.div_add_l by lia.
  destruct (Z.lt_total g 0) as [Hneg|[->|Hpos]]; [|done|].
  - replace (g / (2 * g)) with (- g / (- (2 * g)))
      by (rewrite Z.div_opp_opp; lia).
    rewrite Z.div_small; lia.
  - rewrite Z.div_small; lia.
Qed.

Lemma snapToGrid_integers (x g : Z) :
  g ≠ 0 → Z.abs g < 2 ^ 52 → Z.abs x < 2 ^ 52 →
  snapToGrid (Finite x) (Finite g) = Finite ((2 * x + g) / (2 * g) * g).
Proof.
  intros Hg Hgb Hx. unfold snapToGrid.
  rewrite Math_round_quotient_exact by done. cbn [number_mul].
  apply round_to_double_exact.
  pose proof (round_quotient_near x g Hg). lia.
Qed.

(** X28. For integer coordinates and an integer grid size below 2^51 in
    magnitude, the grid size not zero, [snapPositionToGrid] gives, for each
    coordinate, a multiple of the grid size that is no further from the
    coordinate than half the grid size, and a snapped position snaps to
    itself. *)
Theorem snapPositionToGrid_nearest (x y g : Z) :
  g ≠ 0 →
  Z.abs g < 2 ^ 51 → Z.abs x < 2 ^ 51 → Z.abs y < 2 ^ 51 →
  ∃ x' y',
    snapPositionToGrid (Finite x) (Finite y) (Finite g) = (Finite x', Finite y')
    ∧ (g | x') ∧ (g | y')
    ∧ 2 * Z.abs (x' - x) ≤ Z.abs g
    ∧ 2 * Z.abs (y' - y) ≤ Z.abs g
    ∧ snapPositionToGrid (Finite x') (Finite y') (Finite g)
      = (Finite x', Finite y').
Proof.
  intros Hg Hgb Hx Hy. unfold snapPositionToGrid.
  pose proof (round_quotient_near x g Hg) as Hnx.
  pose proof (round_quotient_near y g Hg) as Hny.
  rewrite !snapToGrid_integers by lia.
  eexists _, _. split; [reflexivity|].
  split; [by eexists|]. split; [by eexists|].
  split; [done|]. split; [done|].
  rewrite !snapToGrid_integers by lia.
  by rewrite !round_quotient_multiple.
Qed.

Lemma snapPositionToGrid_nearest_witness :
  ∃ x' y',
    snapPositionToGrid (Finite 130) (Finite (-7)) (Finite 20)
    = (Finite x', Finite y')
    ∧ (20 | x') ∧ (20 | y')
    ∧ 2 * Z.abs (x' - 130) ≤ Z.abs 20
    ∧ 2 * Z.abs (y' - -7) ≤ Z.abs 20
    ∧ snapPositionToGrid (Finite x') (Finite y') (Finite 20)
      = (Finite x', Finite y').
Proof. apply (snapPositionToGrid_nearest 130 (-7) 20); lia. Defined.

(** X29. With a grid size of zero [snapToGrid] gives [NaN] for every
    position: the quotient is infinite or [NaN], and its product with zero
    is [NaN]. *)
Theorem snapToGrid_zero_grid (position : number) :
  snapToGrid position (Finite 0) = NaN.
Proof.
  destruct position as [| |x|]; try done.
  unfold snapToGrid, Math_round_quotient. cbn [Z.eqb].
  destruct (x =? 0); [done|]. by destruct (0 <? x).
Qed.
